(** * Sieve bytecode engine: binary code writer, reader and interpreter loop

    Shallow embedding of
      - src/lib-sieve/sieve-binary-code.c  (emission and retrieval of code)
      - src/lib-sieve/sieve-interpreter.c  (program counter, jump, run loop)
      - src/lib-sieve/cmd-keep.c           (the keep operation)
    and of src/testsuite/testsuite-message.c (the message environment of
    the test suite).

    Integers of a C type are values of [Z] with the wrap-around of the type
    written out.  A code buffer is the list of its bytes, each an unsigned
    value below 256. *)

From Stdlib Require Import String ZArith List Lia Bool.
Import ListNotations.
Local Open Scope Z_scope.

(** ** C integer conversions *)

(** Conversion to [int] (32 bits, two's complement). *)
Definition to_int (x : Z) : Z := (x + 2 ^ 31) mod 2 ^ 32 - 2 ^ 31.

(** Conversion to [unsigned int] and [uint32_t]. *)
Definition to_uint (x : Z) : Z := x mod 2 ^ 32.

(** Conversion to [unsigned char]: the byte as stored in a buffer. *)
Definition to_uchar (x : Z) : Z := x mod 256.

(** Conversion to [signed char]. *)
Definition to_schar (x : Z) : Z := (x + 128) mod 256 - 128.

Definition INT_MAX : Z := 2 ^ 31 - 1.
Definition UINT_MAX : Z := 2 ^ 32 - 1.

(** ** Dovecot buffer primitives used by the writer *)

(** [buffer_append(buf, data, size)] *)
Definition buffer_append (buf data : list Z) : list Z := buf ++ data.

(** [buffer_write(buf, pos, &c, 1)]: overwrites the byte at [pos]; a
    position at or past the used size grows the buffer, zero-filling the
    gap, as Dovecot's buffer does. *)
Definition buffer_write (buf : list Z) (pos : Z) (c : Z) : list Z :=
  let n := Z.to_nat pos in
  if pos <? Z.of_nat (length buf)
  then firstn n buf ++ c :: skipn (S n) buf
  else buf ++ repeat 0 (n - length buf) ++ [c].

(** A local C array: a store outside the array has no defined result. *)
Definition array_store (a : list Z) (i : Z) (v : Z) : option (list Z) :=
  if (0 <=? i) && (i <? Z.of_nat (length a))
  then Some (firstn (Z.to_nat i) a ++ v :: skipn (S (Z.to_nat i)) a)
  else None.

(** Memory that holds the byte [b] wherever [_code] points outside the
    buffer. *)
Definition filled (b : Z) : Z -> Z := fun _ => b.

(** ** The message environment of the test suite (testsuite-message.c) *)

Module Testsuite.

(** [struct message_address] of Dovecot, the two members the file
    reads; [None] is NULL. *)
Record message_address := mk_address {
  mailbox : option string;
  domain : option string
}.

(** The four [string_t] buffers of the file. *)
Inductive envelope_buffer :=
| envelope_from
| envelope_to
| envelope_orig_to
| envelope_auth.

(** A [const char *] held by the message data: NULL, the text of one of
    the buffers ([str_c]), or a string that lives elsewhere. *)
Inductive cstr :=
| NULL
| str_c (buf : envelope_buffer)
| elsewhere (s : string).

(** [struct sieve_message_data]: the members that are pointers to
    strings; [mail] is left out. *)
Record sieve_message_data := mk_msgdata {
  auth_user : cstr;
  return_path : cstr;
  orig_envelope_to : cstr;
  final_envelope_to : cstr;
  id : cstr
}.

(** The static variables of the file. *)
Record testsuite_state := mk_state {
  buffers : envelope_buffer -> string;
  testsuite_msgdata : sieve_message_data
}.

Definition buffer_eqb (a b : envelope_buffer) : bool :=
  match a, b with
  | envelope_from, envelope_from
  | envelope_to, envelope_to
  | envelope_orig_to, envelope_orig_to
  | envelope_auth, envelope_auth => true
  | _, _ => false
  end.

(** [str_truncate(buf, 0)] followed by [str_append(buf, value)] when
    [value] is not NULL. *)
Definition buffer_set (st : testsuite_state) (buf : envelope_buffer)
    (value : option string) : testsuite_state :=
  mk_state (fun b => if buffer_eqb b buf
                     then match value with Some v => v | None => EmptyString end
                     else buffers st b)
           (testsuite_msgdata st).

Definition with_msgdata (st : testsuite_state) (m : sieve_message_data) :=
  mk_state (buffers st) m.

(** What a reader of the message data finds behind a pointer. *)
Definition text (st : testsuite_state) (p : cstr) : option string :=
  match p with
  | NULL => None
  | str_c buf => Some (buffers st buf)
  | elsewhere s => Some s
  end.

Definition is_empty (s : string) : bool :=
  match s with EmptyString => true | _ => false end.

(** Where the functions of the file leave the pointers of the message
    data: the sender in envelope_from, the final recipient in
    envelope_to, the original recipient in either recipient buffer, the
    user in envelope_auth unless it is the user name of the tool. *)
Definition pointers_in_buffers (user : string) (st : testsuite_state) : Prop :=
  let msgdata := testsuite_msgdata st in
  return_path msgdata = str_c envelope_from
  /\ final_envelope_to msgdata = str_c envelope_to
  /\ (orig_envelope_to msgdata = str_c envelope_to
      \/ orig_envelope_to msgdata = str_c envelope_orig_to)
  /\ (auth_user msgdata = str_c envelope_auth
      \/ auth_user msgdata = elsewhere user).

Section Mail.

Variable mail : Type.

(** [mail_get_first_header(mail, field, &value)] of the mail storage
    library: the returned [int], positive when the header is there, and
    the value it then leaves in [*value_r]. *)
Variable mail_get_first_header : mail -> string -> Z * string.

(** [message_address_parse(pool, str, strlen(str), 1, FALSE)] of
    Dovecot: the first address, [None] for NULL. *)
Variable message_address_parse : string -> option message_address.

(** [sieve_tool_get_username(sieve_tool)] *)
Variable sieve_tool_get_username : string.

Definition testsuite_message_get_address (m : mail) (header : string)
    : option string :=
  let (ret, str) := mail_get_first_header m header in
  if ret <=? 0 then None
  else
    match message_address_parse str with
    | None => None
    | Some addr =>
        match mailbox addr with
        | None => None
        | Some mbox =>
            if is_empty mbox then None
            else
              match domain addr with
              | None => Some mbox
              | Some dom =>
                  if is_empty dom then Some mbox
                  else Some (mbox ++ "@" ++ dom)%string
              end
        end
    end.

(** [testsuite_message_set_data]; [memset] makes every member NULL, and
    the id stays so unless the lookup of Message-ID finds the header. *)
Definition testsuite_message_set_data (st : testsuite_state) (m : mail)
    : testsuite_state :=
  let recipient := testsuite_message_get_address m "Envelope-To"%string in
  let recipient :=
    match recipient with
    | None => testsuite_message_get_address m "To"%string
    | Some _ => recipient
    end in
  let recipient :=
    match recipient with
    | None => "recipient@example.com"%string
    | Some r => r
    end in
  let sender := testsuite_message_get_address m "Return-path"%string in
  let sender :=
    match sender with
    | None => testsuite_message_get_address m "Sender"%string
    | Some _ => sender
    end in
  let sender :=
    match sender with
    | None => testsuite_message_get_address m "From"%string
    | Some _ => sender
    end in
  let sender :=
    match sender with
    | None => "sender@example.com"%string
    | Some s => s
    end in
  let msgdata := mk_msgdata NULL NULL NULL NULL NULL in
  let msgdata :=
    mk_msgdata (elsewhere sieve_tool_get_username) (return_path msgdata)
               (orig_envelope_to msgdata) (final_envelope_to msgdata)
               (id msgdata) in
  let st := buffer_set st envelope_from (Some sender) in
  let msgdata :=
    mk_msgdata (auth_user msgdata) (str_c envelope_from)
               (orig_envelope_to msgdata) (final_envelope_to msgdata)
               (id msgdata) in
  let st := buffer_set st envelope_to (Some recipient) in
  let msgdata :=
    mk_msgdata (auth_user msgdata) (return_path msgdata)
               (orig_envelope_to msgdata) (str_c envelope_to) (id msgdata) in
  let st := buffer_set st envelope_orig_to (Some recipient) in
  let msgdata :=
    mk_msgdata (auth_user msgdata) (return_path msgdata)
               (str_c envelope_orig_to) (final_envelope_to msgdata)
               (id msgdata) in
  let (ret, value) := mail_get_first_header m "Message-ID"%string in
  let msgdata :=
    mk_msgdata (auth_user msgdata) (return_path msgdata)
               (orig_envelope_to msgdata) (final_envelope_to msgdata)
               (if ret >? 0 then elsewhere value else NULL) in
  with_msgdata st msgdata.

End Mail.

(** The functions below also call [sieve_message_context_reset] on the
    message context of the runtime environment, which is not part of the
    state of this file. *)

Definition testsuite_envelope_set_sender
    (st : testsuite_state) (value : option string) : testsuite_state :=
  let st := buffer_set st envelope_from value in
  let m := testsuite_msgdata st in
  with_msgdata st
    (mk_msgdata (auth_user m) (str_c envelope_from) (orig_envelope_to m)
                (final_envelope_to m) (id m)).

Definition testsuite_envelope_set_recipient
    (st : testsuite_state) (value : option string) : testsuite_state :=
  let st := buffer_set st envelope_to value in
  let m := testsuite_msgdata st in
  let m := mk_msgdata (auth_user m) (return_path m) (str_c envelope_to)
                      (final_envelope_to m) (id m) in
  with_msgdata st
    (mk_msgdata (auth_user m) (return_path m) (orig_envelope_to m)
                (str_c envelope_to) (id m)).

Definition testsuite_envelope_set_orig_recipient
    (st : testsuite_state) (value : option string) : testsuite_state :=
  let st := buffer_set st envelope_orig_to value in
  let m := testsuite_msgdata st in
  with_msgdata st
    (mk_msgdata (auth_user m) (return_path m) (str_c envelope_orig_to)
                (final_envelope_to m) (id m)).

Definition testsuite_envelope_set_auth_user
    (st : testsuite_state) (value : option string) : testsuite_state :=
  let st := buffer_set st envelope_auth value in
  let m := testsuite_msgdata st in
  with_msgdata st
    (mk_msgdata (str_c envelope_auth) (return_path m) (orig_envelope_to m)
                (final_envelope_to m) (id m)).

(** The calls a test script can make on the message environment once a
    mail is open: [testsuite_message_set_mail] (and, with the mail
    opened by sieve-tool, [testsuite_message_set_string] and
    [testsuite_message_set_file]) and the four envelope setters. *)
Inductive testsuite_call (mail : Type) :=
| message_set_mail (m : mail)
| envelope_set_sender (value : option string)
| envelope_set_recipient (value : option string)
| envelope_set_orig_recipient (value : option string)
| envelope_set_auth_user (value : option string).

Arguments message_set_mail {mail} _.
Arguments envelope_set_sender {mail} _.
Arguments envelope_set_recipient {mail} _.
Arguments envelope_set_orig_recipient {mail} _.
Arguments envelope_set_auth_user {mail} _.

Definition testsuite_do {mail : Type}
    (mail_get_first_header : mail -> string -> Z * string)
    (message_address_parse : string -> option message_address)
    (sieve_tool_get_username : string)
    (st : testsuite_state) (call : testsuite_call mail) : testsuite_state :=
  match call with
  | message_set_mail m =>
      testsuite_message_set_data mail mail_get_first_header
        message_address_parse sieve_tool_get_username st m
  | envelope_set_sender value => testsuite_envelope_set_sender st value
  | envelope_set_recipient value => testsuite_envelope_set_recipient st value
  | envelope_set_orig_recipient value =>
      testsuite_envelope_set_orig_recipient st value
  | envelope_set_auth_user value => testsuite_envelope_set_auth_user st value
  end.

End Testsuite.

Section Engine.

(** [sizeof(sieve_number_t)]; the typedef lives in sieve-common.h. *)
Variable NUMBER_BYTES : Z.

(** Width in bits of [sieve_size_t] (a [size_t]). *)
Variable SIZE_BITS : Z.

(** What a dereference of [_code[i]] yields when [i] lies outside the
    used part of the buffer: whatever memory holds there. *)
Variable past_end : Z -> Z.

(** Extension identities are opaque to the engine. *)
Variable sieve_extension : Type.

Definition NUMBER_BITS : Z := 8 * NUMBER_BYTES.

(** Arithmetic in [sieve_size_t] and [sieve_number_t] wraps. *)
Definition size_wrap (x : Z) : Z := x mod 2 ^ SIZE_BITS.
Definition number_wrap (x : Z) : Z := x mod 2 ^ NUMBER_BITS.

(** A binary block: its code buffer and the extension index table of
    the binary it belongs to. *)
Record sieve_binary_block := mk_block {
  data : list Z;
  sbin_extensions : list sieve_extension
}.

Definition _sieve_binary_block_get_size (sblock : sieve_binary_block) : Z :=
  Z.of_nat (length (data sblock)).

Definition with_data (sblock : sieve_binary_block) (d : list Z) :=
  mk_block d (sbin_extensions sblock).

(** *** Emission functions *)

Definition _sieve_binary_emit_data
    (sblock : sieve_binary_block) (bytes : list Z) : sieve_binary_block :=
  with_data sblock (buffer_append (data sblock) bytes).

Definition _sieve_binary_emit_byte
    (sblock : sieve_binary_block) (byte : Z) : sieve_binary_block :=
  _sieve_binary_emit_data sblock [to_uchar byte].

Definition _sieve_binary_update_data
    (sblock : sieve_binary_block) (address : Z) (c : Z) : sieve_binary_block :=
  with_data sblock (buffer_write (data sblock) address c).

Definition sieve_binary_emit_data
    (sblock : sieve_binary_block) (bytes : list Z) : sieve_binary_block * Z :=
  let address := _sieve_binary_block_get_size sblock in
  (_sieve_binary_emit_data sblock bytes, address).

Definition sieve_binary_emit_byte
    (sblock : sieve_binary_block) (byte : Z) : sieve_binary_block * Z :=
  let address := _sieve_binary_block_get_size sblock in
  (_sieve_binary_emit_data sblock [to_uchar byte], address).

(** The four bytes of an [int], most significant first:
    [for (i = 3; i >= 0; i--) c = (char)(offset >> (i * 8))]. *)
Definition offset_byte (offset : Z) (i : Z) : Z :=
  to_uchar (Z.shiftr offset (i * 8)).

Definition sieve_binary_emit_offset
    (sblock : sieve_binary_block) (offset : Z) : sieve_binary_block * Z :=
  let address := _sieve_binary_block_get_size sblock in
  let sblock := _sieve_binary_emit_data sblock [offset_byte offset 3] in
  let sblock := _sieve_binary_emit_data sblock [offset_byte offset 2] in
  let sblock := _sieve_binary_emit_data sblock [offset_byte offset 1] in
  let sblock := _sieve_binary_emit_data sblock [offset_byte offset 0] in
  (sblock, address).

Definition sieve_binary_resolve_offset
    (sblock : sieve_binary_block) (address : Z) : sieve_binary_block :=
  let offset :=
    to_int (size_wrap (_sieve_binary_block_get_size sblock - address)) in
  let sblock :=
    _sieve_binary_update_data sblock (size_wrap (address + 3 - 3))
                              (offset_byte offset 3) in
  let sblock :=
    _sieve_binary_update_data sblock (size_wrap (address + 3 - 2))
                              (offset_byte offset 2) in
  let sblock :=
    _sieve_binary_update_data sblock (size_wrap (address + 3 - 1))
                              (offset_byte offset 1) in
  let sblock :=
    _sieve_binary_update_data sblock (size_wrap (address + 3 - 0))
                              (offset_byte offset 0) in
  sblock.

(** The [while (integer > 0)] loop of [sieve_binary_emit_integer].  Every
    turn stores one group at [buffer[bufpos]] and moves [bufpos] down, so
    [n] turns, [n] the size of the array, always reach either the end of
    the loop or a store below the array. *)
Fixpoint emit_integer_while
    (n : nat) (buffer : list Z) (bufpos integer : Z) : option (list Z * Z) :=
  if integer >? 0 then
    match n with
    | O => None
    | S n' =>
        match array_store buffer bufpos (Z.land integer 0x7F) with
        | None => None
        | Some buffer' =>
            emit_integer_while n' buffer' (bufpos - 1) (Z.shiftr integer 7)
        end
    end
  else Some (buffer, bufpos).

(** [for (i = bufpos; i < sizeof(buffer) - 1; i++) buffer[i] |= 0x80];
    [n] bounds the turns, which are fewer than the array has bytes. *)
Fixpoint mark_continuation (n : nat) (buffer : list Z) (i : Z) : list Z :=
  match n with
  | O => buffer
  | S n' =>
      if i <? Z.of_nat (length buffer) - 1 then
        match array_store buffer i (Z.lor (nth (Z.to_nat i) buffer 0) 0x80) with
        | Some buffer' => mark_continuation n' buffer' (i + 1)
        | None => buffer
        end
      else buffer
  end.

(** [sieve_binary_emit_integer].  [None]: a store outside the local
    array [buffer], whose size is [sizeof(sieve_number_t) + 1]. *)
Definition sieve_binary_emit_integer
    (sblock : sieve_binary_block) (integer : Z)
    : option (sieve_binary_block * Z) :=
  let address := _sieve_binary_block_get_size sblock in
  let sizeof_buffer := NUMBER_BYTES + 1 in
  let buffer := repeat 0 (Z.to_nat sizeof_buffer) in
  let bufpos := sizeof_buffer - 1 in
  match array_store buffer bufpos (Z.land integer 0x7F) with
  | None => None
  | Some buffer =>
      let bufpos := bufpos - 1 in
      let integer := Z.shiftr integer 7 in
      match emit_integer_while (length buffer) buffer bufpos integer with
      | None => None
      | Some (buffer, bufpos) =>
          let bufpos := bufpos + 1 in
          let buffer :=
            if sizeof_buffer - bufpos >? 1
            then mark_continuation (length buffer) buffer bufpos
            else buffer in
          Some (_sieve_binary_emit_data sblock
                  (skipn (Z.to_nat bufpos) buffer), address)
      end
  end.

Definition sieve_binary_emit_dynamic_data
    (sblock : sieve_binary_block) (bytes : list Z)
    : option (sieve_binary_block * Z) :=
  match sieve_binary_emit_integer sblock
          (number_wrap (Z.of_nat (length bytes))) with
  | None => None
  | Some (sblock, address) =>
      Some (_sieve_binary_emit_data sblock bytes, address)
  end.

Definition sieve_binary_emit_string
    (sblock : sieve_binary_block) (str : list Z)
    : option (sieve_binary_block * Z) :=
  match sieve_binary_emit_dynamic_data sblock str with
  | None => None
  | Some (sblock, address) => Some (_sieve_binary_emit_byte sblock 0, address)
  end.

(** [strlen(str)], [str] being the memory from the pointer on: the
    number of bytes before the first zero byte; [None] when the memory
    shown holds no zero byte, the string then being unterminated. *)
Fixpoint strlen (str : list Z) : option nat :=
  match str with
  | [] => None
  | c :: rest => if c =? 0 then Some O else option_map S (strlen rest)
  end.

(** [sieve_binary_emit_cstring]; [None] also when [strlen] finds no end. *)
Definition sieve_binary_emit_cstring
    (sblock : sieve_binary_block) (str : list Z)
    : option (sieve_binary_block * Z) :=
  match strlen str with
  | None => None
  | Some n =>
      match sieve_binary_emit_dynamic_data sblock (firstn n str) with
      | None => None
      | Some (sblock, address) =>
          Some (_sieve_binary_emit_byte sblock 0, address)
      end
  end.

(** [sieve_binary_emit_extension_object]; [objs] is the object table,
    [objs->count] its length. *)
Definition sieve_binary_emit_extension_object
    {O : Type} (sblock : sieve_binary_block) (objs : list O) (code : Z)
    : sieve_binary_block :=
  if Z.of_nat (length objs) >? 1
  then _sieve_binary_emit_byte sblock code
  else sblock.

(** Extensions are compared as the pointers they are. *)
Variable sieve_extension_eq_dec :
  forall a b : sieve_extension, {a = b} + {a <> b}.

(** The index of an extension in the table, if it is registered. *)
Fixpoint extension_index
    (exts : list sieve_extension) (ext : sieve_extension) : option nat :=
  match exts with
  | [] => None
  | e :: rest =>
      if sieve_extension_eq_dec e ext then Some O
      else option_map S (extension_index rest ext)
  end.

(** Modelled from the spec: [sieve_binary_extension_register] is defined
    in sieve-binary.c, which is not among the sources.  The spec has the
    Extension Index Table "append-only, insertion-ordered", and "an
    identity is assigned an index the first time it is emitted, and the
    same index is reused on subsequent emissions".  The result is the
    block with the table as the call leaves it, and [ereg->index]. *)
Definition sieve_binary_extension_register
    (sblock : sieve_binary_block) (ext : sieve_extension)
    : sieve_binary_block * Z :=
  match extension_index (sbin_extensions sblock) ext with
  | Some i => (sblock, Z.of_nat i)
  | None =>
      (mk_block (data sblock) (sbin_extensions sblock ++ [ext]),
       Z.of_nat (length (sbin_extensions sblock)))
  end.

(** [sieve_binary_emit_extension]; [offset + ereg->index] is computed in
    [unsigned int] and handed over as an [unsigned char]. *)
Definition sieve_binary_emit_extension
    (sblock : sieve_binary_block) (ext : sieve_extension) (offset : Z)
    : sieve_binary_block * Z :=
  let address := _sieve_binary_block_get_size sblock in
  let (sblock, index) := sieve_binary_extension_register sblock ext in
  (_sieve_binary_emit_byte sblock (to_uint (offset + index)), address).

(** *** Code retrieval *)

(** The reading cursor: [*address], and the indices at which [_code] was
    dereferenced outside [0, _code_size), oldest first. *)
Record cursor := mk_cursor {
  address : Z;
  stray : list Z
}.

Definition Rd (A : Type) : Type := cursor -> A * cursor.

Definition ret {A} (a : A) : Rd A := fun c => (a, c).

Definition bind {A B} (m : Rd A) (k : A -> Rd B) : Rd B :=
  fun c => let (a, c') := m c in k a c'.

Notation "x <- m ;; k" := (bind m (fun x => k))
  (at level 61, m at next level, right associativity).
Notation "m ;;; k" := (bind m (fun _ => k))
  (at level 61, right associativity).

Section Retrieval.

Variable sblock : sieve_binary_block.

(** [ADDR_CODE_READ(block)] *)
Definition _code_size : Z := Z.of_nat (length (data sblock)).

Definition in_code (i : Z) : bool := (0 <=? i) && (i <? _code_size).

(** [_code[i]] as an unsigned byte. *)
Definition _code (i : Z) : Z :=
  if in_code i then to_uchar (nth (Z.to_nat i) (data sblock) 0)
  else to_uchar (past_end i).

Definition deref : Rd Z := fun c =>
  let i := address c in
  (_code i,
   if in_code i then c else mk_cursor i (stray c ++ [i])).

(** [ADDR_DATA_AT(address)] *)
Definition ADDR_DATA_AT : Rd Z := deref.

(** [ADDR_CODE_AT(address)] *)
Definition ADDR_CODE_AT : Rd Z := b <- deref ;; ret (to_schar b).

(** [ADDR_BYTES_LEFT(address)], a [size_t] difference. *)
Definition ADDR_BYTES_LEFT : Rd Z :=
  fun c => (size_wrap (_code_size - address c), c).

(** [ADDR_JUMP(address, offset)] *)
Definition ADDR_JUMP (offset : Z) : Rd unit :=
  fun c => (tt, mk_cursor (size_wrap (address c + offset)) (stray c)).

(** [ADDR_POINTER(address)] with a length: the bytes a string made by
    [t_str_new_const] shows.  Making the string dereferences nothing. *)
Definition ADDR_POINTER (len : Z) : Rd (list Z) :=
  fun c => (map (fun k => _code (address c + Z.of_nat k))
                (seq 0 (Z.to_nat len)), c).

(** [sieve_binary_read_byte] and [sieve_binary_read_code] test their
    out parameter against NULL before the store of the success path and
    store through it without a test on the failure path.  The out
    parameter is [None] for a NULL pointer and [Some v] for a pointer
    to an object that holds [v]; the result is [None] when the function
    stores through the NULL pointer, and otherwise the returned [bool]
    with the out parameter as the function leaves it. *)

Definition sieve_binary_read_byte (byte_r : option Z)
    : Rd (option (bool * option Z)) :=
  left <- ADDR_BYTES_LEFT ;;
  if left >=? 1 then
    byte_r <- match byte_r with
              | Some _ => byte <- ADDR_DATA_AT ;; ret (Some byte)
              | None => ret None
              end ;;
    ADDR_JUMP 1 ;;;
    ret (Some (true, byte_r))
  else
    match byte_r with
    | Some _ => ret (Some (false, Some 0))
    | None => ret None
    end.

Definition sieve_binary_read_code (code_r : option Z)
    : Rd (option (bool * option Z)) :=
  left <- ADDR_BYTES_LEFT ;;
  if left >=? 1 then
    code_r <- match code_r with
              | Some _ => code <- ADDR_CODE_AT ;; ret (Some code)
              | None => ret None
              end ;;
    ADDR_JUMP 1 ;;;
    ret (Some (true, code_r))
  else
    match code_r with
    | Some _ => ret (Some (false, Some 0))
    | None => ret None
    end.

(** The functions below return the [bool] of the C function paired
    with what it leaves in its out parameter, which every caller in
    the sources passes non-NULL. *)

(** One turn of [for (i = 0; i < 4; i++)] in [sieve_binary_read_offset]. *)
Definition read_offset_step (offs : Z) : Rd Z :=
  b <- ADDR_DATA_AT ;;
  ADDR_JUMP 1 ;;;
  ret (to_uint (Z.shiftl offs 8 + b)).

(** [None]: returned FALSE, [*offset_r] untouched. *)
Definition sieve_binary_read_offset : Rd (option Z) :=
  left <- ADDR_BYTES_LEFT ;;
  if left >=? 4 then
    offs <- read_offset_step 0 ;;
    offs <- read_offset_step offs ;;
    offs <- read_offset_step offs ;;
    offs <- read_offset_step offs ;;
    ret (Some (to_int offs))
  else ret None.

(** The [while] loop of [sieve_binary_read_integer] together with the
    statements after it.  [bits] loses 7 in every turn and a turn needs
    [bits > 0], so the loop is over after at most [bits] turns;
    [fuel] counts the turns still allowed and [None] says they ran out. *)
Fixpoint read_integer_while (fuel : nat) (bits int_r : Z)
    : Rd (option (bool * Z)) :=
  b <- ADDR_DATA_AT ;;
  if Z.land b 0x80 >? 0 then
    left <- ADDR_BYTES_LEFT ;;
    if (left >? 0) && (bits >? 0) then
      b <- ADDR_DATA_AT ;;
      let int_r := Z.lor int_r (Z.land b 0x7F) in
      ADDR_JUMP 1 ;;;
      let int_r := number_wrap (Z.shiftl int_r 7) in
      let bits := bits - 7 in
      match fuel with
      | O => ret None
      | S fuel' => read_integer_while fuel' bits int_r
      end
    else ret (Some (false, int_r))
  else
    b <- ADDR_DATA_AT ;;
    let int_r := Z.lor int_r (Z.land b 0x7F) in
    ADDR_JUMP 1 ;;;
    ret (Some (true, int_r)).

Definition sieve_binary_read_integer : Rd (bool * Z) :=
  let bits := NUMBER_BITS in
  left <- ADDR_BYTES_LEFT ;;
  if left =? 0 then ret (false, 0)
  else
    r <- read_integer_while (Z.to_nat bits) bits 0 ;;
    match r with
    | Some r => ret r
    | None => ret (false, 0)
    end.

(** Modelled from the spec: [sieve_binary_read_unsigned] is declared in
    sieve-binary.h, which is not among the sources; the spec has
    [read_string] do "first read_integer for length", and the length is
    stored in the [unsigned int strlen] of the caller. *)
Definition sieve_binary_read_unsigned : Rd (bool * Z) :=
  r <- sieve_binary_read_integer ;;
  let (ok, integer) := r in
  if ok then ret (true, to_uint integer) else ret (false, 0).

(** [None]: returned FALSE. *)
Definition sieve_binary_read_string : Rd (option (list Z)) :=
  r <- sieve_binary_read_unsigned ;;
  let (ok, strlen) := r in
  if negb ok then ret None
  else
    left <- ADDR_BYTES_LEFT ;;
    if strlen >? left then ret None
    else
      str_r <- ADDR_POINTER strlen ;;
      ADDR_JUMP strlen ;;;
      c <- ADDR_CODE_AT ;;
      if negb (c =? 0) then ret None
      else
        ADDR_JUMP 1 ;;;
        ret (Some str_r).

(** Modelled from the spec: [sieve_binary_extension_get_by_index] is
    defined in sieve-binary.c, which is not among the sources; the spec
    describes the Extension Index Table as an insertion-ordered mapping
    with dense indices that resolves an index back to its identity,
    a miss being an index not registered in this binary. *)
Definition sieve_binary_extension_get_by_index
    (index : Z) : option sieve_extension :=
  if index <? 0 then None
  else nth_error (sbin_extensions sblock) (Z.to_nat index).

(** The result is the returned [bool], [*offset_r] and [*ext_r] as the
    function leaves them; [ext_r0] is what [*ext_r] held before. *)
Definition sieve_binary_read_extension
    (offset_r : Z) (ext_r0 : option sieve_extension)
    : Rd (bool * Z * option sieve_extension) :=
  let offset := offset_r in
  left <- ADDR_BYTES_LEFT ;;
  if left <=? 0 then ret (false, offset_r, ext_r0)
  else
    code <- ADDR_DATA_AT ;;
    ADDR_JUMP 1 ;;;
    if code >=? offset then
      match sieve_binary_extension_get_by_index (to_uint (code - offset)) with
      | None => ret (false, code, ext_r0)
      | Some ext => ret (true, code, Some ext)
      end
    else ret (true, code, None).

(** [objs] is the object table, [objs->count] its length; the result
    is the returned pointer, [None] for NULL. *)
Definition sieve_binary_read_extension_object
    {O : Type} (objs : list O) : Rd (option O) :=
  let count := Z.of_nat (length objs) in
  if count =? 0 then ret None
  else if count =? 1 then ret (nth_error objs 0)
  else
    left <- ADDR_BYTES_LEFT ;;
    if left <=? 0 then ret None
    else
      code <- ADDR_DATA_AT ;;
      ADDR_JUMP 1 ;;;
      if code >=? count then ret None
      else ret (nth_error objs (Z.to_nat code)).

End Retrieval.

(** *** Interpreter (sieve-interpreter.c) *)

(** The message a script runs against is opaque to the engine. *)
Variable sieve_message_data : Type.

(** A side effect collected from the optional operands of an action. *)
Variable sieve_side_effect : Type.

(** Modelled from the spec: the Result collaborator (sieve-result.c is
    not among the sources) has one entry point of interest, "record an
    action with an optional list of side effects and a source line",
    and its return value means success or failure only.  A result is
    modelled by the calls of that entry point it has received, oldest
    first. *)
Record keep_call := mk_keep_call {
  call_slist : list sieve_side_effect;
  call_source_line : Z
}.

Definition sieve_result : Type := list keep_call.

(** The status with which the collaborator answers a call. *)
Variable result_status : sieve_result -> keep_call -> Z.

(** [struct sieve_interpreter], without the pool and the extension
    contexts.  [oprtn_address] is [runenv.oprtn.address], which
    cmd-keep.c reads.  [derefs] collects the dereferences outside the
    code that reads through [&interp->pc] made.  The binary is a
    parameter below: it is committed before the interpreter runs and
    never written. *)
Record sieve_interpreter := mk_interp {
  pc : Z;
  stopped : bool;
  test_result : bool;
  runenv_msgdata : option sieve_message_data;
  runenv_result : option sieve_result;
  oprtn_address : Z;
  derefs : list Z
}.

Definition set_pc (interp : sieve_interpreter) (v : Z) :=
  mk_interp v (stopped interp) (test_result interp) (runenv_msgdata interp)
            (runenv_result interp) (oprtn_address interp) (derefs interp).

Definition set_env (interp : sieve_interpreter)
    (m : option sieve_message_data) (r : option sieve_result) :=
  mk_interp (pc interp) (stopped interp) (test_result interp) m r
            (oprtn_address interp) (derefs interp).

(** A hook of an operation: it is handed the runtime environment and
    [&interp->pc], and answers with a [bool]. *)
Definition hook : Type := sieve_interpreter -> bool * sieve_interpreter.

(** The members of an operation object that the interpreter uses; each
    of the three may be NULL. *)
Record sieve_operation_def := mk_operation {
  mnemonic : option String.string;
  code : Z;
  dump : option hook;
  execute : option hook
}.

Section Interpreter.

(** [interp->runenv.sbin] *)
Variable sbin : sieve_binary_block.

(** The registry of operations, by opcode tag. *)
Variable sieve_operations : Z -> option sieve_operation_def.

Definition sieve_binary_get_code_size : Z := _code_size sbin.

(** A retrieval function applied to [&interp->pc]. *)
Definition at_pc {A} (m : Rd A) : sieve_interpreter -> A * sieve_interpreter :=
  fun interp =>
    let (a, c) := m (mk_cursor (pc interp) (derefs interp)) in
    (a, mk_interp (address c) (stopped interp) (test_result interp)
                  (runenv_msgdata interp) (runenv_result interp)
                  (oprtn_address interp) (stray c)).

Definition sieve_interpreter_reset (interp : sieve_interpreter) :=
  mk_interp 0 false false None None (oprtn_address interp) (derefs interp).

Definition sieve_interpreter_stop (interp : sieve_interpreter) :=
  mk_interp (pc interp) true (test_result interp) (runenv_msgdata interp)
            (runenv_result interp) (oprtn_address interp) (derefs interp).

Definition sieve_interpreter_program_counter (interp : sieve_interpreter) : Z :=
  pc interp.

Definition sieve_interpreter_read_offset_operand
    : sieve_interpreter -> option Z * sieve_interpreter :=
  at_pc (sieve_binary_read_offset sbin).

(** [pc + offset] is computed in [sieve_size_t], to which the [int]
    is converted. *)
Definition sieve_interpreter_program_jump
    (interp : sieve_interpreter) (jump : bool) : bool * sieve_interpreter :=
  let pc0 := pc interp in
  let (r, interp) := sieve_interpreter_read_offset_operand interp in
  match r with
  | None => (false, interp)
  | Some offset =>
      if (size_wrap (pc0 + offset) <=? sieve_binary_get_code_size)
         && (size_wrap (pc0 + offset) >? 0)
      then (true, if jump then set_pc interp (size_wrap (pc0 + offset))
                  else interp)
      else (false, interp)
  end.

(** Modelled from the spec: [sieve_operation_read] is defined in
    sieve-code.c, which is not among the sources.  The spec has the
    loop "fetch one opcode tag via the Reader at pc (this advances pc
    past the tag)", with [read_code] the primitive "used for opcode
    tags", and no opcode resolved on an "unknown/garbage tag, or a read
    failure".  The tag is read into a local variable of the function. *)
Definition sieve_operation_read
    (interp : sieve_interpreter)
    : option sieve_operation_def * sieve_interpreter :=
  let (r, interp) := at_pc (sieve_binary_read_code sbin (Some 0)) interp in
  match r with
  | Some (true, Some tag) => (sieve_operations tag, interp)
  | _ => (None, interp)
  end.

(** The text written with [printf] is left out. *)
Definition sieve_interpreter_dump_operation
    (interp : sieve_interpreter) : bool * sieve_interpreter :=
  let (opcode, interp) := sieve_operation_read interp in
  match opcode with
  | Some opcode =>
      match dump opcode with
      | Some d => d interp
      | None =>
          match mnemonic opcode with
          | Some _ => (true, interp)
          | None => (false, interp)
          end
      end
  | None => (false, interp)
  end.

(** The [while] loop of [sieve_interpreter_dump_code]; [None]: the loop
    is still going after [fuel] turns.  The [bool] tells a dump that
    reached the end of the code from one that found the binary
    corrupt. *)
Fixpoint dump_code_while (fuel : nat) (interp : sieve_interpreter)
    : option (bool * sieve_interpreter) :=
  match fuel with
  | O => None
  | S fuel' =>
      if pc interp <? sieve_binary_get_code_size then
        let (ok, interp) := sieve_interpreter_dump_operation interp in
        if ok then dump_code_while fuel' interp
        else Some (false, interp)
      else Some (true, interp)
  end.

Definition sieve_interpreter_dump_code
    (fuel : nat) (interp : sieve_interpreter) :=
  let interp := sieve_interpreter_reset interp in
  let interp := set_env interp None None in
  dump_code_while fuel interp.

Definition sieve_interpreter_execute_operation
    (interp : sieve_interpreter) : bool * sieve_interpreter :=
  let (opcode, interp) := sieve_operation_read interp in
  match opcode with
  | Some opcode =>
      match execute opcode with
      | Some e => e interp
      | None => (false, interp)
      end
  | None => (false, interp)
  end.

(** The condition of the [while] loop of [sieve_interpreter_run]. *)
Definition run_continues (interp : sieve_interpreter) : bool :=
  negb (stopped interp) && (pc interp <? sieve_binary_get_code_size).

(** The [while] loop of [sieve_interpreter_run]; a script may jump
    backwards for ever, so the turns are counted: [None] says the loop
    is still going after [fuel] turns.  [Some (false, _)] is the
    [return FALSE] inside the loop, [Some (true, _)] the loop left
    through its condition. *)
Fixpoint run_while (fuel : nat) (interp : sieve_interpreter)
    : option (bool * sieve_interpreter) :=
  match fuel with
  | O => None
  | S fuel' =>
      if run_continues interp then
        let (ok, interp) := sieve_interpreter_execute_operation interp in
        if ok then run_while fuel' interp
        else Some (false, interp)
      else Some (true, interp)
  end.

(** The program counter invariant, as a property of the execute hooks
    of the registered operations. *)
Definition hooks_keep_pc_in_code : Prop :=
  forall tag op e interp,
    sieve_operations tag = Some op ->
    execute op = Some e ->
    0 <= pc interp <= sieve_binary_get_code_size ->
    0 <= pc (snd (e interp)) <= sieve_binary_get_code_size.

(** [run_turns n interp interp']: [n] turns of that loop, each entered
    with the condition true and with its operation answering TRUE,
    lead from [interp] to [interp']. *)
Inductive run_turns : nat -> sieve_interpreter -> sieve_interpreter -> Prop :=
| run_turns_O interp : run_turns O interp interp
| run_turns_S n interp interp1 interp' :
    run_continues interp = true ->
    sieve_interpreter_execute_operation interp = (true, interp1) ->
    run_turns n interp1 interp' ->
    run_turns (S n) interp interp'.

(** [sieve_interpreter_run]: the returned [bool], the interpreter, and
    the result object of the caller as the run leaves it.  The
    reference counting of the result and the text written with
    [printf] are left out. *)
Definition sieve_interpreter_run
    (fuel : nat) (interp : sieve_interpreter)
    (msgdata : sieve_message_data) (result : sieve_result)
    : option (bool * sieve_interpreter * option sieve_result) :=
  let interp := sieve_interpreter_reset interp in
  let interp := set_env interp (Some msgdata) (Some result) in
  match run_while fuel interp with
  | None => None
  | Some (false, interp) => Some (false, interp, runenv_result interp)
  | Some (true, interp) =>
      Some (true, set_env interp None None, runenv_result interp)
  end.

(** *** Two small operations, for the statements on concrete code *)

(** An execute hook that decodes one string operand and nothing else. *)
Definition decode_string_operand : hook :=
  fun interp =>
    let (r, interp) := at_pc (sieve_binary_read_string sbin) interp in
    (match r with Some _ => true | None => false end, interp).

(** An operation whose execute hook stops the script. *)
Definition stop_operation : sieve_operation_def :=
  mk_operation None 1 None
    (Some (fun interp => (true, sieve_interpreter_stop interp))).

(** *** The keep operation (cmd-keep.c) *)

(** [sieve_runtime_get_source_location]: the line recorded at compile
    time for the code at an address; it reads the debug block of the
    binary and is not among the sources. *)
Variable sieve_runtime_get_source_location : Z -> Z.

(** Modelled from the spec: [sieve_interpreter_handle_optional_operands]
    belongs to a later revision of sieve-interpreter.c than the one
    among the sources.  The spec calls it the helper that "consumes
    optional operands, collecting side effects"; it answers with a
    status that is positive on success, and the list. *)
Variable sieve_interpreter_handle_optional_operands :
  sieve_interpreter -> Z * list sieve_side_effect * sieve_interpreter.

(** Modelled from the spec: [sieve_result_add_keep] hands the action to
    the Result collaborator bound to the run, which records the call
    and answers with its status; without a result bound there is
    nobody to record it. *)
Definition sieve_result_add_keep
    (interp : sieve_interpreter) (slist : list sieve_side_effect)
    (source_line : Z) : Z * sieve_interpreter :=
  match runenv_result interp with
  | Some result =>
      let call := mk_keep_call slist source_line in
      (result_status result call,
       set_env interp (runenv_msgdata interp) (Some (result ++ [call])))
  | None => (-1, interp)
  end.

(** [cmd_keep_operation_execute]; it returns an [int].  The line of
    [sieve_runtime_trace] is left out. *)
Definition cmd_keep_operation_execute
    (interp : sieve_interpreter) : Z * sieve_interpreter :=
  let source_line :=
    sieve_runtime_get_source_location (oprtn_address interp) in
  let '(ret, slist, interp) :=
    sieve_interpreter_handle_optional_operands interp in
  if ret <=? 0 then (ret, interp)
  else
    let (ret, interp) := sieve_result_add_keep interp slist source_line in
    (if ret >=? 0 then 1 else 0, interp).

(** The interpreter takes the answer of a hook as a [bool]. *)
Definition as_bool (h : sieve_interpreter -> Z * sieve_interpreter) : hook :=
  fun interp => let (ret, interp) := h interp in (negb (ret =? 0), interp).

Variable SIEVE_OPERATION_KEEP : Z.

(** The dump hook of keep prints the optional operands with a function
    of the code dumper. *)
Variable sieve_code_dumper_print_optional_operands : hook.

Definition cmd_keep_operation_dump : hook :=
  sieve_code_dumper_print_optional_operands.

Definition cmd_keep_operation : sieve_operation_def :=
  mk_operation (Some "KEEP"%string) SIEVE_OPERATION_KEEP
               (Some cmd_keep_operation_dump)
               (Some (as_bool cmd_keep_operation_execute)).

End Interpreter.

(** *** Extension contexts (sieve-interpreter.c) *)

(** [ARRAY_DEFINE(ext_contexts, void * )]: the array of context
    pointers of an interpreter, [None] for NULL.  No other function of
    the file reads or writes it after [sieve_interpreter_create] has
    made it empty. *)

(** [array_idx_set] of Dovecot's array.h: the element is stored at
    [idx]; an array that is too short first grows up to [idx], the new
    elements zeroed. *)
Definition array_idx_set {context : Type}
    (array : list (option context)) (idx : Z) (element : option context)
    : list (option context) :=
  let n := Z.to_nat idx in
  if idx <? Z.of_nat (length array)
  then firstn n array ++ element :: skipn (S n) array
  else array ++ repeat None (n - length array) ++ [element].

(** [array_count], an [unsigned int]. *)
Definition array_count {context : Type} (array : list (option context)) : Z :=
  to_uint (Z.of_nat (length array)).

(** [array_idx], used within the bounds only. *)
Definition array_idx {context : Type}
    (array : list (option context)) (idx : Z) : option context :=
  nth (Z.to_nat idx) array None.

Definition sieve_interpreter_extension_set_context {context : Type}
    (ext_contexts : list (option context)) (ext_id : Z)
    (ctx : option context) : list (option context) :=
  array_idx_set ext_contexts (to_uint ext_id) ctx.

Definition sieve_interpreter_extension_get_context {context : Type}
    (ext_contexts : list (option context)) (ext_id : Z) : option context :=
  if (ext_id <? 0) || (ext_id >=? to_int (array_count ext_contexts))
  then None
  else array_idx ext_contexts (to_uint ext_id).

(** *** Auxiliary definitions for the statements about integers *)

(** The byte of a group that is not the last: [buffer[i] |= 0x80]. *)
Definition marked (x : Z) : Z := Z.lor x 0x80.

(** The 7-bit groups of [v] in the order [emit_integer_while] stores them
    from the end of its array towards the front, read front to back:
    most significant first, none for 0.  [n] bounds their number. *)
Fixpoint groups (n : nat) (v : Z) : list Z :=
  match n with
  | O => []
  | S n' =>
      if v >? 0 then groups n' (Z.shiftr v 7) ++ [Z.land v 0x7F] else []
  end.

(** Base-128 value of a list of groups, most significant first, on top
    of the value [a] of the groups before them. *)
Definition groups_value (a : Z) (g : list Z) : Z :=
  fold_left (fun a x => a * 128 + x) g a.

(** What [sieve_binary_emit_integer] appends for [v]. *)
Definition emitted_integer (v : Z) : list Z :=
  map marked (groups (Z.to_nat (NUMBER_BYTES + 1)) (Z.shiftr v 7))
    ++ [Z.land v 0x7F].

(** ** Properties *)

Lemma size_wrap_small x : 0 <= x < 2 ^ SIZE_BITS -> size_wrap x = x.
Proof. intros H. unfold size_wrap. apply Z.mod_small. exact H. Qed.

Lemma bind_at {A B} (m : Rd A) (k : A -> Rd B) c :
  bind m k c = k (fst (m c)) (snd (m c)).
Proof. unfold bind. destruct (m c). reflexivity. Qed.

Lemma ret_at {A} (a : A) c : ret a c = (a, c).
Proof. reflexivity. Qed.

Section RetrievalFacts.

Variable sblock : sieve_binary_block.

Lemma in_code_true i : 0 <= i < _code_size sblock -> in_code sblock i = true.
Proof.
  intros H. unfold in_code.
  apply andb_true_intro; split; [apply Z.leb_le | apply Z.ltb_lt]; lia.
Qed.

Lemma deref_inside c :
  0 <= address c < _code_size sblock ->
  deref sblock c = (to_uchar (nth (Z.to_nat (address c)) (data sblock) 0), c).
Proof.
  intros H. unfold deref, _code. cbv zeta.
  rewrite (in_code_true _ H). reflexivity.
Qed.

Lemma bytes_left_inside c :
  _code_size sblock < 2 ^ SIZE_BITS ->
  0 <= address c <= _code_size sblock ->
  ADDR_BYTES_LEFT sblock c = (_code_size sblock - address c, c).
Proof.
  intros Hs H. unfold ADDR_BYTES_LEFT.
  rewrite size_wrap_small by lia. reflexivity.
Qed.

Lemma jump_inside c n :
  _code_size sblock < 2 ^ SIZE_BITS ->
  0 <= address c + n <= _code_size sblock ->
  ADDR_JUMP n c = (tt, mk_cursor (address c + n) (stray c)).
Proof.
  intros Hs H. unfold ADDR_JUMP.
  rewrite size_wrap_small by lia. reflexivity.
Qed.

End RetrievalFacts.

(** *** Bytes and 7-bit groups *)

Lemma forall_bytes (P : Z -> bool) :
  forallb P (map Z.of_nat (seq 0 256)) = true ->
  forall b, 0 <= b < 256 -> P b = true.
Proof.
  intros H b Hb. rewrite forallb_forall in H. apply H.
  rewrite <- (Z2Nat.id b) by lia. apply in_map. apply in_seq. lia.
Qed.

Lemma continuation_bit b :
  0 <= b < 256 -> (Z.land b 0x80 >? 0) = (128 <=? b).
Proof.
  intros Hb.
  apply (forall_bytes (fun b => Bool.eqb (Z.land b 0x80 >? 0) (128 <=? b)))
    in Hb; [|vm_compute; reflexivity].
  apply eqb_prop in Hb. exact Hb.
Qed.

Lemma land_7F v : Z.land v 0x7F = v mod 128.
Proof. change 0x7F with (Z.ones 7). rewrite Z.land_ones by lia. reflexivity. Qed.

Lemma shiftr_7 v : Z.shiftr v 7 = v / 128.
Proof. rewrite Z.shiftr_div_pow2 by lia. reflexivity. Qed.

Lemma shiftl_7 v : Z.shiftl v 7 = v * 128.
Proof. rewrite Z.shiftl_mul_pow2 by lia. reflexivity. Qed.

Lemma lor_group a x : 0 <= x < 128 -> Z.lor (a * 128) x = a * 128 + x.
Proof.
  intros Hx.
  assert (H0 : Z.land (a * 128) x = 0).
  { apply Z.bits_inj'. intros n Hn.
    rewrite Z.land_spec, Z.bits_0.
    destruct (Z.lt_ge_cases n 7) as [Hlt|Hge].
    - change 128 with (2 ^ 7). rewrite Z.mul_pow2_bits_low by lia. reflexivity.
    - rewrite <- (Z.mod_small x (2 ^ 7)) by (change (2 ^ 7) with 128; lia).
      rewrite Z.mod_pow2_bits_high by lia. apply andb_false_r. }
  pose proof (Z.add_lor_land (a * 128) x) as H. lia.
Qed.


Lemma marked_group x : 0 <= x < 128 -> marked x = x + 128.
Proof.
  intros Hx. unfold marked. rewrite Z.lor_comm.
  change 0x80 with (1 * 128). rewrite (lor_group 1 x Hx). lia.
Qed.



Lemma groups_range n v : Forall (fun x => 0 <= x < 128) (groups n v).
Proof.
  revert v. induction n as [|n IH]; intros v; simpl; [constructor|].
  destruct (v >? 0); [|constructor].
  apply Forall_app. split; [apply IH|].
  constructor; [|constructor].
  rewrite land_7F. apply Z.mod_pos_bound. lia.
Qed.

Lemma groups_value_app a g x :
  groups_value a (g ++ [x]) = groups_value a g * 128 + x.
Proof. unfold groups_value. rewrite fold_left_app. reflexivity. Qed.

Lemma groups_value_eq n v :
  0 <= v < 2 ^ (7 * Z.of_nat n) -> groups_value 0 (groups n v) = v.
Proof.
  revert v. induction n as [|n IH]; intros v Hv.
  - simpl in *. change (2 ^ (7 * 0)) with 1 in Hv. unfold groups_value. simpl. lia.
  - simpl groups. destruct (Z.gtb_spec v 0) as [Hpos|Hz].
    + rewrite groups_value_app, IH.
      * rewrite shiftr_7, land_7F. pose proof (Z.div_mod v 128). lia.
      * rewrite shiftr_7. split; [apply Z.div_pos; lia|].
        apply Z.div_lt_upper_bound; [lia|].
        replace (7 * Z.of_nat (S n)) with (7 + 7 * Z.of_nat n) in Hv by lia.
        rewrite Z.pow_add_r in Hv by lia. change (2 ^ 7) with 128 in Hv. lia.
    + unfold groups_value. simpl. lia.
Qed.

(** The number of groups is the least that can hold the value. *)
Lemma groups_length n v k :
  0 <= v < 2 ^ (7 * Z.of_nat k) -> (length (groups n v) <= k)%nat.
Proof.
  revert v k. induction n as [|n IH]; intros v k Hv; simpl; [lia|].
  destruct (Z.gtb_spec v 0) as [Hpos|Hz]; [|simpl; lia].
  rewrite length_app. simpl.
  destruct k as [|k].
  - change (2 ^ (7 * Z.of_nat 0)) with 1 in Hv. lia.
  - specialize (IH (Z.shiftr v 7) k).
    assert (length (groups n (Z.shiftr v 7)) <= k)%nat; [|lia].
    apply IH. rewrite shiftr_7. split; [apply Z.div_pos; lia|].
    apply Z.div_lt_upper_bound; [lia|].
    replace (7 * Z.of_nat (S k)) with (7 + 7 * Z.of_nat k) in Hv by lia.
    rewrite Z.pow_add_r in Hv by lia. change (2 ^ 7) with 128 in Hv. lia.
Qed.

Lemma groups_value_bound g :
  Forall (fun x => 0 <= x < 128) g ->
  forall a, 0 <= a ->
  a <= groups_value a g /\
  groups_value a g < (a + 1) * 2 ^ (7 * Z.of_nat (length g)).
Proof.
  induction 1 as [|x g Hx Hg IH]; intros a Ha.
  - unfold groups_value. simpl. change (2 ^ (7 * 0)) with 1. lia.
  - unfold groups_value in *. simpl fold_left.
    destruct (IH (a * 128 + x)) as [H1 H2]; [lia|].
    split; [lia|].
    replace (7 * Z.of_nat (length (x :: g))) with (7 + 7 * Z.of_nat (length g))
      by (simpl length; lia).
    rewrite Z.pow_add_r by lia. change (2 ^ 7) with 128.
    assert (0 < 2 ^ (7 * Z.of_nat (length g))) by (apply Z.pow_pos_nonneg; lia).
    nia.
Qed.
(** *** The writer of integers *)

Lemma array_store_at (pre : list Z) x post v :
  array_store (pre ++ x :: post) (Z.of_nat (length pre)) v
  = Some (pre ++ v :: post).
Proof.
  unfold array_store. rewrite length_app. simpl length.
  destruct (Z.leb_spec 0 (Z.of_nat (length pre))); [|lia].
  destruct (Z.ltb_spec (Z.of_nat (length pre))
              (Z.of_nat (length pre + S (length post)))); [|lia].
  cbn [andb]. rewrite Nat2Z.id.
  rewrite firstn_app, firstn_all, Nat.sub_diag, firstn_0, app_nil_r.
  replace (S (length pre)) with (length pre + 1)%nat by lia.
  rewrite skipn_app, skipn_all2 by lia.
  replace (length pre + 1 - length pre)%nat with 1%nat by lia.
  reflexivity.
Qed.

Lemma array_store_below (a : list Z) v : array_store a (-1) v = None.
Proof. reflexivity. Qed.

(** The loop writes the groups of [integer] just before [post] when
    they fit into [pre]. *)
Lemma emit_integer_while_fits n : forall pre post integer,
  0 <= integer < 2 ^ (7 * Z.of_nat n) ->
  (length (groups n integer) <= length pre)%nat ->
  emit_integer_while n (pre ++ post) (Z.of_nat (length pre) - 1) integer
  = Some (firstn (length pre - length (groups n integer)) pre
            ++ groups n integer ++ post,
          Z.of_nat (length pre) - Z.of_nat (length (groups n integer)) - 1).
Proof.
  induction n as [|n IH]; intros pre post v Hv Hfit.
  - change (2 ^ (7 * Z.of_nat 0)) with 1 in Hv.
    simpl. destruct (Z.gtb_spec v 0); [lia|].
    rewrite Nat.sub_0_r, firstn_all. f_equal. f_equal. lia.
  - simpl emit_integer_while. simpl groups in *.
    destruct (Z.gtb_spec v 0) as [Hpos|Hz].
    + rewrite length_app in Hfit. simpl length in Hfit.
      destruct (exists_last (l := pre)) as [pre' [x Hpre]].
      { intros ->. simpl in Hfit. lia. }
      subst pre. rewrite length_app in *. simpl length in *.
      rewrite <- app_assoc. simpl app.
      replace (Z.of_nat (length pre' + 1) - 1) with (Z.of_nat (length pre')) by lia.
      rewrite array_store_at.
      specialize (IH pre' (Z.land v 0x7F :: post) (Z.shiftr v 7)).
      rewrite IH.
      * f_equal. f_equal.
        -- rewrite length_app. simpl length.
           replace (length pre' + 1 - (length (groups n (Z.shiftr v 7)) + 1))%nat
             with (length pre' - length (groups n (Z.shiftr v 7)))%nat by lia.
           rewrite firstn_app.
           replace (length pre' - length (groups n (Z.shiftr v 7)) - length pre')%nat
             with 0%nat by lia.
           simpl. rewrite app_nil_r, <- !app_assoc. reflexivity.
        -- rewrite length_app. simpl length. lia.
      * rewrite shiftr_7. split; [apply Z.div_pos; lia|].
        apply Z.div_lt_upper_bound; [lia|].
        replace (7 * Z.of_nat (S n)) with (7 + 7 * Z.of_nat n) in Hv by lia.
        rewrite Z.pow_add_r in Hv by lia. change (2 ^ 7) with 128 in Hv. lia.
      * lia.
    + simpl. rewrite Nat.sub_0_r, firstn_all. f_equal. f_equal. lia.
Qed.

Lemma mark_continuation_marks g : forall n pre l,
  (length g <= n)%nat ->
  mark_continuation n (pre ++ g ++ [l]) (Z.of_nat (length pre))
  = pre ++ map marked g ++ [l].
Proof.
  induction g as [|x g IH]; intros n pre l Hn.
  - simpl. destruct n; simpl; [reflexivity|].
    rewrite length_app. simpl length.
    destruct (Z.ltb_spec (Z.of_nat (length pre))
                (Z.of_nat (length pre + 1) - 1)); [lia | reflexivity].
  - destruct n as [|n]; [simpl in Hn; lia|].
    simpl mark_continuation.
    rewrite !length_app. simpl length. rewrite length_app. simpl length.
    destruct (Z.ltb_spec (Z.of_nat (length pre))
                (Z.of_nat (length pre + S (length g + 1)) - 1)); [|lia].
    rewrite Nat2Z.id. simpl app.
    rewrite array_store_at.
    rewrite app_nth2, Nat.sub_diag by lia. simpl nth.
    replace (pre ++ Z.lor x 128 :: g ++ [l])
      with ((pre ++ [marked x]) ++ g ++ [l])
      by (rewrite <- app_assoc; reflexivity).
    replace (Z.of_nat (length pre) + 1) with (Z.of_nat (length (pre ++ [marked x])))
      by (rewrite length_app; simpl; lia).
    rewrite IH by (simpl in Hn; lia).
    rewrite <- app_assoc. reflexivity.
Qed.


Lemma emit_integer_emits sblock v :
  0 <= NUMBER_BYTES ->
  0 <= v < 2 ^ (7 * (NUMBER_BYTES + 1)) ->
  sieve_binary_emit_integer sblock v
  = Some (with_data sblock (data sblock ++ emitted_integer v),
          _sieve_binary_block_get_size sblock).
Proof.
  intros HW Hv.
  unfold sieve_binary_emit_integer.
  set (W := Z.to_nat NUMBER_BYTES).
  replace (Z.to_nat (NUMBER_BYTES + 1)) with (W + 1)%nat by (unfold W; lia).
  replace (NUMBER_BYTES + 1 - 1) with (Z.of_nat (length (repeat 0 W)))
    by (rewrite repeat_length; unfold W; lia).
  rewrite repeat_app. simpl (repeat 0 1).
  rewrite array_store_at.
  set (hi := Z.shiftr v 7).
  assert (Hhi : 0 <= hi < 2 ^ (7 * Z.of_nat W)).
  { unfold hi. rewrite shiftr_7. split; [apply Z.div_pos; lia|].
    apply Z.div_lt_upper_bound; [lia|].
    replace (7 * (NUMBER_BYTES + 1)) with (7 + 7 * Z.of_nat W) in Hv
      by (unfold W; lia).
    rewrite Z.pow_add_r in Hv by lia. change (2 ^ 7) with 128 in Hv. lia. }
  set (n := length (repeat 0 W ++ [Z.land v 127])).
  assert (Hn : n = (W + 1)%nat)
    by (unfold n; rewrite length_app, repeat_length; reflexivity).
  assert (Hlen : (length (groups n hi) <= W)%nat) by (apply groups_length; exact Hhi).
  assert (Hhi' : 0 <= hi < 2 ^ (7 * Z.of_nat n)).
  { split; [lia|]. eapply Z.lt_le_trans; [apply Hhi|].
    apply Z.pow_le_mono_r; lia. }
  rewrite emit_integer_while_fits
    by (try rewrite repeat_length; assumption).
  rewrite repeat_length.
  set (g := groups n hi) in *.
  set (pre := firstn (W - length g) (repeat 0 W)).
  assert (Hpre : length pre = (W - length g)%nat).
  { unfold pre. rewrite length_firstn, repeat_length. lia. }
  replace (Z.of_nat W - Z.of_nat (length g) - 1 + 1)
    with (Z.of_nat (length pre)) by lia.
  assert (Hbuf :
    (if NUMBER_BYTES + 1 - Z.of_nat (length pre) >? 1
     then mark_continuation (length (pre ++ g ++ [Z.land v 127]))
            (pre ++ g ++ [Z.land v 127]) (Z.of_nat (length pre))
     else pre ++ g ++ [Z.land v 127])
    = pre ++ map marked g ++ [Z.land v 127]).
  { destruct (Z.gtb_spec (NUMBER_BYTES + 1 - Z.of_nat (length pre)) 1) as [Hgt|Hle].
    - apply mark_continuation_marks. rewrite !length_app. lia.
    - assert (Hg0 : length g = 0%nat) by (unfold W in *; lia).
      destruct g; [reflexivity | discriminate]. }
  rewrite Hbuf, Nat2Z.id.
  rewrite skipn_app, skipn_all, Nat.sub_diag, skipn_0.
  unfold _sieve_binary_emit_data, buffer_append, emitted_integer.
  replace (Z.to_nat (NUMBER_BYTES + 1)) with n by (unfold W in *; lia).
  reflexivity.
Qed.
(** The loop stores below the array when the groups do not fit: the
    value still is positive when [pre] is full. *)
Lemma emit_integer_while_overflows n : forall pre post integer,
  2 ^ (7 * Z.of_nat (length pre)) <= integer ->
  (length pre < n)%nat ->
  emit_integer_while n (pre ++ post) (Z.of_nat (length pre) - 1) integer = None.
Proof.
  induction n as [|n IH]; intros pre post v Hv Hn; [lia|].
  assert (Hpos : 0 < 2 ^ (7 * Z.of_nat (length pre)))
    by (apply Z.pow_pos_nonneg; lia).
  simpl emit_integer_while.
  destruct (Z.gtb_spec v 0) as [_|Hz]; [|lia].
  destruct pre as [|y pre0] eqn:Hpre; [reflexivity|].
  destruct (exists_last (l := y :: pre0)) as [pre' [x Hlast]]; [discriminate|].
  rewrite Hlast in *. clear Hlast Hpre y pre0.
  rewrite length_app in *. simpl length in *.
  rewrite <- app_assoc. simpl app.
  replace (Z.of_nat (length pre' + 1) - 1) with (Z.of_nat (length pre')) by lia.
  rewrite array_store_at.
  apply (IH pre' (Z.land v 0x7F :: post)); [|lia].
  rewrite shiftr_7. apply Z.div_le_lower_bound; [lia|].
  replace (7 * Z.of_nat (length pre' + 1))
    with (7 + 7 * Z.of_nat (length pre')) in Hv by lia.
  rewrite Z.pow_add_r in Hv by lia. change (2 ^ 7) with 128 in Hv. lia.
Qed.

(** [sieve_binary_emit_integer] stores outside its scratch array exactly
    for the values of [7 * (sizeof(sieve_number_t) + 1)] bits and more. *)
Lemma emit_integer_overflows sblock v :
  0 <= NUMBER_BYTES ->
  2 ^ (7 * (NUMBER_BYTES + 1)) <= v ->
  sieve_binary_emit_integer sblock v = None.
Proof.
  intros HW Hv.
  unfold sieve_binary_emit_integer.
  set (W := Z.to_nat NUMBER_BYTES).
  replace (Z.to_nat (NUMBER_BYTES + 1)) with (W + 1)%nat by (unfold W; lia).
  replace (NUMBER_BYTES + 1 - 1) with (Z.of_nat (length (repeat 0 W)))
    by (rewrite repeat_length; unfold W; lia).
  rewrite repeat_app. simpl (repeat 0 1).
  rewrite array_store_at.
  rewrite emit_integer_while_overflows; [reflexivity | |].
  - rewrite repeat_length, shiftr_7. apply Z.div_le_lower_bound; [lia|].
    replace (7 * (NUMBER_BYTES + 1)) with (7 + 7 * Z.of_nat W) in Hv
      by (unfold W; lia).
    rewrite Z.pow_add_r in Hv by lia. change (2 ^ 7) with 128 in Hv. lia.
  - rewrite length_app, repeat_length. simpl. lia.
Qed.

(** *** The reader of integers *)

Lemma read_integer_while_eq sblock fuel bits int_r :
  read_integer_while sblock fuel bits int_r
  = (b <- ADDR_DATA_AT sblock ;;
     if Z.land b 0x80 >? 0 then
       left <- ADDR_BYTES_LEFT sblock ;;
       if (left >? 0) && (bits >? 0) then
         b <- ADDR_DATA_AT sblock ;;
         let int_r := Z.lor int_r (Z.land b 0x7F) in
         ADDR_JUMP 1 ;;;
         let int_r := number_wrap (Z.shiftl int_r 7) in
         let bits := bits - 7 in
         match fuel with
         | O => ret None
         | S fuel' => read_integer_while sblock fuel' bits int_r
         end
       else ret (Some (false, int_r))
     else
       b <- ADDR_DATA_AT sblock ;;
       let int_r := Z.lor int_r (Z.land b 0x7F) in
       ADDR_JUMP 1 ;;;
       ret (Some (true, int_r))).
Proof. destruct fuel; reflexivity. Qed.

Lemma nth_middle_Z (pre : list Z) y rest :
  nth (Z.to_nat (Z.of_nat (length pre))) (pre ++ y :: rest) 0 = y.
Proof. rewrite Nat2Z.id, app_nth2, Nat.sub_diag by lia. reflexivity. Qed.

Lemma read_integer_while_groups sblock l post :
  _code_size sblock < 2 ^ SIZE_BITS ->
  0 <= l < 128 ->
  forall g pre fuel bits a c,
    data sblock = pre ++ map marked g ++ l :: post ->
    address c = Z.of_nat (length pre) ->
    Forall (fun x => 0 <= x < 128) g ->
    0 <= a ->
    groups_value a g * 128 + l < 2 ^ NUMBER_BITS ->
    7 * Z.of_nat (length g) < bits + 7 ->
    (length g <= fuel)%nat ->
    read_integer_while sblock fuel bits (a * 128) c
    = (Some (true, groups_value a g * 128 + l),
       mk_cursor (address c + Z.of_nat (length g) + 1) (stray c)).
Proof.
  intros Hsize Hl.
  induction g as [|x g IH]; intros pre fuel bits a c Hdata Hc Hg Ha Hval Hbits Hfuel.
  - simpl in Hdata.
    assert (Hlen : Z.of_nat (length pre) < _code_size sblock).
    { unfold _code_size. rewrite Hdata, length_app. simpl length. lia. }
    rewrite read_integer_while_eq. unfold ADDR_DATA_AT.
    rewrite bind_at, deref_inside by lia. cbn [fst snd].
    rewrite Hc, Hdata, nth_middle_Z.
    assert (Hb : to_uchar l = l) by (unfold to_uchar; apply Z.mod_small; lia).
    rewrite Hb, continuation_bit by lia.
    destruct (Z.leb_spec 128 l); [lia|].
    rewrite bind_at, deref_inside by lia. cbn [fst snd].
    rewrite Hc, Hdata, nth_middle_Z, Hb.
    rewrite bind_at, (jump_inside sblock) by lia. cbn [fst snd].
    unfold ret. rewrite land_7F, Z.mod_small, lor_group by lia.
    unfold groups_value. simpl. rewrite Hc. do 2 f_equal. lia.
  - simpl in Hdata. inversion Hg as [|? ? Hx Hg']; subst.
    assert (Hlen : Z.of_nat (length pre) + 1 < _code_size sblock).
    { unfold _code_size. rewrite Hdata, length_app. simpl length.
      rewrite length_app. simpl length. lia. }
    assert (Hb : to_uchar (marked x) = x + 128).
    { rewrite marked_group by lia. unfold to_uchar. apply Z.mod_small. lia. }
    pose proof (groups_value_bound g Hg' (a * 128 + x)) as Hgv.
    assert (Hstep : groups_value a (x :: g) = groups_value (a * 128 + x) g)
      by reflexivity.
    rewrite Hstep in *.
    destruct Hgv as [Hgv _]; [lia|].
    rewrite read_integer_while_eq. unfold ADDR_DATA_AT.
    rewrite bind_at, deref_inside by lia. cbn [fst snd].
    rewrite Hc, Hdata, nth_middle_Z, Hb, continuation_bit by lia.
    destruct (Z.leb_spec 128 (x + 128)); [|lia].
    rewrite bind_at, bytes_left_inside by lia. cbn [fst snd].
    simpl length in Hbits.
    destruct (Z.gtb_spec (_code_size sblock - address c) 0); [|lia].
    destruct (Z.gtb_spec bits 0); [|lia].
    cbn [andb].
    rewrite bind_at, deref_inside by lia. cbn [fst snd].
    rewrite Hc, Hdata, nth_middle_Z, Hb.
    rewrite bind_at, (jump_inside sblock) by lia. cbn [fst snd]. cbv zeta.
    rewrite land_7F.
    replace ((x + 128) mod 128) with x
      by (rewrite <- Z.add_mod_idemp_r, Z.mod_same, Z.add_0_r, Z.mod_small; lia).
    rewrite lor_group, shiftl_7 by lia.
    unfold number_wrap. rewrite Z.mod_small by lia.
    destruct fuel as [|fuel]; [simpl in Hfuel; lia|].
    rewrite (IH (pre ++ [marked x]) fuel (bits - 7) (a * 128 + x)).
    + cbn [address stray]. simpl length. do 2 f_equal. lia.
    + rewrite <- app_assoc. exact Hdata.
    + cbn [address]. rewrite length_app. simpl length. lia.
    + exact Hg'.
    + lia.
    + exact Hval.
    + lia.
    + simpl in Hfuel. lia.
Qed.
Lemma high_groups_bound v k :
  0 <= v < 2 ^ (7 * (Z.of_nat k + 1)) ->
  0 <= Z.shiftr v 7 < 2 ^ (7 * Z.of_nat k).
Proof.
  intros Hv. rewrite shiftr_7. split; [apply Z.div_pos; lia|].
  apply Z.div_lt_upper_bound; [lia|].
  replace (7 * (Z.of_nat k + 1)) with (7 + 7 * Z.of_nat k) in Hv by lia.
  rewrite Z.pow_add_r in Hv by lia. change (2 ^ 7) with 128 in Hv. lia.
Qed.

Lemma emitted_integer_length v :
  length (emitted_integer v)
  = S (length (groups (Z.to_nat (NUMBER_BYTES + 1)) (Z.shiftr v 7))).
Proof. unfold emitted_integer. rewrite length_app, length_map. simpl. lia. Qed.

Lemma read_integer_emitted sblock pre post v c :
  data sblock = pre ++ emitted_integer v ++ post ->
  _code_size sblock < 2 ^ SIZE_BITS ->
  address c = Z.of_nat (length pre) ->
  0 <= v < 2 ^ NUMBER_BITS ->
  v < 2 ^ (7 * (NUMBER_BYTES + 1)) ->
  sieve_binary_read_integer sblock c
  = (true, v,
     mk_cursor (address c + Z.of_nat (length (emitted_integer v))) (stray c)).
Proof.
  intros Hdata Hsize Hc Hv Hfit.
  assert (HW : 0 <= NUMBER_BYTES).
  { destruct (Z.lt_ge_cases NUMBER_BYTES 0); [|lia].
    unfold NUMBER_BITS in Hv. rewrite Z.pow_neg_r in Hv by lia. lia. }
  set (n := Z.to_nat (NUMBER_BYTES + 1)) in *.
  set (hi := Z.shiftr v 7).
  set (g := groups n hi).
  set (l := Z.land v 0x7F).
  assert (Hl : l = v mod 128) by apply land_7F.
  assert (Hhi : hi = v / 128) by apply shiftr_7.
  assert (Hhi_n : 0 <= hi < 2 ^ (7 * Z.of_nat n)).
  { assert (0 <= hi < 2 ^ (7 * Z.of_nat (Z.to_nat NUMBER_BYTES))).
    { apply high_groups_bound. rewrite Z2Nat.id by lia. lia. }
    split; [lia|]. eapply Z.lt_le_trans; [apply H|].
    apply Z.pow_le_mono_r; unfold n; lia. }
  assert (Hgv : groups_value 0 g * 128 + l = v).
  { unfold g. rewrite groups_value_eq by exact Hhi_n.
    pose proof (Z.div_mod v 128). lia. }
  assert (Hglen : 7 * Z.of_nat (length g) < NUMBER_BITS + 7).
  { unfold NUMBER_BITS.
    assert (length g <= Z.to_nat (8 * NUMBER_BYTES / 7))%nat; [|
      pose proof (Z.mul_div_le (8 * NUMBER_BYTES) 7);
      assert (0 <= 8 * NUMBER_BYTES / 7) by (apply Z.div_pos; lia); lia].
    apply groups_length.
    rewrite Z2Nat.id by (apply Z.div_pos; lia).
    split; [lia|].
    destruct (Z.eq_dec NUMBER_BYTES 0) as [H0|Hn0].
    - assert (Hv0 : v = 0)
        by (unfold NUMBER_BITS in Hv; rewrite H0 in Hv; simpl in Hv; lia).
      rewrite Hhi, Hv0, H0. reflexivity.
    - rewrite Hhi. apply Z.div_lt_upper_bound; [lia|].
      eapply Z.lt_le_trans; [apply Hv|]. unfold NUMBER_BITS.
      change 128 with (2 ^ 7). rewrite <- Z.pow_add_r.
      + apply Z.pow_le_mono_r; [lia|].
        pose proof (Z.mod_pos_bound (8 * NUMBER_BYTES) 7).
        pose proof (Z.div_mod (8 * NUMBER_BYTES) 7). lia.
      + lia.
      + apply Z.mul_nonneg_nonneg; [lia | apply Z.div_pos; lia]. }
  assert (Hdata' : data sblock = pre ++ map marked g ++ l :: post).
  { rewrite Hdata. unfold emitted_integer. rewrite <- app_assoc. reflexivity. }
  assert (Hlen : Z.of_nat (length pre) < _code_size sblock).
  { unfold _code_size. rewrite Hdata', !length_app. simpl length. lia. }
  assert (Hl128 : 0 <= l < 128) by (rewrite Hl; apply Z.mod_pos_bound; lia).
  assert (Hrun : read_integer_while sblock (Z.to_nat NUMBER_BITS) NUMBER_BITS 0 c
                 = (Some (true, v),
                    mk_cursor (address c + Z.of_nat (length g) + 1) (stray c))).
  { change 0 with (0 * 128) at 1.
    rewrite (read_integer_while_groups sblock l post Hsize Hl128 g pre);
      try assumption; try lia;
      try (rewrite Hgv; first [reflexivity | lia]);
      try apply groups_range;
      try (unfold NUMBER_BITS in *; lia). }
  unfold sieve_binary_read_integer. cbv zeta.
  rewrite bind_at, bytes_left_inside by lia. cbn [fst snd].
  destruct (Z.eqb_spec (_code_size sblock - address c) 0); [lia|].
  rewrite bind_at, Hrun. cbn [fst snd]. unfold ret.
  rewrite emitted_integer_length. fold n hi g. do 2 f_equal. lia.
Qed.
(** X23.  For every value [v] of [sieve_number_t] whose 7-bit groups fit
    the scratch array of [sizeof(sieve_number_t) + 1] bytes (every value
    does when the type has at most seven bytes),
    [sieve_binary_emit_integer] appends bytes that are the 7-bit groups
    of [v], most significant first, each but the last with bit 0x80 set,
    in the least number of groups that can hold [v]; and
    [sieve_binary_read_integer], started at the address that was
    returned, succeeds with exactly [v] and stops right after them,
    without a dereference outside the code. *)
Theorem emit_integer_read_integer (sblock : sieve_binary_block) (v : Z) :
  0 <= v < 2 ^ NUMBER_BITS ->
  v < 2 ^ (7 * (NUMBER_BYTES + 1)) ->
  exists (gs : list Z) (l : Z),
    let bytes := map (fun x => Z.lor x 0x80) gs ++ [l] in
    let address := _sieve_binary_block_get_size sblock in
    sieve_binary_emit_integer sblock v
      = Some (with_data sblock (data sblock ++ bytes), address)
    /\ Forall (fun x => 0 <= x < 128) gs
    /\ 0 <= l < 128
    /\ groups_value 0 (gs ++ [l]) = v
    /\ (forall k : nat,
          (1 <= k)%nat -> v < 2 ^ (7 * Z.of_nat k) -> (length bytes <= k)%nat)
    /\ forall post stray0,
         Z.of_nat (length (data sblock ++ bytes ++ post)) < 2 ^ SIZE_BITS ->
         sieve_binary_read_integer
           (with_data sblock (data sblock ++ bytes ++ post))
           (mk_cursor address stray0)
         = (true, v, mk_cursor (address + Z.of_nat (length bytes)) stray0).
Proof.
  intros Hv Hfit.
  assert (HW : 0 <= NUMBER_BYTES).
  { destruct (Z.lt_ge_cases NUMBER_BYTES 0); [|lia].
    unfold NUMBER_BITS in Hv. rewrite Z.pow_neg_r in Hv by lia. lia. }
  set (n := Z.to_nat (NUMBER_BYTES + 1)).
  exists (groups n (Z.shiftr v 7)), (Z.land v 0x7F).
  cbv zeta.
  change (map (fun x => Z.lor x 128) (groups n (Z.shiftr v 7)) ++ [Z.land v 127])
    with (emitted_integer v).
  assert (Hhi : 0 <= Z.shiftr v 7 < 2 ^ (7 * Z.of_nat n)).
  { assert (0 <= Z.shiftr v 7 < 2 ^ (7 * Z.of_nat (Z.to_nat NUMBER_BYTES))).
    { apply high_groups_bound. rewrite Z2Nat.id by lia. lia. }
    split; [lia|]. eapply Z.lt_le_trans; [apply H|].
    apply Z.pow_le_mono_r; unfold n; lia. }
  repeat split.
  - apply emit_integer_emits; lia.
  - apply groups_range.
  - rewrite land_7F. apply Z.mod_pos_bound. lia.
  - rewrite land_7F. apply Z.mod_pos_bound. lia.
  - rewrite groups_value_app, groups_value_eq by exact Hhi.
    rewrite shiftr_7, land_7F. pose proof (Z.div_mod v 128). lia.
  - intros k Hk Hvk. rewrite emitted_integer_length. fold n.
    destruct k as [|k]; [lia|].
    apply le_n_S. apply groups_length.
    apply high_groups_bound. split; [lia|].
    replace (Z.of_nat k + 1) with (Z.of_nat (S k)) by lia. exact Hvk.
  - intros post stray0 Hsize.
    apply (read_integer_emitted _ (data sblock) post v);
      solve [assumption | reflexivity].
Qed.

(** The turns allowed to the loop of [sieve_binary_read_integer] never
    run out: with [fuel] at least [bits] the loop always comes to its
    [return]. *)
Lemma read_integer_while_returns sblock fuel : forall bits int_r c,
  bits <= Z.of_nat fuel ->
  fst (read_integer_while sblock fuel bits int_r c) <> None.
Proof.
  induction fuel as [|fuel IH]; intros bits int_r c Hbits;
    rewrite read_integer_while_eq, bind_at;
    destruct (Z.land (fst (ADDR_DATA_AT sblock c)) 128 >? 0);
    try (rewrite !bind_at, ret_at; discriminate);
    rewrite bind_at;
    destruct (Z.gtb_spec
                (fst (ADDR_BYTES_LEFT sblock (snd (ADDR_DATA_AT sblock c)))) 0);
    destruct (Z.gtb_spec bits 0); cbn [andb];
    try (rewrite ret_at; discriminate).
  - lia.
  - rewrite !bind_at. cbv zeta. apply IH. lia.
Qed.

(** So the [None] case in [sieve_binary_read_integer] is never taken. *)
Lemma read_integer_never_runs_out sblock c :
  fst (read_integer_while sblock (Z.to_nat NUMBER_BITS) NUMBER_BITS 0 c) <> None.
Proof. apply read_integer_while_returns. lia. Qed.

(** *** Strings *)

Lemma pointer_view sblock (s : list Z) : forall pre rest c,
  data sblock = pre ++ s ++ rest ->
  address c = Z.of_nat (length pre) ->
  Forall (fun b => 0 <= b < 256) s ->
  ADDR_POINTER sblock (Z.of_nat (length s)) c = (s, c).
Proof.
  unfold ADDR_POINTER.
  induction s as [|x s IH]; intros pre rest c Hdata Hc Hs; [reflexivity|].
  inversion Hs as [|? ? Hx Hs']; subst.
  rewrite Nat2Z.id. simpl length. simpl seq. simpl map.
  assert (Hin : in_code sblock (address c) = true).
  { apply in_code_true. unfold _code_size.
    rewrite Hdata, length_app. simpl length. lia. }
  f_equal. f_equal.
  - rewrite Z.add_0_r. unfold _code. rewrite Hin, Hc, Hdata.
    simpl app. rewrite nth_middle_Z. unfold to_uchar. apply Z.mod_small. lia.
  - specialize (IH (pre ++ [x]) rest
                   (mk_cursor (address c + 1) (stray c))).
    rewrite Nat2Z.id in IH.
    assert (H : fst (map (fun k => _code sblock (address (mk_cursor (address c + 1) (stray c)) + Z.of_nat k))
                   (seq 0 (length s)), mk_cursor (address c + 1) (stray c)) = s).
    { rewrite IH; [reflexivity | | | exact Hs'].
      - rewrite <- app_assoc. exact Hdata.
      - cbn [address]. rewrite length_app. simpl length. lia. }
    cbn [fst address] in H. rewrite <- H at 2.
    rewrite <- seq_shift, map_map. apply map_ext.
    intros k. f_equal. lia.
Qed.

Lemma emit_string_emits sblock (s : list Z) :
  0 <= Z.of_nat (length s) < 2 ^ NUMBER_BITS ->
  Z.of_nat (length s) < 2 ^ (7 * (NUMBER_BYTES + 1)) ->
  sieve_binary_emit_string sblock s
  = Some (with_data sblock
            (data sblock ++ emitted_integer (Z.of_nat (length s)) ++ s ++ [0]),
          _sieve_binary_block_get_size sblock).
Proof.
  intros Hv Hfit.
  assert (HW : 0 <= NUMBER_BYTES).
  { destruct (Z.lt_ge_cases NUMBER_BYTES 0); [|lia].
    unfold NUMBER_BITS in Hv. rewrite Z.pow_neg_r in Hv by lia. lia. }
  unfold sieve_binary_emit_string, sieve_binary_emit_dynamic_data.
  unfold number_wrap. rewrite Z.mod_small by exact Hv.
  rewrite emit_integer_emits by lia.
  unfold _sieve_binary_emit_byte, _sieve_binary_emit_data, buffer_append, with_data.
  cbn [data sbin_extensions]. rewrite <- !app_assoc. reflexivity.
Qed.

(** Reading a string whose length prefix, payload and closing byte [t]
    lie in the code. *)
Lemma read_string_at sblock pre (s : list Z) t post c :
  data sblock = pre ++ emitted_integer (Z.of_nat (length s)) ++ s ++ [t] ++ post ->
  _code_size sblock < 2 ^ SIZE_BITS ->
  address c = Z.of_nat (length pre) ->
  Forall (fun b => 0 <= b < 256) s ->
  0 <= t < 256 ->
  0 <= Z.of_nat (length s) < 2 ^ NUMBER_BITS ->
  Z.of_nat (length s) < 2 ^ (7 * (NUMBER_BYTES + 1)) ->
  Z.of_nat (length s) <= UINT_MAX ->
  sieve_binary_read_string sblock c
  = if t =? 0
    then (Some s,
          mk_cursor (address c
                     + Z.of_nat (length (emitted_integer (Z.of_nat (length s))))
                     + Z.of_nat (length s) + 1) (stray c))
    else (None,
          mk_cursor (address c
                     + Z.of_nat (length (emitted_integer (Z.of_nat (length s))))
                     + Z.of_nat (length s)) (stray c)).
Proof.
  intros Hdata Hsize Hc Hs Ht Hv Hfit Hu.
  set (enc := emitted_integer (Z.of_nat (length s))) in *.
  assert (Hlen : _code_size sblock
                 = Z.of_nat (length pre) + Z.of_nat (length enc)
                   + Z.of_nat (length s) + 1 + Z.of_nat (length post)).
  { unfold _code_size. rewrite Hdata, !length_app. simpl length. lia. }
  unfold sieve_binary_read_string, sieve_binary_read_unsigned.
  rewrite !bind_at.
  rewrite (read_integer_emitted sblock pre (s ++ [t] ++ post) (Z.of_nat (length s)) c)
    by assumption.
  fold enc. cbn [fst snd]. rewrite !ret_at. cbn [fst snd negb].
  unfold to_uint. rewrite Z.mod_small by (unfold UINT_MAX in Hu; lia).
  set (c1 := mk_cursor (address c + Z.of_nat (length enc)) (stray c)).
  rewrite bind_at, bytes_left_inside by (unfold c1; cbn [address]; lia).
  cbn [fst snd].
  destruct (Z.gtb_spec (Z.of_nat (length s)) (_code_size sblock - address c1))
    as [Hgt|_]; [unfold c1 in Hgt; cbn [address] in Hgt; lia|].
  rewrite bind_at.
  rewrite (pointer_view sblock s (pre ++ enc) ([t] ++ post) c1);
    [| rewrite <- app_assoc; exact Hdata
     | unfold c1; cbn [address]; rewrite length_app; lia
     | exact Hs].
  cbn [fst snd].
  rewrite bind_at, (jump_inside sblock) by (unfold c1; cbn [address]; lia).
  cbn [fst snd].
  set (c2 := mk_cursor (address c1 + Z.of_nat (length s)) (stray c1)).
  unfold ADDR_CODE_AT. rewrite !bind_at.
  rewrite deref_inside by (unfold c2, c1; cbn [address]; lia).
  cbn [fst snd]. rewrite !ret_at. cbn [fst snd].
  assert (Hnth : nth (Z.to_nat (address c2)) (data sblock) 0 = t).
  { replace (address c2) with (Z.of_nat (length ((pre ++ enc) ++ s)))
      by (unfold c2, c1; cbn [address]; rewrite !length_app; lia).
    rewrite Hdata.
    replace (pre ++ enc ++ s ++ [t] ++ post)
      with (((pre ++ enc) ++ s) ++ t :: post)
      by (rewrite <- !app_assoc; reflexivity).
    apply nth_middle_Z. }
  rewrite Hnth.
  assert (Hbyte : to_uchar t = t) by (unfold to_uchar; apply Z.mod_small; lia).
  rewrite Hbyte.
  assert (Hsc : (to_schar t =? 0) = (t =? 0)).
  { unfold to_schar.
    destruct (Z.eqb_spec t 0) as [->|Hn]; [reflexivity|].
    apply Z.eqb_neq.
    destruct (Z.lt_ge_cases t 128).
    - rewrite Z.mod_small by lia. lia.
    - replace (t + 128) with (t - 128 + 1 * 256) by lia.
      rewrite Z.mod_add, Z.mod_small by lia. lia. }
  rewrite Hsc.
  destruct (t =? 0); cbn [negb].
  - rewrite bind_at, (jump_inside sblock)
      by (unfold c2, c1; cbn [address]; lia).
    cbn [fst snd]. unfold ret, c2, c1. cbn [address stray]. reflexivity.
  - unfold ret, c2, c1. cbn [address stray]. reflexivity.
Qed.

(** C5.  For every byte string [s], the empty one included, whose length
    is a value of [unsigned int] and of [sieve_number_t] that
    [sieve_binary_emit_integer] can write, [sieve_binary_emit_string]
    appends a length prefix, the bytes of [s] and one 0x00 byte; 
    [sieve_binary_read_string] at the address that was returned succeeds
    with exactly [s], stopping after the 0x00 byte, and fails as soon as
    that byte is replaced by a nonzero one. *)
Theorem emit_string_read_string (sblock : sieve_binary_block) (s : list Z) :
  Forall (fun b => 0 <= b < 256) s ->
  Z.of_nat (length s) < 2 ^ NUMBER_BITS ->
  Z.of_nat (length s) < 2 ^ (7 * (NUMBER_BYTES + 1)) ->
  Z.of_nat (length s) <= UINT_MAX ->
  exists prefix : list Z,
    let address := _sieve_binary_block_get_size sblock in
    sieve_binary_emit_string sblock s
      = Some (with_data sblock (data sblock ++ prefix ++ s ++ [0]), address)
    /\ forall (post stray0 : list Z),
         Z.of_nat (length (data sblock ++ prefix ++ s ++ [0] ++ post))
           < 2 ^ SIZE_BITS ->
         sieve_binary_read_string
           (with_data sblock (data sblock ++ prefix ++ s ++ [0] ++ post))
           (mk_cursor address stray0)
         = (Some s,
            mk_cursor (address + Z.of_nat (length (prefix ++ s ++ [0]))) stray0)
         /\ forall t, 0 < t < 256 ->
              fst (sieve_binary_read_string
                     (with_data sblock (data sblock ++ prefix ++ s ++ [t] ++ post))
                     (mk_cursor address stray0))
              = None.
Proof.
  intros Hs Hv Hfit Hu.
  exists (emitted_integer (Z.of_nat (length s))). cbv zeta.
  split; [apply emit_string_emits; lia|].
  intros post stray0 Hsize. split.
  - rewrite (read_string_at _ (data sblock) s 0 post);
      try solve [assumption | reflexivity | lia].
    cbn [Z.eqb address stray]. f_equal. f_equal.
    unfold _sieve_binary_block_get_size.
    rewrite !length_app. simpl length. lia.
  - intros t Ht.
    rewrite (read_string_at _ (data sblock) s t post);
      try solve [assumption | reflexivity | lia].
    + destruct (Z.eqb_spec t 0); [lia | reflexivity].
    + unfold _code_size. cbn [data with_data].
      rewrite !length_app in *. simpl length in *. lia.
Qed.

(** *** Offsets *)

Lemma buffer_write_at (pre : list Z) x post c :
  buffer_write (pre ++ x :: post) (Z.of_nat (length pre)) c = pre ++ c :: post.
Proof.
  unfold buffer_write. rewrite length_app. simpl length.
  destruct (Z.ltb_spec (Z.of_nat (length pre))
              (Z.of_nat (length pre + S (length post)))); [|lia].
  rewrite Nat2Z.id.
  rewrite firstn_app, firstn_all, Nat.sub_diag, firstn_0, app_nil_r.
  replace (S (length pre)) with (length pre + 1)%nat by lia.
  rewrite skipn_app, skipn_all2 by lia.
  replace (length pre + 1 - length pre)%nat with 1%nat by lia.
  reflexivity.
Qed.

(** The four bytes of an offset, as [sieve_binary_emit_offset] and
    [sieve_binary_resolve_offset] store them. *)
Lemma offset_bytes_value offset :
  - 2 ^ 31 <= offset <= INT_MAX ->
  to_int (to_uint (Z.shiftl (to_uint (Z.shiftl (to_uint (Z.shiftl
    (to_uint (Z.shiftl 0 8 + offset_byte offset 3)) 8
      + offset_byte offset 2)) 8 + offset_byte offset 1)) 8
      + offset_byte offset 0)) = offset.
Proof.
  intros H. unfold INT_MAX in H.
  unfold to_int, to_uint, offset_byte, to_uchar.
  rewrite !Z.shiftl_mul_pow2, !Z.shiftr_div_pow2 by lia.
  change (2 ^ 8) with 256. change (2 ^ (3 * 8)) with 16777216.
  change (2 ^ (2 * 8)) with 65536. change (2 ^ (1 * 8)) with 256.
  change (2 ^ (0 * 8)) with 1. change (2 ^ 32) with 4294967296.
  change (2 ^ 31) with 2147483648 in *.
  Z.div_mod_to_equations. lia.
Qed.
Lemma resolve_offset_patches sblock pre b3 b2 b1 b0 rest :
  data sblock = pre ++ b3 :: b2 :: b1 :: b0 :: rest ->
  _sieve_binary_block_get_size sblock < 2 ^ SIZE_BITS ->
  let offset := to_int (_sieve_binary_block_get_size sblock
                        - Z.of_nat (length pre)) in
  sieve_binary_resolve_offset sblock (Z.of_nat (length pre))
  = with_data sblock
      (pre ++ offset_byte offset 3 :: offset_byte offset 2
           :: offset_byte offset 1 :: offset_byte offset 0 :: rest).
Proof.
  intros Hdata Hsize offset.
  assert (Hlen : _sieve_binary_block_get_size sblock
                 = Z.of_nat (length pre) + 4 + Z.of_nat (length rest)).
  { unfold _sieve_binary_block_get_size. rewrite Hdata, length_app.
    simpl length. lia. }
  unfold sieve_binary_resolve_offset. cbv zeta.
  rewrite !size_wrap_small by lia. fold offset.
  unfold _sieve_binary_update_data, with_data. cbn [data sbin_extensions].
  rewrite Hdata.
  replace (Z.of_nat (length pre) + 3 - 3) with (Z.of_nat (length pre)) by lia.
  rewrite buffer_write_at.
  replace (pre ++ offset_byte offset 3 :: b2 :: b1 :: b0 :: rest)
    with ((pre ++ [offset_byte offset 3]) ++ b2 :: b1 :: b0 :: rest)
    by (rewrite <- app_assoc; reflexivity).
  replace (Z.of_nat (length pre) + 3 - 2)
    with (Z.of_nat (length (pre ++ [offset_byte offset 3])))
    by (rewrite length_app; simpl length; lia).
  rewrite buffer_write_at.
  replace ((pre ++ [offset_byte offset 3]) ++ offset_byte offset 2 :: b1 :: b0 :: rest)
    with ((pre ++ [offset_byte offset 3; offset_byte offset 2]) ++ b1 :: b0 :: rest)
    by (rewrite <- !app_assoc; reflexivity).
  replace (Z.of_nat (length pre) + 3 - 1)
    with (Z.of_nat (length (pre ++ [offset_byte offset 3; offset_byte offset 2])))
    by (rewrite length_app; simpl length; lia).
  rewrite buffer_write_at.
  replace ((pre ++ [offset_byte offset 3; offset_byte offset 2])
             ++ offset_byte offset 1 :: b0 :: rest)
    with ((pre ++ [offset_byte offset 3; offset_byte offset 2; offset_byte offset 1])
            ++ b0 :: rest)
    by (rewrite <- !app_assoc; reflexivity).
  replace (Z.of_nat (length pre) + 3 - 0)
    with (Z.of_nat (length (pre ++ [offset_byte offset 3; offset_byte offset 2;
                                    offset_byte offset 1])))
    by (rewrite length_app; simpl length; lia).
  rewrite buffer_write_at.
  rewrite <- !app_assoc. reflexivity.
Qed.

Lemma read_offset_step_inside sblock pre b rest offs c :
  data sblock = pre ++ b :: rest ->
  _code_size sblock < 2 ^ SIZE_BITS ->
  address c = Z.of_nat (length pre) ->
  0 <= b < 256 ->
  read_offset_step sblock offs c
  = (to_uint (Z.shiftl offs 8 + b), mk_cursor (address c + 1) (stray c)).
Proof.
  intros Hdata Hsize Hc Hb.
  assert (Hlen : _code_size sblock
                 = Z.of_nat (length pre) + 1 + Z.of_nat (length rest)).
  { unfold _code_size. rewrite Hdata, length_app. simpl length. lia. }
  unfold read_offset_step, ADDR_DATA_AT.
  rewrite bind_at, deref_inside by lia. cbn [fst snd].
  rewrite bind_at, (jump_inside sblock) by lia. cbn [fst snd].
  rewrite ret_at, Hc, Hdata, nth_middle_Z.
  unfold to_uchar. rewrite Z.mod_small by lia. reflexivity.
Qed.

Lemma read_offset_inside sblock pre b3 b2 b1 b0 rest c :
  data sblock = pre ++ b3 :: b2 :: b1 :: b0 :: rest ->
  _code_size sblock < 2 ^ SIZE_BITS ->
  address c = Z.of_nat (length pre) ->
  0 <= b3 < 256 -> 0 <= b2 < 256 -> 0 <= b1 < 256 -> 0 <= b0 < 256 ->
  sieve_binary_read_offset sblock c
  = (Some (to_int (to_uint (Z.shiftl (to_uint (Z.shiftl (to_uint (Z.shiftl
             (to_uint (Z.shiftl 0 8 + b3)) 8 + b2)) 8 + b1)) 8 + b0))),
     mk_cursor (address c + 4) (stray c)).
Proof.
  intros Hdata Hsize Hc H3 H2 H1 H0.
  assert (Hlen : _code_size sblock
                 = Z.of_nat (length pre) + 4 + Z.of_nat (length rest)).
  { unfold _code_size. rewrite Hdata, length_app. simpl length. lia. }
  unfold sieve_binary_read_offset.
  rewrite bind_at, bytes_left_inside by lia. cbn [fst snd].
  destruct (Z.geb_spec (_code_size sblock - address c) 4); [|lia].
  rewrite bind_at.
  rewrite (read_offset_step_inside sblock pre b3 (b2 :: b1 :: b0 :: rest))
    by assumption.
  cbn [fst snd]. rewrite bind_at.
  rewrite (read_offset_step_inside sblock (pre ++ [b3]) b2 (b1 :: b0 :: rest));
    [| rewrite <- app_assoc; exact Hdata | exact Hsize
     | cbn [address]; rewrite length_app; simpl length; lia | exact H2].
  cbn [fst snd address stray]. rewrite bind_at.
  rewrite (read_offset_step_inside sblock (pre ++ [b3; b2]) b1 (b0 :: rest));
    [| rewrite <- app_assoc; exact Hdata | exact Hsize
     | cbn [address]; rewrite length_app; simpl length; lia | exact H1].
  cbn [fst snd address stray]. rewrite bind_at.
  rewrite (read_offset_step_inside sblock (pre ++ [b3; b2; b1]) b0 rest);
    [| rewrite <- app_assoc; exact Hdata | exact Hsize
     | cbn [address]; rewrite length_app; simpl length; lia | exact H0].
  cbn [fst snd address stray]. rewrite ret_at.
  do 2 f_equal. lia.
Qed.

Lemma offset_byte_range offset i : 0 <= offset_byte offset i < 256.
Proof. unfold offset_byte, to_uchar. apply Z.mod_pos_bound. lia. Qed.

(** C4.  Let [sieve_binary_emit_offset] return the address [A], let [N]
    further bytes be emitted, with [N + 4] a value of [int], and let
    [sieve_binary_resolve_offset] be called for [A].  Then the four bytes
    at [A] hold [current_size - A = N + 4], most significant byte first,
    every other byte and the length of the buffer are as before, and
    [sieve_binary_read_offset] at [A] succeeds with exactly [N + 4]. *)
Theorem resolve_offset_read_offset
    (sblock : sieve_binary_block) (placeholder : Z) (bytes stray0 : list Z) :
  let N := Z.of_nat (length bytes) in
  let (sblock1, A) := sieve_binary_emit_offset sblock placeholder in
  let sblock2 := _sieve_binary_emit_data sblock1 bytes in
  let sblock3 := sieve_binary_resolve_offset sblock2 A in
  N + 4 <= INT_MAX ->
  _sieve_binary_block_get_size sblock2 < 2 ^ SIZE_BITS ->
  data sblock3
    = data sblock
        ++ [(N + 4) / 2 ^ 24 mod 256; (N + 4) / 2 ^ 16 mod 256;
            (N + 4) / 2 ^ 8 mod 256; (N + 4) mod 256]
        ++ bytes
  /\ _sieve_binary_block_get_size sblock2 - A = N + 4
  /\ length (data sblock3) = length (data sblock2)
  /\ sieve_binary_read_offset sblock3 (mk_cursor A stray0)
     = (Some (N + 4), mk_cursor (A + 4) stray0).
Proof.
  cbv zeta. unfold sieve_binary_emit_offset. cbv zeta.
  set (N := Z.of_nat (length bytes)).
  set (A := _sieve_binary_block_get_size sblock).
  unfold _sieve_binary_emit_data, buffer_append, with_data.
  cbn [data sbin_extensions]. rewrite <- !app_assoc. cbn [app].
  intros HN Hsize.
  set (sblock2 := mk_block (data sblock ++ offset_byte placeholder 3
                    :: offset_byte placeholder 2 :: offset_byte placeholder 1
                    :: offset_byte placeholder 0 :: bytes)
                    (sbin_extensions sblock)) in *.
  assert (Hlen2 : _sieve_binary_block_get_size sblock2 = A + 4 + N).
  { unfold _sieve_binary_block_get_size, sblock2, A, N. cbn [data].
    rewrite length_app. simpl length.
    unfold _sieve_binary_block_get_size. lia. }
  assert (Hint : to_int (N + 4) = N + 4).
  { unfold to_int. unfold INT_MAX in HN.
    change (2 ^ 31) with 2147483648 in *. change (2 ^ 32) with 4294967296.
    rewrite Z.mod_small by lia. lia. }
  assert (Hres : sieve_binary_resolve_offset sblock2 A
                 = with_data sblock2
                     (data sblock ++ offset_byte (N + 4) 3
                        :: offset_byte (N + 4) 2 :: offset_byte (N + 4) 1
                        :: offset_byte (N + 4) 0 :: bytes)).
  { assert (Hoff : to_int (_sieve_binary_block_get_size sblock2
                             - Z.of_nat (length (data sblock))) = N + 4).
    { rewrite Hlen2. unfold A, _sieve_binary_block_get_size.
      rewrite <- Hint. f_equal. lia. }
    change A with (Z.of_nat (length (data sblock))).
    rewrite (resolve_offset_patches sblock2 (data sblock) _ _ _ _ bytes)
      by (reflexivity || exact Hsize).
    rewrite !Hoff. reflexivity. }
  rewrite !Hres. unfold with_data. cbn [data sbin_extensions].
  split; [|split; [|split]].
  - unfold offset_byte, to_uchar. rewrite !Z.shiftr_div_pow2 by lia.
    change (2 ^ (0 * 8)) with 1. rewrite Z.div_1_r. reflexivity.
  - lia.
  - rewrite !length_app. reflexivity.
  - rewrite (read_offset_inside _ (data sblock) (offset_byte (N + 4) 3)
               (offset_byte (N + 4) 2) (offset_byte (N + 4) 1)
               (offset_byte (N + 4) 0) bytes);
      try solve [reflexivity | apply offset_byte_range].
    + rewrite offset_bytes_value by (unfold INT_MAX in *; lia).
      cbn [address stray]. reflexivity.
    + unfold _code_size. cbn [data].
      unfold _sieve_binary_block_get_size, sblock2 in Hsize. cbn [data] in Hsize.
      rewrite !length_app in *. simpl length in *. lia.
Qed.
(** *** Extensions *)

(** C10.  At a cursor with at least one byte left,
    [sieve_binary_read_extension] given a byte below the base offset
    succeeds whatever the extension index table holds: it moves the
    cursor by exactly one byte, stores the raw byte through [offset_r]
    and NULL through [ext_r].  It fails exactly when the byte is at or
    above the base offset and its index is not in the table. *)
Theorem read_extension_below_offset
    (d : list Z) (exts : list sieve_extension) (c : cursor)
    (offset_r : Z) (ext_r0 : option sieve_extension) :
  Z.of_nat (length d) < 2 ^ SIZE_BITS ->
  0 <= address c < Z.of_nat (length d) ->
  let sblock := mk_block d exts in
  let byte := to_uchar (nth (Z.to_nat (address c)) d 0) in
  (byte < offset_r ->
     forall exts' : list sieve_extension,
       sieve_binary_read_extension (mk_block d exts') offset_r ext_r0 c
       = (true, byte, None, mk_cursor (address c + 1) (stray c)))
  /\ (fst (fst (fst (sieve_binary_read_extension sblock offset_r ext_r0 c))) = false
      <-> offset_r <= byte
          /\ sieve_binary_extension_get_by_index sblock
               (to_uint (byte - offset_r)) = None).
Proof.
  intros Hsz Ha sblock byte.
  assert (Hrun : forall exts',
    sieve_binary_read_extension (mk_block d exts') offset_r ext_r0 c
    = (if byte >=? offset_r then
         match sieve_binary_extension_get_by_index (mk_block d exts')
                 (to_uint (byte - offset_r)) with
         | None => (false, byte, ext_r0)
         | Some ext => (true, byte, Some ext)
         end
       else (true, byte, None),
       mk_cursor (address c + 1) (stray c))).
  { intros exts'. unfold sieve_binary_read_extension.
    rewrite bind_at, bytes_left_inside by (unfold _code_size; simpl; lia).
    cbn [fst snd].
    destruct (Z.leb_spec (_code_size (mk_block d exts') - address c) 0) as [Hle|_];
      [unfold _code_size in Hle; simpl in Hle; lia|].
    unfold ADDR_DATA_AT.
    rewrite bind_at, deref_inside by (unfold _code_size; simpl; lia).
    cbn [fst snd data]. fold byte.
    rewrite bind_at, (jump_inside (mk_block d exts'))
      by (unfold _code_size; simpl; lia).
    cbn [fst snd].
    destruct (byte >=? offset_r); [|reflexivity].
    destruct (sieve_binary_extension_get_by_index _ _); reflexivity. }
  split.
  - intros Hlt exts'. rewrite Hrun.
    destruct (Z.geb_spec byte offset_r); [lia | reflexivity].
  - unfold sblock. rewrite Hrun.
    destruct (Z.geb_spec byte offset_r) as [Hge|Hlt].
    + destruct (sieve_binary_extension_get_by_index _ _); cbn; split;
        intros H; try discriminate; try (destruct H; discriminate);
        try reflexivity.
      split; [lia | reflexivity].
    + cbn. split; [discriminate | lia].
Qed.

(** *** The jump primitive *)

Lemma to_int_range x : - 2 ^ 31 <= to_int x < 2 ^ 31.
Proof.
  unfold to_int. pose proof (Z.mod_pos_bound (x + 2 ^ 31) (2 ^ 32)).
  change (2 ^ 32) with (2 * 2 ^ 31) in *. lia.
Qed.

Lemma read_offset_step_in_code sblock offs c :
  _code_size sblock < 2 ^ SIZE_BITS ->
  0 <= address c < _code_size sblock ->
  snd (read_offset_step sblock offs c) = mk_cursor (address c + 1) (stray c).
Proof.
  intros Hsize Hc. unfold read_offset_step, ADDR_DATA_AT.
  rewrite bind_at, deref_inside by lia. cbn [fst snd].
  rewrite bind_at, (jump_inside sblock) by lia. reflexivity.
Qed.

(** With the cursor inside the code, [sieve_binary_read_offset] either
    finds four bytes and moves past them, or fails in place. *)
Lemma read_offset_cases sblock c :
  _code_size sblock < 2 ^ SIZE_BITS ->
  0 <= address c <= _code_size sblock ->
  (4 <= _code_size sblock - address c /\
   exists offset, - 2 ^ 31 <= offset < 2 ^ 31 /\
     sieve_binary_read_offset sblock c
     = (Some offset, mk_cursor (address c + 4) (stray c)))
  \/ (_code_size sblock - address c < 4 /\
      sieve_binary_read_offset sblock c = (None, c)).
Proof.
  intros Hsize Hc. unfold sieve_binary_read_offset.
  rewrite bind_at, bytes_left_inside by lia. cbn [fst snd].
  destruct (Z.geb_spec (_code_size sblock - address c) 4) as [Hge|Hlt].
  - left. split; [lia|].
    rewrite bind_at.
    pose proof (read_offset_step_in_code sblock 0 c Hsize) as H1.
    rewrite H1 by lia.
    set (o1 := fst (read_offset_step sblock 0 c)).
    rewrite bind_at.
    pose proof (read_offset_step_in_code sblock o1
                  (mk_cursor (address c + 1) (stray c)) Hsize) as H2.
    cbn [address stray] in H2. rewrite H2 by lia.
    set (o2 := fst (read_offset_step sblock o1 _)).
    rewrite bind_at.
    pose proof (read_offset_step_in_code sblock o2
                  (mk_cursor (address c + 1 + 1) (stray c)) Hsize) as H3.
    cbn [address stray] in H3. rewrite H3 by lia.
    set (o3 := fst (read_offset_step sblock o2 _)).
    rewrite bind_at.
    pose proof (read_offset_step_in_code sblock o3
                  (mk_cursor (address c + 1 + 1 + 1) (stray c)) Hsize) as H4.
    cbn [address stray] in H4. rewrite H4 by lia.
    set (o4 := fst (read_offset_step sblock o3 _)).
    exists (to_int o4). split; [apply to_int_range|].
    rewrite ret_at. do 2 f_equal. lia.
  - right. split; [lia | reflexivity].
Qed.

(** C3, amended.  [sieve_interpreter_program_jump] decodes one 4-byte
    offset operand and fails when that cannot be decoded.  Otherwise the
    candidate is the program counter at the start of the operand plus
    the offset; the jump succeeds if and only if
    [0 < candidate <= code_size]; a successful jump that is taken sets
    the program counter to the candidate, one that is only tested leaves
    it after the operand; a failed jump leaves the program counter after
    the operand, which is never the invalid candidate. *)
Theorem program_jump_candidate
    (sbin : sieve_binary_block) (interp : sieve_interpreter) (jump : bool) :
  let code_size := sieve_binary_get_code_size sbin in
  code_size + 2 ^ 31 < 2 ^ SIZE_BITS ->
  0 <= pc interp <= code_size ->
  match sieve_interpreter_read_offset_operand sbin interp with
  | (None, interp1) =>
      interp1 = interp
      /\ sieve_interpreter_program_jump sbin interp jump = (false, interp)
  | (Some offset, interp1) =>
      let candidate := pc interp + offset in
      pc interp1 = pc interp + 4
      /\ (fst (sieve_interpreter_program_jump sbin interp jump) = true
          <-> 0 < candidate <= code_size)
      /\ (0 < candidate <= code_size ->
          sieve_interpreter_program_jump sbin interp jump
          = (true, if jump then set_pc interp1 candidate else interp1))
      /\ (~ 0 < candidate <= code_size ->
          sieve_interpreter_program_jump sbin interp jump = (false, interp1)
          /\ pc interp1 <> candidate)
  end.
Proof.
  intros code_size Hsize Hpc.
  unfold sieve_interpreter_program_jump.
  unfold sieve_interpreter_read_offset_operand, at_pc.
  assert (Hs : _code_size sbin < 2 ^ SIZE_BITS)
    by (unfold code_size, sieve_binary_get_code_size in Hsize; lia).
  destruct (read_offset_cases sbin (mk_cursor (pc interp) (derefs interp)) Hs)
    as [[Hleft [offset [Hoff Hrd]]] | [Hleft Hrd]];
    [exact Hpc | |]; rewrite Hrd; cbn [address stray] in *.
  - cbv zeta. fold code_size.
    unfold code_size, sieve_binary_get_code_size in *.
    assert (Hwrap : 0 <= pc interp + offset ->
                    size_wrap (pc interp + offset) = pc interp + offset)
      by (intros; apply size_wrap_small; lia).
    assert (Hneg : pc interp + offset < 0 ->
                   size_wrap (pc interp + offset)
                   = pc interp + offset + 2 ^ SIZE_BITS).
    { intros Hn. unfold size_wrap.
      replace (pc interp + offset)
        with (pc interp + offset + 2 ^ SIZE_BITS + (-1) * 2 ^ SIZE_BITS) by lia.
      rewrite Z.mod_add by lia. rewrite Z.mod_small; lia. }
    split; [reflexivity|].
    destruct (Z.lt_ge_cases (pc interp + offset) 0) as [Hn|Hp].
    + rewrite (Hneg Hn).
      destruct (Z.leb_spec (pc interp + offset + 2 ^ SIZE_BITS) (_code_size sbin));
        [lia|]. cbn [andb fst].
      split; [split; [discriminate | lia]|].
      split; [lia|]. intros _. split; [reflexivity | cbn [pc]; lia].
    + rewrite (Hwrap Hp).
      destruct (Z.leb_spec (pc interp + offset) (_code_size sbin));
        destruct (Z.gtb_spec (pc interp + offset) 0); cbn [andb fst].
      * split; [split; [lia | reflexivity]|].
        split; [reflexivity | lia].
      * split; [split; [discriminate | lia]|].
        split; [lia|]. intros _. split; [reflexivity | cbn [pc]; lia].
      * split; [split; [discriminate | lia]|].
        split; [lia|]. intros _. split; [reflexivity | cbn [pc]; lia].
      * lia.
  - destruct interp; split; reflexivity.
Qed.

(** *** The run loop *)

Section RunFacts.

Variable sbin : sieve_binary_block.
Variable sieve_operations : Z -> option sieve_operation_def.


Lemma run_while_turns fuel : forall interp b out,
  run_while sbin sieve_operations fuel interp = Some (b, out) ->
  exists n last,
    run_turns sbin sieve_operations n interp last
    /\ if b then run_continues sbin last = false /\ out = last
       else run_continues sbin last = true
            /\ sieve_interpreter_execute_operation sbin sieve_operations last = (false, out).
Proof.
  induction fuel as [|fuel IH]; intros interp b out H; [discriminate|].
  simpl in H.
  destruct (run_continues sbin interp) eqn:Hc.
  - destruct (sieve_interpreter_execute_operation sbin sieve_operations interp) as [ok interp1] eqn:He.
    destruct ok.
    + destruct (IH _ _ _ H) as [n [last [Ht Hb]]].
      exists (S n), last. split; [|exact Hb].
      econstructor; eassumption.
    + injection H as <- <-. exists O, interp.
      split; [constructor | split; assumption].
  - injection H as <- <-. exists O, interp.
    split; [constructor | split; [assumption | reflexivity]].
Qed.

Lemma turns_run_while n : forall interp last,
  run_turns sbin sieve_operations n interp last ->
  forall fuel, (n < fuel)%nat ->
    run_while sbin sieve_operations fuel interp
    = if run_continues sbin last
      then (let (ok, out) := sieve_interpreter_execute_operation sbin sieve_operations last in
            if ok then run_while sbin sieve_operations (fuel - S n) out
            else Some (false, out))
      else Some (true, last).
Proof.
  induction 1 as [interp | n interp interp1 last Hc He Ht IH];
    intros fuel Hfuel.
  - destruct fuel as [|fuel]; [lia|]. simpl.
    rewrite Nat.sub_0_r. reflexivity.
  - destruct fuel as [|fuel]; [lia|]. simpl run_while.
    rewrite Hc, He. rewrite IH by lia. reflexivity.
Qed.

(** The fetch inside the code reads the tag at [pc] and moves past it. *)
Lemma fetch_in_code interp :
  _code_size sbin < 2 ^ SIZE_BITS ->
  0 <= pc interp < sieve_binary_get_code_size sbin ->
  exists tag,
    sieve_operation_read sbin sieve_operations interp
    = (sieve_operations tag, set_pc interp (pc interp + 1)).
Proof.
  intros Hsize Hpc. unfold sieve_binary_get_code_size in Hpc.
  unfold sieve_operation_read, at_pc, sieve_binary_read_code.
  rewrite bind_at, bytes_left_inside by (cbn [address]; lia).
  cbn [fst snd address].
  destruct (Z.geb_spec (_code_size sbin - pc interp) 1); [|lia].
  unfold ADDR_CODE_AT. rewrite !bind_at.
  rewrite deref_inside by (cbn [address]; lia).
  cbn [fst snd]. rewrite !ret_at. cbn [fst snd].
  rewrite (jump_inside sbin) by (cbn [address]; lia).
  cbn [fst snd address stray].
  eexists. reflexivity.
Qed.

Lemma execute_operation_pc interp :
  _code_size sbin < 2 ^ SIZE_BITS ->
  hooks_keep_pc_in_code sbin sieve_operations ->
  0 <= pc interp < sieve_binary_get_code_size sbin ->
  0 <= pc (snd (sieve_interpreter_execute_operation sbin sieve_operations
                  interp))
    <= sieve_binary_get_code_size sbin.
Proof.
  intros Hsize Hhooks Hpc.
  unfold sieve_interpreter_execute_operation.
  destruct (fetch_in_code interp Hsize Hpc) as [tag Hf]. rewrite Hf.
  destruct (sieve_operations tag) as [op|] eqn:Hop; [|cbn; lia].
  destruct (execute op) as [e|] eqn:He; [|cbn; lia].
  apply (Hhooks tag op e); [assumption | assumption | cbn; lia].
Qed.

Lemma turns_pc n : forall interp last,
  run_turns sbin sieve_operations n interp last ->
  _code_size sbin < 2 ^ SIZE_BITS ->
  hooks_keep_pc_in_code sbin sieve_operations ->
  0 <= pc interp <= sieve_binary_get_code_size sbin ->
  0 <= pc last <= sieve_binary_get_code_size sbin.
Proof.
  induction 1 as [interp | n interp interp1 last Hc He Ht IH];
    intros Hsize Hhooks Hpc; [exact Hpc|].
  apply IH; [assumption | assumption|].
  unfold run_continues in Hc. apply andb_true_iff in Hc.
  destruct Hc as [_ Hc]. apply Z.ltb_lt in Hc.
  pose proof (execute_operation_pc interp Hsize Hhooks) as H.
  rewrite He in H. apply H. lia.
Qed.

Lemma continues_false interp :
  0 <= pc interp <= sieve_binary_get_code_size sbin ->
  (run_continues sbin interp = false
   <-> stopped interp = true
       \/ pc interp = sieve_binary_get_code_size sbin).
Proof.
  intros Hpc. unfold run_continues.
  destruct (stopped interp); cbn [negb andb].
  - split; [left; reflexivity | reflexivity].
  - destruct (Z.ltb_spec (pc interp) (sieve_binary_get_code_size sbin)) as [Hlt|Hge].
    + split; [discriminate|]. intros [Hs|He]; [discriminate | lia].
    + split; [right; lia | reflexivity].
Qed.

End RunFacts.
(** X24.  [sieve_interpreter_run] answers TRUE exactly when its loop,
    after some number of turns whose operations all answered TRUE, is
    left through its condition; it answers FALSE exactly when, after such
    turns, one more operation is executed and answers FALSE, and the state
    handed back is the one that operation left, nothing being executed
    after it.  An operation answers FALSE when no opcode is fetched, when
    the opcode has no execute hook, or when the hook answers FALSE.  The
    loop is left through its condition when the stopped flag is set or
    the program counter is at or beyond [code_size]; with execute hooks
    that keep the program counter inside the code, that is when the
    stopped flag is set or [pc == code_size].  After
    [sieve_interpreter_stop] the condition fails wherever the program
    counter is, and the program counter is as before. *)
Theorem run_reports
    (sbin : sieve_binary_block)
    (sieve_operations : Z -> option sieve_operation_def)
    (interp0 : sieve_interpreter)
    (msgdata : sieve_message_data) (result : sieve_result) :
  let start := set_env (sieve_interpreter_reset interp0)
                       (Some msgdata) (Some result) in
  (forall out r,
      (exists fuel,
          sieve_interpreter_run sbin sieve_operations fuel interp0 msgdata result
          = Some (true, out, r))
      <-> exists n last,
            run_turns sbin sieve_operations n start last
            /\ run_continues sbin last = false
            /\ out = set_env last None None
            /\ r = runenv_result last)
  /\ (forall out r,
      (exists fuel,
          sieve_interpreter_run sbin sieve_operations fuel interp0 msgdata result
          = Some (false, out, r))
      <-> exists n last,
            run_turns sbin sieve_operations n start last
            /\ run_continues sbin last = true
            /\ sieve_interpreter_execute_operation sbin sieve_operations last
               = (false, out)
            /\ r = runenv_result out)
  /\ (forall interp,
      fst (sieve_interpreter_execute_operation sbin sieve_operations interp)
      = false
      <-> match sieve_operation_read sbin sieve_operations interp with
          | (None, _) => True
          | (Some opcode, interp1) =>
              match execute opcode with
              | None => True
              | Some e => fst (e interp1) = false
              end
          end)
  /\ (_code_size sbin < 2 ^ SIZE_BITS ->
      hooks_keep_pc_in_code sbin sieve_operations ->
      forall n last,
        run_turns sbin sieve_operations n start last ->
        (run_continues sbin last = false
         <-> stopped last = true
             \/ pc last = sieve_binary_get_code_size sbin))
  /\ (forall interp,
        run_continues sbin interp = false
        <-> stopped interp = true
            \/ sieve_binary_get_code_size sbin <= pc interp)
  /\ (forall interp,
        run_continues sbin (sieve_interpreter_stop interp) = false
        /\ pc (sieve_interpreter_stop interp) = pc interp).
Proof.
  intros start.
  unfold sieve_interpreter_run. fold start.
  split; [|split; [|split; [|split; [|split]]]].
  - intros out r. split.
    + intros [fuel H].
      destruct (run_while sbin sieve_operations fuel start)
        as [[b last]|] eqn:Hw; [|discriminate].
      destruct b; [|discriminate]. injection H as <- <-.
      destruct (run_while_turns _ _ _ _ _ _ Hw) as [n [last' [Ht [Hc ->]]]].
      exists n, last'. split; [exact Ht|]. split; [exact Hc|].
      split; reflexivity.
    + intros [n [last [Ht [Hexit [-> ->]]]]].
      exists (S n).
      rewrite (turns_run_while _ _ _ _ _ Ht) by lia.
      rewrite Hexit. reflexivity.
  - intros out r. split.
    + intros [fuel H].
      destruct (run_while sbin sieve_operations fuel start)
        as [[b last]|] eqn:Hw; [|discriminate].
      destruct b; [discriminate|]. injection H as <- <-.
      destruct (run_while_turns _ _ _ _ _ _ Hw) as [n [last' [Ht [Hc He]]]].
      exists n, last'. repeat split; assumption.
    + intros [n [last [Ht [Hc [He ->]]]]].
      exists (S n).
      rewrite (turns_run_while _ _ _ _ _ Ht) by lia.
      rewrite Hc, He. reflexivity.
  - intros interp. unfold sieve_interpreter_execute_operation.
    destruct (sieve_operation_read sbin sieve_operations interp)
      as [[opcode|] interp1];
      [|cbn; split; [intros _; exact I | reflexivity]].
    destruct (execute opcode) as [e|];
      [|cbn; split; [intros _; exact I | reflexivity]].
    split; intros He; exact He.
  - intros Hsize Hhooks n last Ht.
    apply continues_false.
    apply (turns_pc _ _ _ _ _ Ht Hsize Hhooks).
    unfold start, sieve_binary_get_code_size, _code_size, set_env,
      sieve_interpreter_reset. cbn [pc]. lia.
  - intros interp. unfold run_continues.
    destruct (stopped interp); cbn [negb andb].
    + split; [left; reflexivity | reflexivity].
    + destruct (Z.ltb_spec (pc interp) (sieve_binary_get_code_size sbin))
        as [Hlt|Hge].
      * split; [discriminate|]. intros [Hs|He]; [discriminate | lia].
      * split; [right; exact Hge | reflexivity].
  - intros interp. split; reflexivity.
Qed.

(** *** The keep operation *)

Lemma schar_of_small b : 0 <= b < 128 -> to_schar (to_uchar b) = b.
Proof.
  intros H. unfold to_schar, to_uchar.
  rewrite (Z.mod_small b) by lia. rewrite Z.mod_small; lia.
Qed.

Lemma run_while_S sbin sieve_operations fuel interp :
  run_while sbin sieve_operations (S fuel) interp
  = if run_continues sbin interp then
      let (ok, interp) :=
        sieve_interpreter_execute_operation sbin sieve_operations interp in
      if ok then run_while sbin sieve_operations fuel interp
      else Some (false, interp)
    else Some (true, interp).
Proof. reflexivity. Qed.

(** C9.  Let the program be the single opcode of keep, registered with
    [cmd_keep_operation]; let the helper for optional operands, with the
    cursor at the end of the code (no optional operand present), answer
    success with an empty list and consume nothing; let the Result
    collaborator hold no action and accept the one it is handed.  Then
    [sieve_interpreter_run] answers TRUE, the collaborator has received
    exactly one call, with the empty list of side effects and the source
    line of the operation, and the program counter is left at
    [code_size].  In general [cmd_keep_operation_execute] answers with a
    failure (a value that is not positive) exactly when the helper for
    optional operands fails or the collaborator rejects the action. *)
Theorem keep_program_run
    (exts : list sieve_extension)
    (sieve_operations : Z -> option sieve_operation_def)
    (sieve_runtime_get_source_location : Z -> Z)
    (sieve_interpreter_handle_optional_operands :
       sieve_interpreter -> Z * list sieve_side_effect * sieve_interpreter)
    (SIEVE_OPERATION_KEEP : Z)
    (sieve_code_dumper_print_optional_operands : hook)
    (interp0 : sieve_interpreter) (msgdata : sieve_message_data) :
  let keep_execute :=
    cmd_keep_operation_execute sieve_runtime_get_source_location
      sieve_interpreter_handle_optional_operands in
  let keep :=
    cmd_keep_operation sieve_runtime_get_source_location
      sieve_interpreter_handle_optional_operands SIEVE_OPERATION_KEEP
      sieve_code_dumper_print_optional_operands in
  let sbin := fst (sieve_binary_emit_byte (mk_block [] exts)
                                          SIEVE_OPERATION_KEEP) in
  let line := sieve_runtime_get_source_location (oprtn_address interp0) in
  0 <= SIEVE_OPERATION_KEEP < 128 ->
  1 < 2 ^ SIZE_BITS ->
  sieve_operations SIEVE_OPERATION_KEEP = Some keep ->
  (forall interp,
      pc interp = sieve_binary_get_code_size sbin ->
      sieve_interpreter_handle_optional_operands interp = (1, [], interp)) ->
  0 <= result_status [] (mk_keep_call [] line) ->
  (forall fuel, (2 <= fuel)%nat ->
     exists final,
       sieve_interpreter_run sbin sieve_operations fuel interp0 msgdata []
       = Some (true, final, Some [mk_keep_call [] line])
       /\ pc final = sieve_binary_get_code_size sbin
       /\ stopped final = false
       /\ derefs final = derefs interp0)
  /\ (forall interp,
        fst (keep_execute interp) <= 0
        <-> let '(ret, slist, interp1) :=
              sieve_interpreter_handle_optional_operands interp in
            ret <= 0
            \/ fst (sieve_result_add_keep interp1 slist
                      (sieve_runtime_get_source_location
                         (oprtn_address interp))) < 0).
Proof.
  intros keep_execute keep sbin line Htag Hsize Hreg Hopt Hstub.
  split.
  - intros fuel Hfuel.
    destruct fuel as [|[|fuel]]; try lia.
    assert (Hcs : sieve_binary_get_code_size sbin = 1) by reflexivity.
    assert (Hcs' : _code_size sbin = 1) by reflexivity.
    unfold sieve_interpreter_run. cbv zeta.
    set (start := set_env (sieve_interpreter_reset interp0)
                          (Some msgdata) (Some [])).
    set (interp1 := set_pc start 1).
    assert (Hfetch : sieve_operation_read sbin sieve_operations start
                     = (Some keep, interp1)).
    { unfold sieve_operation_read, at_pc, sieve_binary_read_code.
      rewrite bind_at, bytes_left_inside by (rewrite Hcs'; cbn; lia).
      cbn [fst snd]. rewrite Hcs'. cbn [address pc start set_env
        sieve_interpreter_reset Z.sub Z.geb Z.compare Z.opp Z.add].
      change (1 >=? 1) with true. cbv iota.
      unfold ADDR_CODE_AT. rewrite !bind_at.
      rewrite deref_inside by (rewrite Hcs'; cbn; lia).
      cbn [fst snd]. rewrite !ret_at. cbn [fst snd].
      rewrite (jump_inside sbin) by (rewrite Hcs'; cbn; lia).
      cbn [fst snd address stray data sbin sieve_binary_emit_byte
           _sieve_binary_emit_data with_data buffer_append app
           Z.to_nat nth].
      replace (to_uchar (to_uchar SIEVE_OPERATION_KEEP))
        with (to_uchar SIEVE_OPERATION_KEEP)
        by (unfold to_uchar; rewrite Z.mod_mod by lia; reflexivity).
      rewrite (schar_of_small _ Htag), Hreg. reflexivity. }
    assert (Hexec : keep_execute interp1
                    = (1, set_env interp1 (Some msgdata)
                            (Some [mk_keep_call [] line]))).
    { unfold keep_execute, cmd_keep_operation_execute.
      rewrite Hopt by reflexivity.
      destruct (Z.leb_spec 1 0); [lia|].
      unfold sieve_result_add_keep. cbn [runenv_result interp1 set_pc start
        set_env sieve_interpreter_reset oprtn_address runenv_msgdata app].
      fold line.
      destruct (Z.geb_spec (result_status [] (mk_keep_call [] line)) 0);
        [reflexivity | lia]. }
    set (interp2 := set_env interp1 (Some msgdata)
                            (Some [mk_keep_call [] line])).
    assert (Hrun : run_while sbin sieve_operations (S (S fuel)) start
                   = Some (true, interp2)).
    { assert (Hc0 : run_continues sbin start = true) by reflexivity.
      rewrite run_while_S, Hc0.
      unfold sieve_interpreter_execute_operation.
      rewrite Hfetch. cbn [execute keep cmd_keep_operation].
      unfold as_bool. fold keep_execute. rewrite Hexec.
      cbn [Z.eqb negb].
      rewrite run_while_S.
      assert (Hc2 : run_continues sbin interp2 = false) by reflexivity.
      fold interp2. rewrite Hc2. reflexivity. }
    exists (set_env interp2 None None).
    change (set_env (sieve_interpreter_reset interp0) (Some msgdata) (Some []))
      with start.
    rewrite Hrun.
    split; [reflexivity|].
    split; [reflexivity | split; reflexivity].
  - intros interp. unfold keep_execute, cmd_keep_operation_execute.
    destruct (sieve_interpreter_handle_optional_operands interp)
      as [[ret slist] interp1].
    destruct (Z.leb_spec ret 0) as [Hle|Hgt]; cbn [fst].
    + split; [intros _; left; exact Hle | intros _; exact Hle].
    + destruct (sieve_result_add_keep interp1 slist _) as [ret' interp2].
      cbn [fst].
      destruct (Z.geb_spec ret' 0) as [Hge|Hlt]; split; intros Hr; lia.
Qed.



(** *** The fixed-width reads are bounds-checked *)

(** X12.  With the cursor inside the code or at its end,
    [sieve_binary_read_byte], [sieve_binary_read_code] and
    [sieve_binary_read_offset] never dereference outside the code.  When
    fewer bytes are left than they need the cursor stays where it is:
    [sieve_binary_read_offset] answers FALSE; [sieve_binary_read_byte]
    and [sieve_binary_read_code] store 0 through their out parameter and
    answer FALSE, and with a NULL out parameter that store goes through
    the NULL pointer. *)
Theorem fixed_width_reads_checked sblock c (out_r : option Z) :
  _code_size sblock < 2 ^ SIZE_BITS ->
  0 <= address c <= _code_size sblock ->
  stray (snd (sieve_binary_read_byte sblock out_r c)) = stray c
  /\ stray (snd (sieve_binary_read_code sblock out_r c)) = stray c
  /\ stray (snd (sieve_binary_read_offset sblock c)) = stray c
  /\ (_code_size sblock - address c < 1 ->
      (forall old,
          out_r = Some old ->
          sieve_binary_read_byte sblock out_r c = (Some (false, Some 0), c)
          /\ sieve_binary_read_code sblock out_r c = (Some (false, Some 0), c))
      /\ (out_r = None ->
          sieve_binary_read_byte sblock out_r c = (None, c)
          /\ sieve_binary_read_code sblock out_r c = (None, c)))
  /\ (_code_size sblock - address c < 4 ->
      sieve_binary_read_offset sblock c = (None, c)).
Proof.
  intros Hsize Hc.
  assert (Hbyte : stray (snd (sieve_binary_read_byte sblock out_r c)) = stray c
                  /\ (_code_size sblock - address c < 1 ->
                      sieve_binary_read_byte sblock out_r c
                      = (match out_r with
                         | Some _ => Some (false, Some 0)
                         | None => None
                         end, c))).
  { unfold sieve_binary_read_byte.
    rewrite bind_at, bytes_left_inside by lia. cbn [fst snd].
    destruct (Z.geb_spec (_code_size sblock - address c) 1).
    - destruct out_r as [old|].
      + unfold ADDR_DATA_AT. rewrite !bind_at, deref_inside by lia.
        cbn [fst snd]. rewrite !ret_at. cbn [fst snd].
        rewrite (jump_inside sblock) by lia.
        split; [reflexivity | lia].
      + rewrite !bind_at, !ret_at. cbn [fst snd].
        rewrite (jump_inside sblock) by lia.
        split; [reflexivity | lia].
    - destruct out_r; split; reflexivity. }
  assert (Hcode : stray (snd (sieve_binary_read_code sblock out_r c)) = stray c
                  /\ (_code_size sblock - address c < 1 ->
                      sieve_binary_read_code sblock out_r c
                      = (match out_r with
                         | Some _ => Some (false, Some 0)
                         | None => None
                         end, c))).
  { unfold sieve_binary_read_code.
    rewrite bind_at, bytes_left_inside by lia. cbn [fst snd].
    destruct (Z.geb_spec (_code_size sblock - address c) 1).
    - destruct out_r as [old|].
      + unfold ADDR_CODE_AT. rewrite !bind_at, deref_inside by lia.
        cbn [fst snd]. rewrite !ret_at. cbn [fst snd].
        rewrite (jump_inside sblock) by lia.
        split; [reflexivity | lia].
      + rewrite !bind_at, !ret_at. cbn [fst snd].
        rewrite (jump_inside sblock) by lia.
        split; [reflexivity | lia].
    - destruct out_r; split; reflexivity. }
  destruct Hbyte as [Hb1 Hb2]. destruct Hcode as [Hc1 Hc2].
  split; [exact Hb1|]. split; [exact Hc1|].
  assert (Hoffset : stray (snd (sieve_binary_read_offset sblock c)) = stray c
                    /\ (_code_size sblock - address c < 4 ->
                        sieve_binary_read_offset sblock c = (None, c))).
  { destruct (read_offset_cases sblock c Hsize Hc)
      as [[Hleft [offset [_ Hrd]]] | [Hleft Hrd]]; rewrite Hrd; cbn [snd stray].
    - split; [reflexivity | lia].
    - split; reflexivity. }
  destruct Hoffset as [Ho1 Ho2].
  split; [exact Ho1|]. split; [|exact Ho2].
  intros Hleft. split.
  - intros old ->. split; [exact (Hb2 Hleft) | exact (Hc2 Hleft)].
  - intros ->. split; [exact (Hb2 Hleft) | exact (Hc2 Hleft)].
Qed.

(** ** Further properties of the writer and the reader *)

Lemma schar_of_uchar b : to_schar (to_uchar b) = to_schar b.
Proof. unfold to_schar, to_uchar. rewrite Z.add_mod_idemp_l by lia. reflexivity. Qed.

Lemma uchar_of_uchar b : to_uchar (to_uchar b) = to_uchar b.
Proof. unfold to_uchar. apply Z.mod_mod. lia. Qed.

(** X1.  [sieve_binary_emit_offset] followed by [sieve_binary_read_offset] at
    the address that was returned gives back every [int], the negative
    ones included, whatever is emitted afterwards. *)
Theorem emit_offset_read_offset
    (sblock : sieve_binary_block) (offset : Z) (post stray0 : list Z) :
  - 2 ^ 31 <= offset <= INT_MAX ->
  Z.of_nat (length (data sblock)) + 4 + Z.of_nat (length post) < 2 ^ SIZE_BITS ->
  let sblock1 := fst (sieve_binary_emit_offset sblock offset) in
  let A := snd (sieve_binary_emit_offset sblock offset) in
  A = _sieve_binary_block_get_size sblock
  /\ length (data sblock1) = (length (data sblock) + 4)%nat
  /\ firstn (length (data sblock)) (data sblock1) = data sblock
  /\ sieve_binary_read_offset (_sieve_binary_emit_data sblock1 post)
       (mk_cursor A stray0)
     = (Some offset, mk_cursor (A + 4) stray0).
Proof.
  intros Hoff Hsize. cbv zeta. unfold sieve_binary_emit_offset. cbv zeta.
  unfold _sieve_binary_emit_data, buffer_append, with_data.
  cbn [fst snd data sbin_extensions]. rewrite <- !app_assoc. cbn [app].
  split; [reflexivity|]. split; [rewrite length_app; reflexivity|].
  split; [rewrite firstn_app, firstn_all, Nat.sub_diag, firstn_0, app_nil_r;
          reflexivity|].
  rewrite (read_offset_inside _ (data sblock) (offset_byte offset 3)
             (offset_byte offset 2) (offset_byte offset 1)
             (offset_byte offset 0) post);
    try solve [reflexivity | apply offset_byte_range].
  - rewrite offset_bytes_value by exact Hoff. reflexivity.
  - unfold _code_size. cbn [data]. rewrite length_app. simpl length. lia.
Qed.

(** X2.  A byte written by [sieve_binary_emit_byte] is read back by
    [sieve_binary_read_byte] as the unsigned and by
    [sieve_binary_read_code] as the signed value of its low eight bits;
    both move the cursor by one.  They answer TRUE also with a NULL out
    parameter, which then receives nothing. *)
Theorem emit_byte_read_byte
    (sblock : sieve_binary_block) (byte : Z) (post stray0 : list Z)
    (out_r : option Z) :
  Z.of_nat (length (data sblock)) + 1 + Z.of_nat (length post) < 2 ^ SIZE_BITS ->
  let sblock1 := fst (sieve_binary_emit_byte sblock byte) in
  let A := snd (sieve_binary_emit_byte sblock byte) in
  A = _sieve_binary_block_get_size sblock
  /\ data sblock1 = data sblock ++ [byte mod 256]
  /\ sieve_binary_read_byte (_sieve_binary_emit_data sblock1 post) out_r
       (mk_cursor A stray0)
     = (Some (true, option_map (fun _ => byte mod 256) out_r),
        mk_cursor (A + 1) stray0)
  /\ sieve_binary_read_code (_sieve_binary_emit_data sblock1 post) out_r
       (mk_cursor A stray0)
     = (Some (true, option_map (fun _ => (byte + 128) mod 256 - 128) out_r),
        mk_cursor (A + 1) stray0).
Proof.
  intros Hsize. cbv zeta. unfold sieve_binary_emit_byte. cbv zeta.
  unfold _sieve_binary_emit_data, buffer_append, with_data.
  cbn [fst snd data sbin_extensions]. rewrite <- !app_assoc. cbn [app].
  set (sb := mk_block (data sblock ++ to_uchar byte :: post) (sbin_extensions sblock)).
  assert (Hlen : _code_size sb
                 = Z.of_nat (length (data sblock)) + 1 + Z.of_nat (length post)).
  { unfold _code_size, sb. cbn [data]. rewrite length_app. simpl length. lia. }
  set (c := mk_cursor (_sieve_binary_block_get_size sblock) stray0).
  assert (Hc : address c = Z.of_nat (length (data sblock))) by reflexivity.
  assert (Hnth : nth (Z.to_nat (address c)) (data sb) 0 = to_uchar byte).
  { rewrite Hc. unfold sb. cbn [data]. apply nth_middle_Z. }
  split; [reflexivity|]. split; [reflexivity|]. split.
  - unfold sieve_binary_read_byte.
    rewrite bind_at, bytes_left_inside by lia. cbn [fst snd].
    destruct (Z.geb_spec (_code_size sb - address c) 1); [|lia].
    destruct out_r as [old|]; cbn [option_map].
    + unfold ADDR_DATA_AT. rewrite !bind_at, deref_inside by lia.
      cbn [fst snd]. rewrite !ret_at. cbn [fst snd].
      rewrite (jump_inside sb) by lia. cbn [fst snd].
      rewrite Hnth, uchar_of_uchar. reflexivity.
    + rewrite !bind_at, !ret_at. cbn [fst snd].
      rewrite (jump_inside sb) by lia. reflexivity.
  - unfold sieve_binary_read_code.
    rewrite bind_at, bytes_left_inside by lia. cbn [fst snd].
    destruct (Z.geb_spec (_code_size sb - address c) 1); [|lia].
    destruct out_r as [old|]; cbn [option_map].
    + unfold ADDR_CODE_AT. rewrite !bind_at, deref_inside by lia.
      cbn [fst snd]. rewrite !ret_at. cbn [fst snd].
      rewrite (jump_inside sb) by lia. cbn [fst snd].
      rewrite Hnth, uchar_of_uchar, schar_of_uchar. reflexivity.
    + rewrite !bind_at, !ret_at. cbn [fst snd].
      rewrite (jump_inside sb) by lia. reflexivity.
Qed.

Lemma groups_positive n v :
  0 < v -> (0 < n)%nat -> groups n v <> [].
Proof.
  intros Hv Hn. destruct n as [|n]; [lia|]. simpl.
  destruct (Z.gtb_spec v 0) as [_|Hle]; [|lia].
  intros Hnil. apply app_eq_nil in Hnil. destruct Hnil as [_ Hnil]. discriminate.
Qed.

(** X3.  [sieve_binary_emit_integer] either appends between one and
    [sizeof(sieve_number_t) + 1] bytes to the buffer, keeping what the
    buffer held and returning the old size, or stores outside its scratch
    array; the second happens exactly for the values of
    [7 * (sizeof(sieve_number_t) + 1)] bits and more.  A value below 128
    takes one byte. *)
Theorem emit_integer_outcome (sblock : sieve_binary_block) (v : Z) :
  0 <= NUMBER_BYTES ->
  0 <= v ->
  (sieve_binary_emit_integer sblock v = None
   <-> 2 ^ (7 * (NUMBER_BYTES + 1)) <= v)
  /\ (forall sblock1 A,
        sieve_binary_emit_integer sblock v = Some (sblock1, A) ->
        A = _sieve_binary_block_get_size sblock
        /\ sbin_extensions sblock1 = sbin_extensions sblock
        /\ exists bytes,
             data sblock1 = data sblock ++ bytes
             /\ 1 <= Z.of_nat (length bytes) <= NUMBER_BYTES + 1
             /\ (v < 128 <-> length bytes = 1%nat)).
Proof.
  intros HW Hv.
  destruct (Z.lt_ge_cases v (2 ^ (7 * (NUMBER_BYTES + 1)))) as [Hfit|Hbig].
  - rewrite emit_integer_emits by lia. split.
    + split; [discriminate | lia].
    + intros sblock1 A Hemit. injection Hemit as <- <-.
      split; [reflexivity|]. split; [reflexivity|].
      exists (emitted_integer v). split; [reflexivity|].
      rewrite emitted_integer_length.
      set (n := Z.to_nat (NUMBER_BYTES + 1)).
      assert (Hhi : 0 <= Z.shiftr v 7 < 2 ^ (7 * Z.of_nat (Z.to_nat NUMBER_BYTES))).
      { apply high_groups_bound. rewrite Z2Nat.id by lia. lia. }
      pose proof (groups_length n _ _ Hhi) as Hlen.
      split; [lia|].
      split.
      * intros Hsmall.
        assert (Hz : Z.shiftr v 7 = 0)
          by (rewrite shiftr_7; apply Z.div_small; lia).
        rewrite Hz. unfold n. destruct (Z.to_nat (NUMBER_BYTES + 1)); reflexivity.
      * intros Hone.
        destruct (Z.lt_ge_cases v 128) as [Hlt|Hge]; [exact Hlt|].
        exfalso.
        assert (Hpos : 0 < Z.shiftr v 7).
        { rewrite shiftr_7. apply Z.div_str_pos. lia. }
        apply (groups_positive n _ Hpos); [unfold n; lia|].
        destruct (groups n (Z.shiftr v 7)); [reflexivity | discriminate].
  - rewrite emit_integer_overflows by lia. split.
    + split; [intros _; exact Hbig | reflexivity].
    + intros sblock1 A Hemit. discriminate.
Qed.

(** *** What [sieve_binary_read_integer] accepts and what it refuses *)

Lemma mod_multiple_128 a M :
  0 < M -> M mod 128 = 0 -> 0 <= a ->
  exists k, 0 <= k /\ (a * 128) mod M = k * 128 /\ k * 128 + 128 <= M.
Proof.
  intros HM Hdiv Ha.
  apply Z.mod_divide in Hdiv; [|lia]. destruct Hdiv as [m Hm].
  assert (Hmpos : 0 < m) by lia.
  exists (a mod m). split; [apply Z.mod_pos_bound; lia|].
  split.
  - rewrite Hm. rewrite Z.mul_mod_distr_r by lia. reflexivity.
  - pose proof (Z.mod_pos_bound a m Hmpos). nia.
Qed.

(** The loop on continuation groups whose accumulated value wraps. *)
Lemma read_integer_while_wraps sblock l post :
  _code_size sblock < 2 ^ SIZE_BITS ->
  0 <= l < 128 ->
  0 < 2 ^ NUMBER_BITS ->
  (2 ^ NUMBER_BITS) mod 128 = 0 ->
  forall g pre fuel bits a c,
    data sblock = pre ++ map marked g ++ l :: post ->
    address c = Z.of_nat (length pre) ->
    Forall (fun x => 0 <= x < 128) g ->
    0 <= a ->
    7 * Z.of_nat (length g) < bits + 7 ->
    (length g <= fuel)%nat ->
    read_integer_while sblock fuel bits ((a * 128) mod 2 ^ NUMBER_BITS) c
    = (Some (true, (groups_value a g * 128 + l) mod 2 ^ NUMBER_BITS),
       mk_cursor (address c + Z.of_nat (length g) + 1) (stray c)).
Proof.
  intros Hsize Hl HM Hdiv.
  induction g as [|x g IH]; intros pre fuel bits a c Hdata Hc Hg Ha Hbits Hfuel.
  - simpl in Hdata.
    assert (Hlen : Z.of_nat (length pre) < _code_size sblock).
    { unfold _code_size. rewrite Hdata, length_app. simpl length. lia. }
    destruct (mod_multiple_128 a _ HM Hdiv Ha) as [k [Hk [Hacc Hroom]]].
    rewrite read_integer_while_eq. unfold ADDR_DATA_AT.
    rewrite bind_at, deref_inside by lia. cbn [fst snd].
    rewrite Hc, Hdata, nth_middle_Z.
    assert (Hb : to_uchar l = l) by (unfold to_uchar; apply Z.mod_small; lia).
    rewrite Hb, continuation_bit by lia.
    destruct (Z.leb_spec 128 l); [lia|].
    rewrite bind_at, deref_inside by lia. cbn [fst snd].
    rewrite Hc, Hdata, nth_middle_Z, Hb.
    rewrite bind_at, (jump_inside sblock) by lia. cbn [fst snd].
    unfold ret. rewrite land_7F, (Z.mod_small l) by lia.
    rewrite Hacc, lor_group by lia.
    unfold groups_value. simpl fold_left.
    rewrite <- Hacc.
    replace ((a * 128) mod 2 ^ NUMBER_BITS + l)
      with ((a * 128 + l) mod 2 ^ NUMBER_BITS).
    + simpl length. rewrite Hc. do 2 f_equal. lia.
    + rewrite <- Z.add_mod_idemp_l by lia. rewrite Hacc.
      apply Z.mod_small. lia.
  - simpl in Hdata. inversion Hg as [|? ? Hx Hg']; subst.
    assert (Hlen : Z.of_nat (length pre) + 1 < _code_size sblock).
    { unfold _code_size. rewrite Hdata, length_app. simpl length.
      rewrite length_app. simpl length. lia. }
    assert (Hb : to_uchar (marked x) = x + 128).
    { rewrite marked_group by lia. unfold to_uchar. apply Z.mod_small. lia. }
    destruct (mod_multiple_128 a _ HM Hdiv Ha) as [k [Hk [Hacc Hroom]]].
    rewrite read_integer_while_eq. unfold ADDR_DATA_AT.
    rewrite bind_at, deref_inside by lia. cbn [fst snd].
    rewrite Hc, Hdata, nth_middle_Z, Hb, continuation_bit by lia.
    destruct (Z.leb_spec 128 (x + 128)); [|lia].
    rewrite bind_at, bytes_left_inside by lia. cbn [fst snd].
    simpl length in Hbits.
    destruct (Z.gtb_spec (_code_size sblock - address c) 0); [|lia].
    destruct (Z.gtb_spec bits 0); [|lia].
    cbn [andb].
    rewrite bind_at, deref_inside by lia. cbn [fst snd].
    rewrite Hc, Hdata, nth_middle_Z, Hb.
    rewrite bind_at, (jump_inside sblock) by lia. cbn [fst snd]. cbv zeta.
    rewrite land_7F.
    replace ((x + 128) mod 128) with x
      by (rewrite <- Z.add_mod_idemp_r, Z.mod_same, Z.add_0_r, Z.mod_small; lia).
    rewrite Hacc, lor_group, shiftl_7 by lia.
    unfold number_wrap.
    replace ((k * 128 + x) * 128 mod 2 ^ NUMBER_BITS)
      with (((a * 128 + x) * 128) mod 2 ^ NUMBER_BITS).
    + destruct fuel as [|fuel]; [simpl in Hfuel; lia|].
      rewrite (IH (pre ++ [marked x]) fuel (bits - 7) (a * 128 + x)).
      * cbn [address stray]. simpl length.
        change (groups_value a (x :: g)) with (groups_value (a * 128 + x) g).
        do 2 f_equal. lia.
      * rewrite <- app_assoc. exact Hdata.
      * cbn [address]. rewrite length_app. simpl length. lia.
      * exact Hg'.
      * lia.
      * lia.
      * simpl in Hfuel. lia.
    + rewrite <- Hacc.
      rewrite <- (Z.mul_mod_idemp_l (a * 128 + x)) by lia.
      rewrite <- (Z.add_mod_idemp_l (a * 128)) by lia.
      rewrite Z.mul_mod_idemp_l by lia. reflexivity.
Qed.

(** X4.  [sieve_binary_read_integer] accepts every run of continuation groups
    that passes its [bits] test, followed by a last group: the minimal
    encoding, encodings with leading empty groups (0x80), and encodings
    of more bits than the type has.  The value it stores is the base-128
    value of the groups cut to the width of [sieve_number_t]. *)
Theorem read_integer_decodes_modulo
    (sblock : sieve_binary_block) (pre gs : list Z) (l : Z) (post : list Z)
    (c : cursor) :
  1 <= NUMBER_BYTES ->
  _code_size sblock < 2 ^ SIZE_BITS ->
  data sblock = pre ++ map (fun x => Z.lor x 0x80) gs ++ l :: post ->
  address c = Z.of_nat (length pre) ->
  Forall (fun x => 0 <= x < 128) gs ->
  0 <= l < 128 ->
  7 * Z.of_nat (length gs) < NUMBER_BITS + 7 ->
  sieve_binary_read_integer sblock c
  = (true, groups_value 0 (gs ++ [l]) mod 2 ^ NUMBER_BITS,
     mk_cursor (address c + Z.of_nat (length gs) + 1) (stray c)).
Proof.
  intros HW Hsize Hdata Hc Hgs Hl Hlen.
  assert (Hdiv : (2 ^ NUMBER_BITS) mod 128 = 0).
  { unfold NUMBER_BITS.
    replace (8 * NUMBER_BYTES) with (7 + (8 * NUMBER_BYTES - 7)) by lia.
    rewrite Z.pow_add_r by lia. change (2 ^ 7) with 128.
    rewrite Z.mul_comm. apply Z.mod_mul. lia. }
  assert (HM : 0 < 2 ^ NUMBER_BITS)
    by (apply Z.pow_pos_nonneg; unfold NUMBER_BITS; lia).
  assert (Hin : Z.of_nat (length pre) < _code_size sblock).
  { unfold _code_size. rewrite Hdata, !length_app. simpl length. lia. }
  assert (Hrun : read_integer_while sblock (Z.to_nat NUMBER_BITS) NUMBER_BITS 0 c
                 = (Some (true, (groups_value 0 gs * 128 + l) mod 2 ^ NUMBER_BITS),
                    mk_cursor (address c + Z.of_nat (length gs) + 1) (stray c))).
  { change 0 with ((0 * 128) mod 2 ^ NUMBER_BITS) at 1.
    apply (read_integer_while_wraps sblock l post Hsize Hl HM Hdiv gs pre);
      try assumption; try lia; unfold NUMBER_BITS in *; lia. }
  unfold sieve_binary_read_integer. cbv zeta.
  rewrite bind_at, bytes_left_inside by lia. cbn [fst snd].
  destruct (Z.eqb_spec (_code_size sblock - address c) 0); [lia|].
  rewrite bind_at, Hrun. cbn [fst snd]. rewrite ret_at.
  rewrite groups_value_app. reflexivity.
Qed.

Lemma read_integer_while_refuses sblock :
  _code_size sblock < 2 ^ SIZE_BITS ->
  forall g pre rest fuel bits int_r c,
    data sblock = pre ++ map marked g ++ rest ->
    address c = Z.of_nat (length pre) ->
    Forall (fun x => 0 <= x < 128) g ->
    - 7 < bits ->
    bits + 7 <= 7 * Z.of_nat (length g) ->
    bits <= Z.of_nat fuel ->
    exists k int_r',
      read_integer_while sblock fuel bits int_r c
      = (Some (false, int_r'), mk_cursor (address c + k) (stray c))
      /\ 0 <= k /\ bits <= 7 * k < bits + 7.
Proof.
  intros Hsize.
  induction g as [|x g IH]; intros pre rest fuel bits int_r c Hdata Hc Hg Hlo Hlong Hfuel.
  - simpl in Hlong. lia.
  - simpl in Hdata. inversion Hg as [|? ? Hx Hg']; subst.
    assert (Hlen : Z.of_nat (length pre) < _code_size sblock).
    { unfold _code_size. rewrite Hdata, length_app. simpl length. lia. }
    assert (Hb : to_uchar (marked x) = x + 128).
    { rewrite marked_group by lia. unfold to_uchar. apply Z.mod_small. lia. }
    assert (Hnth : nth (Z.to_nat (address c)) (data sblock) 0 = marked x)
      by (rewrite Hc, Hdata; apply nth_middle_Z).
    rewrite read_integer_while_eq. unfold ADDR_DATA_AT.
    rewrite bind_at, deref_inside by lia. cbn [fst snd].
    rewrite Hnth, Hb, continuation_bit by lia.
    destruct (Z.leb_spec 128 (x + 128)); [|lia].
    rewrite bind_at, bytes_left_inside by lia. cbn [fst snd].
    destruct (Z.gtb_spec (_code_size sblock - address c) 0); [|lia].
    cbn [andb]. simpl length in Hlong.
    destruct (Z.gtb_spec bits 0) as [Hpos|Hnon].
    + rewrite bind_at, deref_inside by lia. cbn [fst snd].
      rewrite bind_at, (jump_inside sblock) by lia. cbn [fst snd]. cbv zeta.
      destruct fuel as [|fuel]; [simpl in Hfuel; lia|].
      rewrite Hnth, Hb.
      destruct (IH (pre ++ [marked x]) rest fuel (bits - 7)
                  (number_wrap (Z.shiftl (Z.lor int_r (Z.land (x + 128) 127)) 7))
                  (mk_cursor (address c + 1) (stray c)))
        as [k [r [Hrun [Hk Hk7]]]]; try lia.
      * rewrite <- app_assoc. exact Hdata.
      * cbn [address]. rewrite length_app. simpl length. lia.
      * exact Hg'.
      * exists (k + 1), r. rewrite Hrun. cbn [address stray].
        split; [do 2 f_equal; lia | lia].
    + exists 0, int_r. rewrite ret_at, Z.add_0_r.
      split; [destruct c; reflexivity | lia].
Qed.

(** X5.  [sieve_binary_read_integer] refuses a run of continuation groups one
    longer than [ceil(width/7)]: it answers FALSE after it has consumed
    [ceil(width/7)] of them, without a dereference outside the code. *)
Theorem read_integer_refuses_long
    (sblock : sieve_binary_block) (pre gs rest : list Z) (c : cursor) :
  0 <= NUMBER_BYTES ->
  _code_size sblock < 2 ^ SIZE_BITS ->
  data sblock = pre ++ map (fun x => Z.lor x 0x80) gs ++ rest ->
  address c = Z.of_nat (length pre) ->
  Forall (fun x => 0 <= x < 128) gs ->
  NUMBER_BITS + 7 <= 7 * Z.of_nat (length gs) ->
  exists k,
    fst (fst (sieve_binary_read_integer sblock c)) = false
    /\ snd (sieve_binary_read_integer sblock c)
       = mk_cursor (address c + k) (stray c)
    /\ NUMBER_BITS <= 7 * k < NUMBER_BITS + 7.
Proof.
  intros HW Hsize Hdata Hc Hgs Hlong.
  assert (Hin : Z.of_nat (length pre) < _code_size sblock).
  { unfold _code_size. rewrite Hdata, !length_app, length_map.
    unfold NUMBER_BITS in Hlong. lia. }
  destruct (read_integer_while_refuses sblock Hsize gs pre rest
              (Z.to_nat NUMBER_BITS) NUMBER_BITS 0 c)
    as [k [r [Hrun [Hk Hk7]]]]; try assumption;
    try (unfold NUMBER_BITS in *; lia).
  exists k.
  unfold sieve_binary_read_integer. cbv zeta.
  rewrite bind_at, bytes_left_inside by lia. cbn [fst snd].
  destruct (Z.eqb_spec (_code_size sblock - address c) 0); [lia|].
  rewrite bind_at, Hrun. cbn [fst snd]. rewrite ret_at.
  split; [reflexivity|]. split; [reflexivity | exact Hk7].
Qed.

(** X6.  [sieve_binary_read_string] answers FALSE when the length prefix
    announces more bytes than are left in the code; it stops after the
    prefix and has dereferenced nothing outside the code. *)
Theorem read_string_refuses_long_length
    (sblock : sieve_binary_block) (pre rest : list Z) (n : Z) (c : cursor) :
  _code_size sblock < 2 ^ SIZE_BITS ->
  data sblock = pre ++ emitted_integer n ++ rest ->
  address c = Z.of_nat (length pre) ->
  0 <= n < 2 ^ NUMBER_BITS ->
  n < 2 ^ (7 * (NUMBER_BYTES + 1)) ->
  n <= UINT_MAX ->
  Z.of_nat (length rest) < n ->
  sieve_binary_read_string sblock c
  = (None,
     mk_cursor (address c + Z.of_nat (length (emitted_integer n))) (stray c)).
Proof.
  intros Hsize Hdata Hc Hn Hfit Hu Hshort.
  assert (Hlen : _code_size sblock
                 = Z.of_nat (length pre) + Z.of_nat (length (emitted_integer n))
                   + Z.of_nat (length rest)).
  { unfold _code_size. rewrite Hdata, !length_app. lia. }
  unfold sieve_binary_read_string, sieve_binary_read_unsigned.
  rewrite !bind_at.
  rewrite (read_integer_emitted sblock pre rest n c) by assumption.
  cbn [fst snd]. rewrite !ret_at. cbn [fst snd negb].
  unfold to_uint. rewrite Z.mod_small by (unfold UINT_MAX in Hu; lia).
  rewrite bind_at, bytes_left_inside by (cbn [address]; lia).
  cbn [fst snd address].
  destruct (Z.gtb_spec n (_code_size sblock
                          - (address c + Z.of_nat (length (emitted_integer n)))));
    [reflexivity | lia].
Qed.

(** *** C strings *)

Lemma strlen_first_zero (s tail : list Z) :
  Forall (fun b => b <> 0) s ->
  strlen (s ++ 0 :: tail) = Some (length s).
Proof.
  induction 1 as [|b s Hb Hs IH]; [reflexivity|].
  simpl. destruct (Z.eqb_spec b 0); [contradiction|].
  rewrite IH. reflexivity.
Qed.

(** X7.  [sieve_binary_emit_cstring] emits the bytes before the first zero
    byte of its argument, and only those, just as
    [sieve_binary_emit_string] emits a string made of them; so
    [sieve_binary_read_string] gives back the C string up to its end and
    nothing of what follows it in memory. *)
Theorem emit_cstring_read_string
    (sblock : sieve_binary_block) (s tail : list Z) :
  Forall (fun b => 0 < b < 256) s ->
  sieve_binary_emit_cstring sblock (s ++ 0 :: tail)
  = sieve_binary_emit_string sblock s
  /\ (Z.of_nat (length s) < 2 ^ NUMBER_BITS ->
      Z.of_nat (length s) < 2 ^ (7 * (NUMBER_BYTES + 1)) ->
      Z.of_nat (length s) <= UINT_MAX ->
      exists sblock1 A,
        sieve_binary_emit_cstring sblock (s ++ 0 :: tail) = Some (sblock1, A)
        /\ A = _sieve_binary_block_get_size sblock
        /\ forall post stray0,
             Z.of_nat (length (data sblock1 ++ post)) < 2 ^ SIZE_BITS ->
             sieve_binary_read_string (_sieve_binary_emit_data sblock1 post)
               (mk_cursor A stray0)
             = (Some s, mk_cursor (_sieve_binary_block_get_size sblock1) stray0)).
Proof.
  intros Hs.
  assert (Hnz : Forall (fun b => b <> 0) s)
    by (eapply Forall_impl; [|exact Hs]; cbv beta; intros; lia).
  assert (Hby : Forall (fun b => 0 <= b < 256) s)
    by (eapply Forall_impl; [|exact Hs]; cbv beta; intros; lia).
  assert (Heq : sieve_binary_emit_cstring sblock (s ++ 0 :: tail)
                = sieve_binary_emit_string sblock s).
  { unfold sieve_binary_emit_cstring, sieve_binary_emit_string.
    rewrite strlen_first_zero by exact Hnz.
    rewrite firstn_app, firstn_all, Nat.sub_diag, firstn_0, app_nil_r.
    reflexivity. }
  split; [exact Heq|].
  intros Hv Hfit Hu. rewrite Heq, emit_string_emits by lia.
  eexists. eexists. split; [reflexivity|]. split; [reflexivity|].
  intros post stray0 Hsize.
  unfold _sieve_binary_emit_data, buffer_append, with_data in *.
  cbn [data sbin_extensions] in *.
  rewrite (read_string_at _ (data sblock) s 0 post);
    try solve [assumption | reflexivity | lia].
  - cbn [Z.eqb address stray]. f_equal. f_equal.
    unfold _sieve_binary_block_get_size. cbn [data].
    rewrite !length_app. simpl length. lia.
  - cbn [data]. rewrite <- !app_assoc. reflexivity.
Qed.

(** *** Extension objects *)

(** X8.  What [sieve_binary_emit_extension_object] writes for the member
    [code] of a table, [sieve_binary_read_extension_object] resolves to
    that member: no byte at all for a table of one member, one selector
    byte for a larger table; the cursor ends where the writer stopped. *)
Theorem extension_object_round_trip
    {O : Type} (sblock : sieve_binary_block) (objs : list O) (code : Z)
    (post stray0 : list Z) :
  0 <= code < Z.of_nat (length objs) ->
  code < 256 ->
  Z.of_nat (length (data sblock)) + 1 + Z.of_nat (length post) < 2 ^ SIZE_BITS ->
  let sblock1 := sieve_binary_emit_extension_object sblock objs code in
  length (data sblock1)
  = (length (data sblock) + if Z.of_nat (length objs) >? 1 then 1 else 0)%nat
  /\ sieve_binary_read_extension_object (_sieve_binary_emit_data sblock1 post)
       objs (mk_cursor (_sieve_binary_block_get_size sblock) stray0)
     = (nth_error objs (Z.to_nat code),
        mk_cursor (_sieve_binary_block_get_size sblock1) stray0).
Proof.
  intros Hcode Hbyte Hsize. cbv zeta.
  unfold sieve_binary_emit_extension_object, sieve_binary_read_extension_object.
  cbv zeta.
  destruct (Z.eqb_spec (Z.of_nat (length objs)) 0) as [H0|Hn0]; [lia|].
  destruct (Z.eqb_spec (Z.of_nat (length objs)) 1) as [H1|Hn1].
  - destruct (Z.gtb_spec (Z.of_nat (length objs)) 1); [lia|].
    split; [lia|]. rewrite ret_at.
    replace code with 0 by lia. reflexivity.
  - destruct (Z.gtb_spec (Z.of_nat (length objs)) 1); [|lia].
    unfold _sieve_binary_emit_byte, _sieve_binary_emit_data, buffer_append,
      with_data, _sieve_binary_block_get_size.
    cbn [data sbin_extensions]. rewrite <- !app_assoc. cbn [app].
    split; [rewrite length_app; reflexivity|].
    set (sb := mk_block (data sblock ++ to_uchar code :: post)
                        (sbin_extensions sblock)).
    set (c := mk_cursor (Z.of_nat (length (data sblock))) stray0).
    assert (Hlen : _code_size sb
                   = Z.of_nat (length (data sblock)) + 1
                     + Z.of_nat (length post)).
    { unfold _code_size, sb. cbn [data]. rewrite length_app. simpl length. lia. }
    assert (Hc : address c = Z.of_nat (length (data sblock))) by reflexivity.
    assert (Hnth : nth (Z.to_nat (address c)) (data sb) 0 = to_uchar code).
    { rewrite Hc. unfold sb. cbn [data]. apply nth_middle_Z. }
    rewrite bind_at, bytes_left_inside by lia. cbn [fst snd].
    destruct (Z.leb_spec (_code_size sb - address c) 0); [lia|].
    unfold ADDR_DATA_AT. rewrite bind_at, deref_inside by lia. cbn [fst snd].
    rewrite bind_at, (jump_inside sb) by lia. cbn [fst snd].
    rewrite Hnth, uchar_of_uchar.
    assert (Hu : to_uchar code = code) by (unfold to_uchar; apply Z.mod_small; lia).
    rewrite Hu.
    destruct (Z.geb_spec code (Z.of_nat (length objs))); [lia|].
    rewrite ret_at. f_equal. unfold c. cbn [address stray]. f_equal.
    rewrite length_app. simpl length. lia.
Qed.

(** X9.  [sieve_binary_read_extension_object] answers NULL for an empty table
    without looking at the code, and for a table of two or more members
    when no byte is left or when the selector byte is not below the
    number of members; in the last case the selector byte is consumed. *)
Theorem read_extension_object_refuses
    {O : Type} (sblock : sieve_binary_block) (objs : list O) (c : cursor) :
  _code_size sblock < 2 ^ SIZE_BITS ->
  0 <= address c <= _code_size sblock ->
  (objs = [] ->
   sieve_binary_read_extension_object sblock objs c = (None, c))
  /\ ((2 <= length objs)%nat ->
      address c = _code_size sblock ->
      sieve_binary_read_extension_object sblock objs c = (None, c))
  /\ ((2 <= length objs)%nat ->
      address c < _code_size sblock ->
      Z.of_nat (length objs)
        <= to_uchar (nth (Z.to_nat (address c)) (data sblock) 0) ->
      sieve_binary_read_extension_object sblock objs c
      = (None, mk_cursor (address c + 1) (stray c))).
Proof.
  intros Hsize Hc. unfold sieve_binary_read_extension_object. cbv zeta.
  split; [|split].
  - intros ->. reflexivity.
  - intros Hn Hend.
    destruct (Z.eqb_spec (Z.of_nat (length objs)) 0); [lia|].
    destruct (Z.eqb_spec (Z.of_nat (length objs)) 1); [lia|].
    rewrite bind_at, bytes_left_inside by lia. cbn [fst snd].
    destruct (Z.leb_spec (_code_size sblock - address c) 0); [reflexivity | lia].
  - intros Hn Hin Hsel.
    destruct (Z.eqb_spec (Z.of_nat (length objs)) 0); [lia|].
    destruct (Z.eqb_spec (Z.of_nat (length objs)) 1); [lia|].
    rewrite bind_at, bytes_left_inside by lia. cbn [fst snd].
    destruct (Z.leb_spec (_code_size sblock - address c) 0); [lia|].
    unfold ADDR_DATA_AT. rewrite bind_at, deref_inside by lia. cbn [fst snd].
    rewrite bind_at, (jump_inside sblock) by lia. cbn [fst snd].
    destruct (Z.geb_spec (to_uchar (nth (Z.to_nat (address c)) (data sblock) 0))
                (Z.of_nat (length objs))); [reflexivity | lia].
Qed.

(** *** The end of the code, and beyond *)

(** X10.  With the cursor at the end of the code, the decode functions of
    variable width answer FALSE (NULL) in place: they neither move the
    cursor nor dereference anything.  [sieve_binary_read_integer] has
    by then stored 0 in [*int_r], which it does before its test;
    [sieve_binary_read_extension] leaves [*offset_r] and [*ext_r] as
    they were. *)
Theorem variable_reads_fail_at_end
    {O : Type} (sblock : sieve_binary_block) (c : cursor)
    (offset_r : Z) (ext_r0 : option sieve_extension) (objs : list O) :
  _code_size sblock < 2 ^ SIZE_BITS ->
  address c = _code_size sblock ->
  sieve_binary_read_integer sblock c = (false, 0, c)
  /\ sieve_binary_read_string sblock c = (None, c)
  /\ sieve_binary_read_extension sblock offset_r ext_r0 c
     = (false, offset_r, ext_r0, c)
  /\ (length objs <> 1%nat ->
      sieve_binary_read_extension_object sblock objs c = (None, c)).
Proof.
  intros Hsize Hend.
  assert (Hpos : 0 <= _code_size sblock) by (unfold _code_size; lia).
  assert (Hint : sieve_binary_read_integer sblock c = (false, 0, c)).
  { unfold sieve_binary_read_integer. cbv zeta.
    rewrite bind_at, bytes_left_inside by lia. cbn [fst snd].
    destruct (Z.eqb_spec (_code_size sblock - address c) 0); [reflexivity | lia]. }
  split; [exact Hint|]. split; [|split].
  - unfold sieve_binary_read_string, sieve_binary_read_unsigned.
    rewrite !bind_at, Hint. reflexivity.
  - unfold sieve_binary_read_extension. cbv zeta.
    rewrite bind_at, bytes_left_inside by lia. cbn [fst snd].
    destruct (Z.leb_spec (_code_size sblock - address c) 0); [reflexivity | lia].
  - intros Hn. unfold sieve_binary_read_extension_object. cbv zeta.
    destruct (Z.eqb_spec (Z.of_nat (length objs)) 0); [reflexivity|].
    destruct (Z.eqb_spec (Z.of_nat (length objs)) 1); [lia|].
    rewrite bind_at, bytes_left_inside by lia. cbn [fst snd].
    destruct (Z.leb_spec (_code_size sblock - address c) 0); [reflexivity | lia].
Qed.

(** X11.  The bounds test of the decode functions holds off a cursor at the end
    of the code, not one beyond it: [ADDR_BYTES_LEFT] is an unsigned
    difference and wraps, so [sieve_binary_read_byte] answers TRUE there
    with a byte taken from outside the code.  With a NULL out parameter
    it answers TRUE as well and moves the cursor, without taking the
    byte. *)
Theorem read_byte_beyond_end
    (sblock : sieve_binary_block) (c : cursor) (old : Z) :
  _code_size sblock < address c < 2 ^ SIZE_BITS ->
  sieve_binary_read_byte sblock (Some old) c
  = (Some (true, Some (to_uchar (past_end (address c)))),
     mk_cursor (size_wrap (address c + 1)) (stray c ++ [address c]))
  /\ sieve_binary_read_byte sblock None c
     = (Some (true, None), mk_cursor (size_wrap (address c + 1)) (stray c)).
Proof.
  intros Hc.
  assert (Hpos : 0 <= _code_size sblock) by (unfold _code_size; lia).
  assert (Hleft : size_wrap (_code_size sblock - address c)
                  = _code_size sblock - address c + 2 ^ SIZE_BITS).
  { unfold size_wrap. symmetry. apply (Z.mod_unique _ _ (-1)); lia. }
  assert (Hout : in_code sblock (address c) = false).
  { unfold in_code. destruct (Z.ltb_spec (address c) (_code_size sblock)); [lia|].
    apply andb_false_r. }
  split.
  - unfold sieve_binary_read_byte, ADDR_BYTES_LEFT, ADDR_DATA_AT, deref,
      ADDR_JUMP, _code.
    rewrite !bind_at. cbn [fst snd]. rewrite Hleft.
    destruct (Z.geb_spec (_code_size sblock - address c + 2 ^ SIZE_BITS) 1);
      [|lia].
    rewrite !bind_at. cbv zeta. rewrite Hout. cbn [fst snd address stray].
    rewrite !ret_at. reflexivity.
  - unfold sieve_binary_read_byte, ADDR_BYTES_LEFT, ADDR_JUMP.
    rewrite !bind_at. cbn [fst snd]. rewrite Hleft.
    destruct (Z.geb_spec (_code_size sblock - address c + 2 ^ SIZE_BITS) 1);
      [|lia].
    rewrite !bind_at, !ret_at. reflexivity.
Qed.

(** *** A forward jump, from the generator to the interpreter *)

(** X13.  The life of a forward jump: [sieve_binary_emit_offset] reserves the
    operand at [A]; [body] is emitted; [sieve_binary_resolve_offset]
    patches the operand; [tail] is emitted.  An interpreter whose
    program counter is at [A] and that runs
    [sieve_interpreter_program_jump] then succeeds, and when the jump is
    taken the program counter is where the code stood when the offset
    was resolved, the first byte of [tail]; when it is only tested the
    program counter is after the operand.  Nothing outside the code is
    dereferenced. *)
Theorem resolved_jump_lands
    (sblock : sieve_binary_block) (placeholder : Z) (body tail : list Z)
    (interp : sieve_interpreter) (jump : bool) :
  Z.of_nat (length body) + 4 <= INT_MAX ->
  Z.of_nat (length (data sblock)) + 4
    + Z.of_nat (length body) + Z.of_nat (length tail) < 2 ^ SIZE_BITS ->
  let A := snd (sieve_binary_emit_offset sblock placeholder) in
  let sblock1 := fst (sieve_binary_emit_offset sblock placeholder) in
  let sblock2 := _sieve_binary_emit_data sblock1 body in
  let target := _sieve_binary_block_get_size sblock2 in
  let sblock3 := sieve_binary_resolve_offset sblock2 A in
  let sbin := _sieve_binary_emit_data sblock3 tail in
  pc interp = A ->
  sieve_interpreter_program_jump sbin interp jump
  = (true, set_pc interp (if jump then target else A + 4))
  /\ target = A + 4 + Z.of_nat (length body)
  /\ firstn (length tail) (skipn (Z.to_nat target) (data sbin)) = tail.
Proof.
  intros Hint Hsize A sblock1 sblock2 target sblock3 sbin Hpc.
  set (pre := data sblock) in *.
  assert (HA : A = Z.of_nat (length pre)) by reflexivity.
  assert (H2 : data sblock2
               = pre ++ offset_byte placeholder 3 :: offset_byte placeholder 2
                     :: offset_byte placeholder 1 :: offset_byte placeholder 0
                     :: body).
  { unfold sblock2, sblock1, sieve_binary_emit_offset, _sieve_binary_emit_data,
      buffer_append, with_data. cbn [fst data sbin_extensions].
    rewrite <- !app_assoc. reflexivity. }
  assert (Ht : target = A + 4 + Z.of_nat (length body)).
  { unfold target, _sieve_binary_block_get_size. rewrite H2, length_app.
    simpl length. lia. }
  set (off := Z.of_nat (length body) + 4).
  assert (Hto : to_int (target - A) = off).
  { rewrite Ht. unfold to_int, off. unfold INT_MAX in Hint.
    replace (A + 4 + Z.of_nat (length body) - A)
      with (Z.of_nat (length body) + 4) by lia.
    rewrite Z.mod_small by lia. lia. }
  assert (H3 : data sblock3
               = pre ++ offset_byte off 3 :: offset_byte off 2
                     :: offset_byte off 1 :: offset_byte off 0 :: body).
  { unfold sblock3. rewrite HA.
    rewrite (resolve_offset_patches sblock2 pre _ _ _ _ body H2)
      by (fold target; lia).
    fold target. rewrite <- HA, Hto. reflexivity. }
  assert (Hbin : data sbin
                 = pre ++ offset_byte off 3 :: offset_byte off 2
                       :: offset_byte off 1 :: offset_byte off 0
                       :: body ++ tail).
  { unfold sbin, _sieve_binary_emit_data, buffer_append, with_data.
    cbn [data]. rewrite H3, <- app_assoc. reflexivity. }
  assert (Hcs : _code_size sbin = target + Z.of_nat (length tail)).
  { unfold _code_size. rewrite Hbin, length_app. simpl length.
    rewrite length_app. lia. }
  split; [|split].
  - unfold sieve_interpreter_program_jump,
      sieve_interpreter_read_offset_operand, at_pc.
    rewrite (read_offset_inside sbin pre (offset_byte off 3) (offset_byte off 2)
               (offset_byte off 1) (offset_byte off 0) (body ++ tail));
      [| exact Hbin | lia | cbn [address]; lia
       | apply offset_byte_range | apply offset_byte_range
       | apply offset_byte_range | apply offset_byte_range].
    rewrite offset_bytes_value by (unfold off, INT_MAX in *; lia).
    cbn [address stray]. cbv zeta.
    unfold sieve_binary_get_code_size. rewrite Hcs, Hpc.
    replace (A + off) with target by (unfold off; lia).
    rewrite size_wrap_small by lia.
    destruct (Z.leb_spec target (target + Z.of_nat (length tail)))
      as [Hle|Hgt]; [|lia].
    destruct (Z.gtb_spec target 0) as [Hpos|Hneg]; [|lia].
    cbn [andb]. unfold set_pc. cbn [pc stopped test_result runenv_msgdata
      runenv_result oprtn_address derefs].
    destruct jump; reflexivity.
  - exact Ht.
  - rewrite Hbin.
    replace (pre ++ offset_byte off 3 :: offset_byte off 2 :: offset_byte off 1
                 :: offset_byte off 0 :: body ++ tail)
      with ((pre ++ offset_byte off 3 :: offset_byte off 2 :: offset_byte off 1
                 :: offset_byte off 0 :: body) ++ tail)
      by (rewrite <- app_assoc; reflexivity).
    rewrite skipn_app, skipn_all2, app_nil_l;
      [| rewrite length_app; simpl length; lia].
    replace (Z.to_nat target - _)%nat with O
      by (rewrite length_app; simpl length; lia).
    cbn [skipn]. apply firstn_all.
Qed.

(** *** Scripts without backward jumps *)

Section ForwardFacts.

Variable sbin : sieve_binary_block.
Variable sieve_operations : Z -> option sieve_operation_def.

Lemma run_while_more fuel : forall interp r fuel',
  run_while sbin sieve_operations fuel interp = Some r ->
  (fuel <= fuel')%nat ->
  run_while sbin sieve_operations fuel' interp = Some r.
Proof.
  induction fuel as [|fuel IH]; intros interp r fuel' Hr Hle; [discriminate|].
  destruct fuel' as [|fuel']; [lia|].
  rewrite run_while_S in *.
  destruct (run_continues sbin interp); [|exact Hr].
  destruct (sieve_interpreter_execute_operation sbin sieve_operations interp)
    as [ok interp1].
  destruct ok; [|exact Hr].
  apply (IH _ _ _ Hr). lia.
Qed.

Lemma run_while_forward :
  _code_size sbin < 2 ^ SIZE_BITS ->
  (forall tag op e interp,
      sieve_operations tag = Some op -> execute op = Some e ->
      pc interp <= pc (snd (e interp))) ->
  forall n interp,
    0 <= pc interp ->
    sieve_binary_get_code_size sbin - pc interp <= Z.of_nat n ->
    exists r, run_while sbin sieve_operations (S n) interp = Some r.
Proof.
  intros Hsize Hfwd.
  induction n as [|n IH]; intros interp Hpos Hleft; rewrite run_while_S;
    unfold run_continues;
    destruct (Z.ltb_spec (pc interp) (sieve_binary_get_code_size sbin))
      as [Hlt|Hge];
    try lia;
    try (rewrite andb_false_r; eexists; reflexivity).
  destruct (stopped interp); cbn [negb andb]; [eexists; reflexivity|].
  unfold sieve_interpreter_execute_operation.
  destruct (fetch_in_code sbin sieve_operations interp Hsize (conj Hpos Hlt))
    as [tag Hf].
  rewrite Hf.
  destruct (sieve_operations tag) as [op|] eqn:Hop; [|eexists; reflexivity].
  destruct (execute op) as [e|] eqn:He; [|eexists; reflexivity].
  pose proof (Hfwd tag op e (set_pc interp (pc interp + 1)) Hop He) as Hstep.
  destruct (e (set_pc interp (pc interp + 1))) as [ok interp1].
  cbn [snd set_pc pc] in Hstep.
  destruct ok; [|eexists; reflexivity].
  apply IH; lia.
Qed.

Lemma dump_code_while_more fuel : forall interp r fuel',
  dump_code_while sbin sieve_operations fuel interp = Some r ->
  (fuel <= fuel')%nat ->
  dump_code_while sbin sieve_operations fuel' interp = Some r.
Proof.
  induction fuel as [|fuel IH]; intros interp r fuel' Hr Hle; [discriminate|].
  destruct fuel' as [|fuel']; [lia|].
  cbn [dump_code_while] in *.
  destruct (pc interp <? sieve_binary_get_code_size sbin); [|exact Hr].
  destruct (sieve_interpreter_dump_operation sbin sieve_operations interp)
    as [ok interp1].
  destruct ok; [|exact Hr].
  apply (IH _ _ _ Hr). lia.
Qed.

Lemma dump_code_while_forward :
  _code_size sbin < 2 ^ SIZE_BITS ->
  (forall tag op d interp,
      sieve_operations tag = Some op -> dump op = Some d ->
      pc interp <= pc (snd (d interp))) ->
  forall n interp,
    0 <= pc interp ->
    sieve_binary_get_code_size sbin - pc interp <= Z.of_nat n ->
    exists r, dump_code_while sbin sieve_operations (S n) interp = Some r.
Proof.
  intros Hsize Hfwd.
  induction n as [|n IH]; intros interp Hpos Hleft;
    cbn [dump_code_while];
    destruct (Z.ltb_spec (pc interp) (sieve_binary_get_code_size sbin))
      as [Hlt|Hge];
    try lia;
    try (eexists; reflexivity).
  unfold sieve_interpreter_dump_operation.
  destruct (fetch_in_code sbin sieve_operations interp Hsize (conj Hpos Hlt))
    as [tag Hf].
  rewrite Hf.
  destruct (sieve_operations tag) as [op|] eqn:Hop; [|eexists; reflexivity].
  destruct (dump op) as [d|] eqn:Hd.
  - pose proof (Hfwd tag op d (set_pc interp (pc interp + 1)) Hop Hd) as Hstep.
    destruct (d (set_pc interp (pc interp + 1))) as [ok interp1].
    cbn [snd set_pc pc] in Hstep.
    destruct ok; [|eexists; reflexivity].
    apply IH; lia.
  - destruct (mnemonic op); [|eexists; reflexivity].
    apply IH; cbn [set_pc pc]; lia.
Qed.

End ForwardFacts.

(** X14.  When no execute hook of a registered operation moves the program
    counter backwards, [sieve_interpreter_run] returns: the fetch takes
    one byte in every turn, so the loop is over after at most
    [code_size] turns, and allowing more turns does not change the
    answer. *)
Theorem run_forward_terminates
    (sbin : sieve_binary_block)
    (sieve_operations : Z -> option sieve_operation_def)
    (interp0 : sieve_interpreter)
    (msgdata : sieve_message_data) (result : sieve_result) :
  _code_size sbin < 2 ^ SIZE_BITS ->
  (forall tag op e interp,
      sieve_operations tag = Some op -> execute op = Some e ->
      pc interp <= pc (snd (e interp))) ->
  exists r,
    forall fuel, (Z.to_nat (sieve_binary_get_code_size sbin) < fuel)%nat ->
      sieve_interpreter_run sbin sieve_operations fuel interp0 msgdata result
      = Some r.
Proof.
  intros Hsize Hfwd.
  destruct (run_while_forward sbin sieve_operations Hsize Hfwd
              (Z.to_nat (sieve_binary_get_code_size sbin))
              (set_env (sieve_interpreter_reset interp0)
                       (Some msgdata) (Some result)))
    as [[b out] Hr].
  - cbn [set_env sieve_interpreter_reset pc]. lia.
  - cbn [set_env sieve_interpreter_reset pc].
    unfold sieve_binary_get_code_size, _code_size. lia.
  - exists (if b then (true, set_env out None None, runenv_result out)
            else (false, out, runenv_result out)).
    intros fuel Hfuel. unfold sieve_interpreter_run. cbv zeta.
    rewrite (run_while_more sbin sieve_operations _ _ _ fuel Hr) by lia.
    destruct b; reflexivity.
Qed.

(** X15.  [sieve_interpreter_dump_code] returns when no dump hook
    moves the program counter backwards: after at most [code_size]
    operations it has reached the end of the code or found the binary
    corrupt, and allowing more turns does not change the answer.  An
    operation without a dump hook takes the opcode byte only:
    [sieve_interpreter_dump_operation] leaves the program counter one
    past the opcode, and answers TRUE when the operation has a mnemonic
    and FALSE when it has none. *)
Theorem dump_code_forward_terminates
    (sbin : sieve_binary_block)
    (sieve_operations : Z -> option sieve_operation_def)
    (interp0 : sieve_interpreter) :
  _code_size sbin < 2 ^ SIZE_BITS ->
  (forall tag op d interp,
      sieve_operations tag = Some op -> dump op = Some d ->
      pc interp <= pc (snd (d interp))) ->
  (exists r,
      forall fuel, (Z.to_nat (sieve_binary_get_code_size sbin) < fuel)%nat ->
        sieve_interpreter_dump_code sbin sieve_operations fuel interp0 = Some r)
  /\ (forall interp op,
        0 <= pc interp < sieve_binary_get_code_size sbin ->
        fst (sieve_operation_read sbin sieve_operations interp) = Some op ->
        dump op = None ->
        sieve_interpreter_dump_operation sbin sieve_operations interp
        = (match mnemonic op with Some _ => true | None => false end,
           set_pc interp (pc interp + 1))).
Proof.
  intros Hsize Hfwd. split.
  - destruct (dump_code_while_forward sbin sieve_operations Hsize Hfwd
                (Z.to_nat (sieve_binary_get_code_size sbin))
                (set_env (sieve_interpreter_reset interp0) None None))
      as [r Hr].
    + cbn [set_env sieve_interpreter_reset pc]. lia.
    + cbn [set_env sieve_interpreter_reset pc].
      unfold sieve_binary_get_code_size, _code_size. lia.
    + exists r. intros fuel Hfuel. unfold sieve_interpreter_dump_code. cbv zeta.
      apply (dump_code_while_more sbin sieve_operations _ _ _ fuel Hr). lia.
  - intros interp op Hpc Hop Hdump.
    unfold sieve_interpreter_dump_operation.
    destruct (fetch_in_code sbin sieve_operations interp Hsize Hpc)
      as [tag Hf].
    rewrite Hf in *. cbn [fst] in Hop. rewrite Hop, Hdump.
    destruct (mnemonic op); reflexivity.
Qed.

(** *** Extension references *)

Lemma extension_index_nth (exts : list sieve_extension) ext : forall i,
  extension_index exts ext = Some i ->
  nth_error exts i = Some ext /\ (i < length exts)%nat.
Proof.
  induction exts as [|e rest IH]; intros i Hi; [discriminate|].
  cbn [extension_index] in Hi.
  destruct (sieve_extension_eq_dec e ext) as [Heq|Hne].
  - injection Hi as <-. subst e. split; [reflexivity | simpl; lia].
  - destruct (extension_index rest ext) as [j|]; [|discriminate].
    injection Hi as <-. destruct (IH j eq_refl) as [Hn Hl].
    split; [exact Hn | simpl; lia].
Qed.

Lemma extension_index_new (exts : list sieve_extension) ext :
  extension_index exts ext = None ->
  extension_index (exts ++ [ext]) ext = Some (length exts).
Proof.
  induction exts as [|e rest IH]; intros Hi; cbn [app extension_index length].
  - destruct (sieve_extension_eq_dec ext ext) as [_|Hne];
      [reflexivity | contradiction].
  - cbn [extension_index] in Hi.
    destruct (sieve_extension_eq_dec e ext) as [Heq|Hne]; [discriminate|].
    destruct (extension_index rest ext); [discriminate|].
    rewrite IH by reflexivity. reflexivity.
Qed.

(** X16.  The byte that [sieve_binary_emit_extension] writes for an extension,
    [sieve_binary_read_extension] resolves with the same base offset to
    that extension, as long as base offset and index together fit the
    byte.  The extension keeps its index: emitting it once more writes
    the same byte and leaves the index table as it is. *)
Theorem emit_extension_read_extension
    (sblock : sieve_binary_block) (ext : sieve_extension) (offset : Z)
    (post stray0 : list Z) (ext_r0 : option sieve_extension) :
  0 <= offset ->
  offset + Z.of_nat (length (sbin_extensions sblock)) < 256 ->
  Z.of_nat (length (data sblock)) + 1 + Z.of_nat (length post) < 2 ^ SIZE_BITS ->
  let sblock1 := fst (sieve_binary_emit_extension sblock ext offset) in
  let A := snd (sieve_binary_emit_extension sblock ext offset) in
  exists index,
    extension_index (sbin_extensions sblock1) ext = Some index
    /\ data sblock1 = data sblock ++ [offset + Z.of_nat index]
    /\ sieve_binary_read_extension (_sieve_binary_emit_data sblock1 post)
         offset ext_r0 (mk_cursor A stray0)
       = (true, offset + Z.of_nat index, Some ext, mk_cursor (A + 1) stray0)
    /\ fst (sieve_binary_emit_extension sblock1 ext offset)
       = _sieve_binary_emit_data sblock1 [offset + Z.of_nat index].
Proof.
  intros Hoff Hfit Hsize sblock1 A.
  assert (Hreg : exists index,
             sieve_binary_extension_register sblock ext
             = (mk_block (data sblock)
                         (sbin_extensions
                            (fst (sieve_binary_extension_register sblock ext))),
                Z.of_nat index)
             /\ extension_index
                  (sbin_extensions
                     (fst (sieve_binary_extension_register sblock ext))) ext
                = Some index
             /\ (index <= length (sbin_extensions sblock))%nat).
  { unfold sieve_binary_extension_register.
    destruct (extension_index (sbin_extensions sblock) ext) as [i|] eqn:Hi.
    - exists i. cbn [fst]. destruct sblock as [d exts]. cbn [data sbin_extensions] in *.
      split; [reflexivity|]. split; [exact Hi|].
      apply extension_index_nth in Hi. lia.
    - exists (length (sbin_extensions sblock)). cbn [fst sbin_extensions].
      split; [reflexivity|]. split; [apply extension_index_new; exact Hi | lia]. }
  destruct Hreg as [index [Hreg [Hidx Hle]]].
  set (exts1 := sbin_extensions
                  (fst (sieve_binary_extension_register sblock ext))) in *.
  assert (Hbyte : to_uchar (to_uint (offset + Z.of_nat index))
                  = offset + Z.of_nat index).
  { unfold to_uchar, to_uint.
    rewrite (Z.mod_small (offset + Z.of_nat index) (2 ^ 32)) by lia.
    apply Z.mod_small. lia. }
  assert (H1 : sblock1
               = mk_block (data sblock ++ [offset + Z.of_nat index]) exts1).
  { unfold sblock1, sieve_binary_emit_extension. cbv zeta. rewrite Hreg.
    cbn [fst]. unfold _sieve_binary_emit_byte, _sieve_binary_emit_data,
      buffer_append, with_data. cbn [data sbin_extensions].
    rewrite Hbyte. reflexivity. }
  assert (HA : A = Z.of_nat (length (data sblock))).
  { unfold A, sieve_binary_emit_extension. cbv zeta.
    destruct (sieve_binary_extension_register sblock ext). reflexivity. }
  exists index. rewrite H1. cbn [data sbin_extensions].
  split; [exact Hidx|]. split; [reflexivity|]. split.
  - unfold _sieve_binary_emit_data, buffer_append, with_data.
    cbn [data sbin_extensions]. rewrite <- app_assoc. cbn [app].
    set (sb := mk_block (data sblock ++ (offset + Z.of_nat index) :: post) exts1).
    set (c := mk_cursor A stray0).
    assert (Hlen : _code_size sb
                   = Z.of_nat (length (data sblock)) + 1
                     + Z.of_nat (length post)).
    { unfold _code_size, sb. cbn [data]. rewrite length_app. simpl length. lia. }
    assert (Hc : address c = Z.of_nat (length (data sblock))) by exact HA.
    assert (Hnth : nth (Z.to_nat (address c)) (data sb) 0
                   = offset + Z.of_nat index).
    { rewrite Hc. unfold sb. cbn [data]. apply nth_middle_Z. }
    unfold sieve_binary_read_extension. cbv zeta.
    rewrite bind_at, bytes_left_inside by lia. cbn [fst snd].
    destruct (Z.leb_spec (_code_size sb - address c) 0); [lia|].
    unfold ADDR_DATA_AT. rewrite bind_at, deref_inside by lia. cbn [fst snd].
    rewrite bind_at, (jump_inside sb) by lia. cbn [fst snd].
    rewrite Hnth.
    assert (Hu : to_uchar (offset + Z.of_nat index) = offset + Z.of_nat index)
      by (unfold to_uchar; apply Z.mod_small; lia).
    rewrite Hu.
    destruct (Z.geb_spec (offset + Z.of_nat index) offset); [|lia].
    replace (offset + Z.of_nat index - offset) with (Z.of_nat index) by lia.
    unfold sieve_binary_extension_get_by_index, to_uint.
    rewrite Z.mod_small by lia.
    destruct (Z.ltb_spec (Z.of_nat index) 0); [lia|].
    rewrite Nat2Z.id. unfold sb. cbn [sbin_extensions].
    destruct (extension_index_nth _ _ _ Hidx) as [Hn _]. rewrite Hn.
    rewrite ret_at. reflexivity.
  - unfold sieve_binary_emit_extension, sieve_binary_extension_register.
    cbv zeta. cbn [sbin_extensions]. rewrite Hidx. cbn [fst].
    unfold _sieve_binary_emit_byte. rewrite Hbyte. reflexivity.
Qed.

(** *** Extension contexts *)

(** X17.  A context stored with [sieve_interpreter_extension_set_context] is
    what [sieve_interpreter_extension_get_context] returns for that
    extension, and the contexts of all other extensions read as before:
    the elements by which the array grows read as NULL, just as ids
    beyond the array do. *)
Theorem extension_context_set_get
    {context : Type} (ext_contexts : list (option context))
    (ext_id : Z) (ctx : option context) :
  0 <= ext_id < INT_MAX ->
  Z.of_nat (length ext_contexts) <= INT_MAX ->
  let ext_contexts1 :=
    sieve_interpreter_extension_set_context ext_contexts ext_id ctx in
  sieve_interpreter_extension_get_context ext_contexts1 ext_id = ctx
  /\ (forall other, other <> ext_id ->
        sieve_interpreter_extension_get_context ext_contexts1 other
        = sieve_interpreter_extension_get_context ext_contexts other)
  /\ Z.of_nat (length ext_contexts1)
     = Z.max (Z.of_nat (length ext_contexts)) (ext_id + 1).
Proof.
  intros Hid Hlen. unfold INT_MAX in *. cbv zeta.
  unfold sieve_interpreter_extension_set_context.
  assert (Hu : to_uint ext_id = ext_id)
    by (unfold to_uint; apply Z.mod_small; lia).
  rewrite Hu.
  assert (Hcount : forall a : list (option context),
             Z.of_nat (length a) <= 2 ^ 31 - 1 ->
             to_int (array_count a) = Z.of_nat (length a)).
  { intros a Ha. unfold array_count, to_int, to_uint.
    rewrite (Z.mod_small (Z.of_nat (length a))) by lia.
    rewrite Z.mod_small by lia. lia. }
  assert (Hget : forall (a : list (option context)) i,
             Z.of_nat (length a) <= 2 ^ 31 - 1 ->
             sieve_interpreter_extension_get_context a i
             = if (0 <=? i) && (i <? Z.of_nat (length a))
               then nth (Z.to_nat i) a None else None).
  { intros a i Ha. unfold sieve_interpreter_extension_get_context.
    rewrite (Hcount a Ha).
    destruct (Z.ltb_spec i 0) as [Hneg|Hpos]; cbn [orb];
      destruct (Z.leb_spec 0 i) as [Hp|Hn]; try lia; cbn [andb];
      [reflexivity|].
    destruct (Z.geb_spec i (Z.of_nat (length a))) as [Hge|Hlt];
      destruct (Z.ltb_spec i (Z.of_nat (length a))) as [Hl|Hg]; try lia;
      [reflexivity|].
    unfold array_idx, to_uint. rewrite Z.mod_small by lia. reflexivity. }
  set (n := Z.to_nat ext_id).
  assert (Hn : ext_id = Z.of_nat n) by (unfold n; lia).
  assert (Hset : array_idx_set ext_contexts ext_id ctx
                 = firstn n (ext_contexts ++ repeat None (n - length ext_contexts))
                   ++ ctx :: skipn (S n) ext_contexts).
  { unfold array_idx_set. fold n.
    destruct (Z.ltb_spec ext_id (Z.of_nat (length ext_contexts))) as [Hin|Hout].
    - rewrite firstn_app.
      replace (n - length ext_contexts)%nat with O by lia.
      cbn [repeat firstn]. rewrite app_nil_r. reflexivity.
    - rewrite (skipn_all2 ext_contexts) by lia.
      rewrite firstn_all2 by (rewrite length_app, repeat_length; lia).
      rewrite <- app_assoc. reflexivity. }
  rewrite Hset.
  set (front := firstn n (ext_contexts ++ repeat None (n - length ext_contexts))).
  assert (Hfront : length front = n).
  { unfold front. rewrite length_firstn, length_app, repeat_length. lia. }
  assert (Hlen1 : Z.of_nat (length (front ++ ctx :: skipn (S n) ext_contexts))
                  = Z.max (Z.of_nat (length ext_contexts)) (ext_id + 1)).
  { rewrite length_app. cbn [length]. rewrite length_skipn, Hfront. lia. }
  assert (Hfnth : forall k, (k < n)%nat ->
             nth k front None = nth k ext_contexts None).
  { intros k Hk. unfold front. rewrite nth_firstn.
    destruct (Nat.ltb_spec k n) as [_|Hge]; [|lia].
    destruct (Nat.lt_ge_cases k (length ext_contexts)) as [Hin|Hout].
    - apply app_nth1. exact Hin.
    - rewrite app_nth2 by lia. rewrite nth_repeat.
      rewrite (nth_overflow ext_contexts) by lia. reflexivity. }
  split; [|split].
  - rewrite Hget by lia. rewrite Hlen1.
    destruct (Z.leb_spec 0 ext_id); [|lia].
    destruct (Z.ltb_spec ext_id
                (Z.max (Z.of_nat (length ext_contexts)) (ext_id + 1))); [|lia].
    cbn [andb]. fold n. rewrite app_nth2 by lia.
    rewrite Hfront, Nat.sub_diag. reflexivity.
  - intros other Hother. rewrite !Hget by lia. rewrite Hlen1.
    destruct (Z.leb_spec 0 other) as [Hp|Hneg]; cbn [andb]; [|reflexivity].
    set (k := Z.to_nat other).
    assert (Hk : other = Z.of_nat k) by (unfold k; lia).
    destruct (Z.ltb_spec other
                (Z.max (Z.of_nat (length ext_contexts)) (ext_id + 1)))
      as [Hin1|Hout1];
      destruct (Z.ltb_spec other (Z.of_nat (length ext_contexts)))
        as [Hin|Hout]; try lia; try reflexivity.
    + destruct (Nat.lt_ge_cases k n) as [Hlt|Hge].
      * rewrite app_nth1 by lia. apply Hfnth. exact Hlt.
      * rewrite app_nth2 by lia. rewrite Hfront.
        destruct (k - n)%nat as [|j] eqn:Hj; [lia|].
        cbn [nth]. rewrite nth_skipn. f_equal. lia.
    + assert (Hlt : (k < n)%nat) by lia.
      rewrite app_nth1 by lia. rewrite Hfnth by exact Hlt.
      apply nth_overflow. lia.
  - exact Hlen1.
Qed.

(** *** Extension references that do not fit the byte *)

Lemma extension_register_data (sblock : sieve_binary_block) ext :
  data (fst (sieve_binary_extension_register sblock ext)) = data sblock
  /\ 0 <= snd (sieve_binary_extension_register sblock ext).
Proof.
  unfold sieve_binary_extension_register.
  destruct (extension_index (sbin_extensions sblock) ext);
    cbn [fst snd data]; split; try reflexivity; lia.
Qed.

(** X21.  [sieve_binary_emit_extension] has no failure of its own: when
    base offset and index together pass 255, the byte it writes is their
    sum less 256.  [sieve_binary_read_extension] with the same base
    offset then finds a code below the offset and answers TRUE with no
    extension, so the reference to the extension is lost. *)
Theorem emit_extension_truncates
    (sblock : sieve_binary_block) (ext : sieve_extension) (offset : Z)
    (post stray0 : list Z) (ext_r0 : option sieve_extension) :
  let index := snd (sieve_binary_extension_register sblock ext) in
  0 <= offset < 256 ->
  index < 256 ->
  256 <= offset + index ->
  Z.of_nat (length (data sblock)) + 1 + Z.of_nat (length post) < 2 ^ SIZE_BITS ->
  let sblock1 := fst (sieve_binary_emit_extension sblock ext offset) in
  let A := snd (sieve_binary_emit_extension sblock ext offset) in
  data sblock1 = data sblock ++ [offset + index - 256]
  /\ sieve_binary_read_extension (_sieve_binary_emit_data sblock1 post)
       offset ext_r0 (mk_cursor A stray0)
     = (true, offset + index - 256, None, mk_cursor (A + 1) stray0).
Proof.
  intros index Hoff Hidx Hsum Hsize sblock1 A.
  destruct (extension_register_data sblock ext) as [Hdata Hpos].
  fold index in Hpos.
  assert (Hbyte : to_uchar (to_uint (offset + index)) = offset + index - 256).
  { unfold to_uchar, to_uint.
    rewrite (Z.mod_small (offset + index) (2 ^ 32)) by lia.
    symmetry. apply (Z.mod_unique _ _ 1); lia. }
  assert (H1 : data sblock1 = data sblock ++ [offset + index - 256]).
  { unfold sblock1, sieve_binary_emit_extension, index in *. cbv zeta.
    destruct (sieve_binary_extension_register sblock ext) as [sb idx].
    cbn [fst snd] in *.
    unfold _sieve_binary_emit_byte, _sieve_binary_emit_data, buffer_append,
      with_data. cbn [data]. rewrite Hbyte, Hdata. reflexivity. }
  assert (HA : A = Z.of_nat (length (data sblock))).
  { unfold A, sieve_binary_emit_extension. cbv zeta.
    destruct (sieve_binary_extension_register sblock ext). reflexivity. }
  split; [exact H1|].
  set (sb := _sieve_binary_emit_data sblock1 post).
  set (c := mk_cursor A stray0).
  assert (Hsb : data sb = data sblock ++ (offset + index - 256) :: post).
  { unfold sb, _sieve_binary_emit_data, buffer_append, with_data.
    cbn [data]. rewrite H1, <- app_assoc. reflexivity. }
  assert (Hlen : _code_size sb
                 = Z.of_nat (length (data sblock)) + 1
                   + Z.of_nat (length post)).
  { unfold _code_size. rewrite Hsb, length_app. simpl length. lia. }
  assert (Hc : address c = Z.of_nat (length (data sblock))) by exact HA.
  assert (Hnth : nth (Z.to_nat (address c)) (data sb) 0
                 = offset + index - 256).
  { rewrite Hc, Hsb. apply nth_middle_Z. }
  unfold sieve_binary_read_extension. cbv zeta.
  rewrite bind_at, bytes_left_inside by lia. cbn [fst snd].
  destruct (Z.leb_spec (_code_size sb - address c) 0); [lia|].
  unfold ADDR_DATA_AT. rewrite bind_at, deref_inside by lia. cbn [fst snd].
  rewrite bind_at, (jump_inside sb) by lia. cbn [fst snd].
  rewrite Hnth.
  assert (Hu : to_uchar (offset + index - 256) = offset + index - 256)
    by (unfold to_uchar; apply Z.mod_small; lia).
  rewrite Hu.
  destruct (Z.geb_spec (offset + index - 256) offset); [lia|].
  rewrite ret_at. reflexivity.
Qed.

End Engine.

Arguments data {sieve_extension} _.
Arguments sbin_extensions {sieve_extension} _.
Arguments pc {sieve_message_data sieve_side_effect} _.
Arguments stopped {sieve_message_data sieve_side_effect} _.
Arguments test_result {sieve_message_data sieve_side_effect} _.
Arguments runenv_msgdata {sieve_message_data sieve_side_effect} _.
Arguments runenv_result {sieve_message_data sieve_side_effect} _.
Arguments oprtn_address {sieve_message_data sieve_side_effect} _.
Arguments derefs {sieve_message_data sieve_side_effect} _.

(** * The engine on concrete code

    The statements below fix [sieve_number_t] to four bytes (or eight,
    where said) and [sieve_size_t] to 64 bits. *)

(** C2.  The round trip of an integer does not hold for every value of
    a [sieve_number_t] of eight bytes.  The scratch array of
    [sieve_binary_emit_integer] then has [sizeof(sieve_number_t) + 1],
    nine, bytes, one short of the ten groups of a value of 64 bits: for
    the values [2^63] and [2^64 - 1] of the type the loop is entered a
    ninth time with [bufpos] at [-1] and stores at [buffer[-1]], before
    the array, so nothing defined is emitted.  The largest value below,
    [2^63 - 1], fills the nine bytes and is read back. *)
Theorem emit_integer_stores_before_buffer :
  let sblock := mk_block unit [] [] in
  let nine := [0xFF; 0xFF; 0xFF; 0xFF; 0xFF; 0xFF; 0xFF; 0xFF; 0x7F] in
  2 ^ 63 < 2 ^ NUMBER_BITS 8
  /\ 2 ^ 64 - 1 < 2 ^ NUMBER_BITS 8
  /\ sieve_binary_emit_integer 8 unit sblock (2 ^ 63) = None
  /\ sieve_binary_emit_integer 8 unit sblock (2 ^ 64 - 1) = None
  /\ sieve_binary_emit_integer 8 unit sblock (2 ^ 63 - 1)
     = Some (mk_block unit nine [], 0)
  /\ sieve_binary_read_integer 8 64 (filled 0) unit (mk_block unit nine [])
       (mk_cursor 0 [])
     = (true, 2 ^ 63 - 1, mk_cursor 9 []).
Proof. vm_compute. repeat split; reflexivity. Qed.

(** C1.  Two decode functions read outside the buffer when fewer bytes
    are left than they need.
    [sieve_binary_read_integer] called with one byte left, 0x80, which
    announces a further byte, dereferences [_code[1]], outside the buffer of
    one byte, whichever of the 256 bytes lies there; when that byte is zero it
    answers TRUE and leaves the cursor at 2.  [sieve_binary_read_string]
    called on the two bytes 0x01 0x41, a length prefix 1 with one byte
    left instead of the two for payload and terminator, dereferences
    [_code[2]], outside the buffer of two bytes; when that byte is zero it
    answers TRUE with the payload and leaves the cursor at 3. *)
Theorem read_integer_read_string_past_end :
  Forall
    (fun b =>
       hd_error (stray (snd (sieve_binary_read_integer 4 64 (filled b) unit
                               (mk_block unit [0x80] []) (mk_cursor 0 []))))
       = Some 1
       /\ hd_error (stray (snd (sieve_binary_read_string 4 64 (filled b) unit
                                  (mk_block unit [0x01; 0x41] [])
                                  (mk_cursor 0 []))))
          = Some 2)
    (map Z.of_nat (seq 0 256))
  /\ sieve_binary_read_integer 4 64 (filled 0) unit
       (mk_block unit [0x80] []) (mk_cursor 0 [])
     = (true, 0, mk_cursor 2 [1; 1])
  /\ sieve_binary_read_string 4 64 (filled 0) unit
       (mk_block unit [0x01; 0x41] []) (mk_cursor 0 [])
     = (Some [0x41], mk_cursor 3 [2]).
Proof.
  split; [|split; vm_compute; reflexivity].
  apply Forall_forall. intros b Hin.
  assert (Hb : 0 <= b < 256).
  { apply in_map_iff in Hin. destruct Hin as [n [<- Hn]].
    apply in_seq in Hn. lia. }
  pose (check := fun b =>
    match hd_error (stray (snd (sieve_binary_read_integer 4 64 (filled b) unit
                             (mk_block unit [0x80] []) (mk_cursor 0 [])))),
          hd_error (stray (snd (sieve_binary_read_string 4 64 (filled b) unit
                             (mk_block unit [0x01; 0x41] []) (mk_cursor 0 []))))
    with
    | Some i, Some j => (i =? 1) && (j =? 2)
    | _, _ => false
    end).
  assert (H : check b = true)
    by (apply forall_bytes; [vm_compute; reflexivity | exact Hb]).
  unfold check in H.
  destruct (hd_error _) as [i|]; [|discriminate].
  destruct (hd_error _) as [j|]; [|discriminate].
  apply andb_true_iff in H. destruct H as [Hi Hj].
  apply Z.eqb_eq in Hi. apply Z.eqb_eq in Hj. subst. split; reflexivity.
Qed.

(** C6.  [sieve_binary_read_integer] accepts encodings of more than
    [ceil(width/7)] groups and cuts the value to the width of the type.
    With a [sieve_number_t] of 32 bits, [ceil(32/7)] is 5; the six
    groups 0xFF 0xFF 0xFF 0xFF 0xFF 0x7F carry 42 bits, and
    [sieve_binary_read_integer] answers TRUE for them with the value cut to
    its low 32 bits.  With 64 bits, [ceil(64/7)] is 10, and the eleven
    groups of 77 bits are accepted alike. *)
Theorem read_integer_accepts_overlong :
  sieve_binary_read_integer 4 64 (filled 0) unit
    (mk_block unit [0xFF; 0xFF; 0xFF; 0xFF; 0xFF; 0x7F] []) (mk_cursor 0 [])
  = (true, 2 ^ 32 - 1, mk_cursor 6 [])
  /\ sieve_binary_read_integer 8 64 (filled 0) unit
       (mk_block unit [0xFF; 0xFF; 0xFF; 0xFF; 0xFF; 0xFF; 0xFF; 0xFF; 0xFF;
                       0xFF; 0x7F] [])
       (mk_cursor 0 [])
     = (true, 2 ^ 64 - 1, mk_cursor 11 []).
Proof. split; vm_compute; reflexivity. Qed.

(** C7.  Operand decoding can leave the program counter strictly greater
    than [code_size].
    In the code of three bytes 0x01 0x01 0x41, decoding a string
    operand at [pc = 1] (length prefix 1, one byte left), with a zero byte
    after the buffer, succeeds and leaves [pc = 4 > code_size]; a run of
    that code, the opcode 1 being an operation that decodes a string
    operand, answers TRUE with the program counter at 4. *)
Theorem string_operand_moves_pc_past_code :
  let sbin := mk_block unit [0x01; 0x01; 0x41] [] in
  let operations := fun tag : Z =>
    if tag =? 1
    then Some (mk_operation unit unit None 1 None
                 (Some (decode_string_operand 4 64 (filled 0) unit unit unit
                          sbin)))
    else None in
  let interp0 := mk_interp unit unit 0 false false None None 0 [] in
  sieve_binary_get_code_size unit sbin = 3
  /\ at_pc unit unit (sieve_binary_read_string 4 64 (filled 0) unit sbin)
       (set_pc unit unit interp0 1)
     = (Some [0x41], mk_interp unit unit 4 false false None None 0 [3])
  /\ sieve_interpreter_run 64 (filled 0) unit unit unit
       sbin operations 2 interp0 tt []
     = Some (true, mk_interp unit unit 4 false false None None 0 [3], Some []).
Proof. vm_compute. repeat split; reflexivity. Qed.

(** C8.  A run can report success although its loop was left neither
    at [pc == code_size] nor with the stopped flag set.  In the code of
    three bytes 0x01 0x01 0x41, the opcode 1 being an operation that
    decodes a string operand, with a zero byte after the buffer, the one
    operation answers TRUE and leaves [pc = 4]; the condition of the
    loop, [pc < code_size], then fails, and [sieve_interpreter_run]
    answers TRUE with the stopped flag clear and the program counter
    beyond the code of size 3, a byte outside the code having been
    read.  The same code followed by its zero byte is run to
    [pc == code_size]. *)
Theorem run_succeeds_past_code_size :
  let sbin := mk_block unit [0x01; 0x01; 0x41] [] in
  let operations := fun code : sieve_binary_block unit => fun tag : Z =>
    if tag =? 1
    then Some (mk_operation unit unit None 1 None
                 (Some (decode_string_operand 4 64 (filled 0) unit unit unit
                          code)))
    else None in
  let interp0 := mk_interp unit unit 0 false false None None 0 [] in
  let final := mk_interp unit unit 4 false false None None 0 [3] in
  let whole := mk_block unit [0x01; 0x01; 0x41; 0x00] [] in
  sieve_interpreter_run 64 (filled 0) unit unit unit
    sbin (operations sbin) 2 interp0 tt []
  = Some (true, final, Some [])
  /\ stopped final = false
  /\ pc final <> sieve_binary_get_code_size unit sbin
  /\ sieve_binary_get_code_size unit sbin < pc final
  /\ run_continues unit unit unit sbin final = false
  /\ sieve_interpreter_run 64 (filled 0) unit unit unit
       whole (operations whole) 2 interp0 tt []
     = Some (true, mk_interp unit unit 4 false false None None 0 [], Some [])
  /\ sieve_binary_get_code_size unit whole = 4.
Proof.
  vm_compute. repeat split; try reflexivity; discriminate.
Qed.

(** C3, with the candidate taken from the end of the operand: in the code
    of eight bytes 0 0 0 8 0 0 0 0 a jump at [pc = 0] decodes the offset 8
    and leaves the program counter at 4; the program counter after the
    operand plus the offset is 12, outside the code, and yet the jump
    succeeds, to [0 + 8 = code_size].  So success is not equivalent to
    [0 < pc_after_operand + offset <= code_size]. *)
Lemma program_jump_not_from_operand_end :
  let sbin := mk_block unit [0; 0; 0; 8; 0; 0; 0; 0] [] in
  let interp := mk_interp unit unit 0 false false None None 0 [] in
  exists offset interp1,
    sieve_interpreter_read_offset_operand 64 (filled 0) unit unit unit sbin interp
    = (Some offset, interp1)
    /\ ~ (fst (sieve_interpreter_program_jump 64 (filled 0) unit unit unit
                 sbin interp true) = true
          <-> 0 < pc interp1 + offset <= sieve_binary_get_code_size unit sbin).
Proof.
  eexists. eexists. split; [vm_compute; reflexivity|].
  vm_compute. intros [H _]. specialize (H eq_refl).
  destruct H as [_ H]. apply H. reflexivity.
Qed.

(** * The message environment of the test suite *)

Section TestsuiteFacts.

Variable mail : Type.
Variable mail_get_first_header : mail -> string -> Z * string.
Variable message_address_parse : string -> option Testsuite.message_address.
Variable sieve_tool_get_username : string.

Lemma is_empty_false (s : string) :
  Testsuite.is_empty s = false -> s <> EmptyString.
Proof. destruct s; [discriminate | intros _; discriminate]. Qed.

Lemma append_not_empty (s t : string) :
  s <> EmptyString -> (s ++ t)%string <> EmptyString.
Proof. destruct s; [contradiction | intros _; discriminate]. Qed.

Lemma get_address_not_empty (m : mail) (header a : string) :
  Testsuite.testsuite_message_get_address mail mail_get_first_header
    message_address_parse m header = Some a ->
  a <> EmptyString.
Proof.
  unfold Testsuite.testsuite_message_get_address.
  destruct (mail_get_first_header m header) as [ret str].
  destruct (ret <=? 0); [discriminate|].
  destruct (message_address_parse str) as [addr|]; [|discriminate].
  destruct (Testsuite.mailbox addr) as [mbox|]; [|discriminate].
  destruct (Testsuite.is_empty mbox) eqn:Hm; [discriminate|].
  apply is_empty_false in Hm.
  destruct (Testsuite.domain addr) as [dom|].
  - destruct (Testsuite.is_empty dom).
    + intros Ha. injection Ha as <-. exact Hm.
    + intros Ha. injection Ha as <-. apply append_not_empty. exact Hm.
  - intros Ha. injection Ha as <-. exact Hm.
Qed.

(** X18.  After [testsuite_message_set_data] the message data names a sender
    and a recipient, neither of them NULL or empty.  The sender is the
    first address that the headers Return-path, Sender and From give, in
    this order, and sender@example.com without any; the recipient is the
    first that Envelope-To and To give, and recipient@example.com without
    any.  Final and original recipient read the same but are kept in two
    buffers. *)
Theorem set_data_names_sender_and_recipient
    (st : Testsuite.testsuite_state) (m : mail) :
  let addresses :=
    flat_map (fun header =>
                match Testsuite.testsuite_message_get_address mail
                        mail_get_first_header message_address_parse m header
                with
                | Some a => [a]
                | None => []
                end) in
  let st1 :=
    Testsuite.testsuite_message_set_data mail mail_get_first_header
      message_address_parse sieve_tool_get_username st m in
  let msgdata := Testsuite.testsuite_msgdata st1 in
  let sender :=
    hd "sender@example.com"%string
       (addresses ["Return-path"; "Sender"; "From"]%string) in
  let recipient :=
    hd "recipient@example.com"%string
       (addresses ["Envelope-To"; "To"]%string) in
  Testsuite.text st1 (Testsuite.return_path msgdata) = Some sender
  /\ Testsuite.text st1 (Testsuite.final_envelope_to msgdata) = Some recipient
  /\ Testsuite.text st1 (Testsuite.orig_envelope_to msgdata) = Some recipient
  /\ sender <> EmptyString
  /\ recipient <> EmptyString
  /\ Testsuite.final_envelope_to msgdata <> Testsuite.orig_envelope_to msgdata.
Proof.
  cbv zeta. unfold Testsuite.testsuite_message_set_data.
  cbn [flat_map app].
  pose proof (get_address_not_empty m "Return-path") as Hrp.
  pose proof (get_address_not_empty m "Sender") as Hse.
  pose proof (get_address_not_empty m "From") as Hfr.
  pose proof (get_address_not_empty m "Envelope-To") as Het.
  pose proof (get_address_not_empty m "To") as Hto.
  destruct (mail_get_first_header m "Message-ID") as [ret value].
  destruct (Testsuite.testsuite_message_get_address mail mail_get_first_header
              message_address_parse m "Return-path") as [rp|];
    destruct (Testsuite.testsuite_message_get_address mail mail_get_first_header
                message_address_parse m "Sender") as [se|];
    destruct (Testsuite.testsuite_message_get_address mail mail_get_first_header
                message_address_parse m "From") as [fr|];
    destruct (Testsuite.testsuite_message_get_address mail mail_get_first_header
                message_address_parse m "Envelope-To") as [et|];
    destruct (Testsuite.testsuite_message_get_address mail mail_get_first_header
                message_address_parse m "To") as [to|];
    cbn;
    repeat split;
    try discriminate;
    solve [ apply Hrp; reflexivity | apply Hse; reflexivity
          | apply Hfr; reflexivity | apply Het; reflexivity
          | apply Hto; reflexivity ].
Qed.

(** X19.  [testsuite_envelope_set_recipient] points the final and the original
    recipient at one buffer, so both read the value set, the empty
    string for NULL.  A later [testsuite_envelope_set_orig_recipient]
    changes the original recipient alone; an earlier one is undone. *)
Theorem envelope_set_recipient_sets_both
    (st : Testsuite.testsuite_state) (v w : option string) :
  let shown := fun value : option string =>
                 match value with Some s => s | None => EmptyString end in
  let orig := fun s =>
    Testsuite.text s (Testsuite.orig_envelope_to (Testsuite.testsuite_msgdata s)) in
  let final := fun s =>
    Testsuite.text s (Testsuite.final_envelope_to (Testsuite.testsuite_msgdata s)) in
  let st1 := Testsuite.testsuite_envelope_set_recipient st v in
  let st2 := Testsuite.testsuite_envelope_set_orig_recipient st1 w in
  let st3 := Testsuite.testsuite_envelope_set_recipient
               (Testsuite.testsuite_envelope_set_orig_recipient st w) v in
  Testsuite.orig_envelope_to (Testsuite.testsuite_msgdata st1)
  = Testsuite.final_envelope_to (Testsuite.testsuite_msgdata st1)
  /\ final st1 = Some (shown v)
  /\ orig st2 = Some (shown w) /\ final st2 = Some (shown v)
  /\ orig st3 = Some (shown v) /\ final st3 = Some (shown v)
  /\ Testsuite.buffers st3 Testsuite.envelope_orig_to = shown w.
Proof.
  cbv zeta. repeat split.
Qed.

Lemma set_data_pointers (st : Testsuite.testsuite_state) (m : mail) :
  Testsuite.pointers_in_buffers sieve_tool_get_username
    (Testsuite.testsuite_message_set_data mail mail_get_first_header
       message_address_parse sieve_tool_get_username st m).
Proof.
  unfold Testsuite.pointers_in_buffers, Testsuite.testsuite_message_set_data.
  destruct (mail_get_first_header m "Message-ID") as [ret value].
  cbn. split; [reflexivity|]. split; [reflexivity|].
  split; right; reflexivity.
Qed.

Lemma testsuite_do_pointers
    (st : Testsuite.testsuite_state) (call : Testsuite.testsuite_call mail) :
  Testsuite.pointers_in_buffers sieve_tool_get_username st ->
  Testsuite.pointers_in_buffers sieve_tool_get_username
    (Testsuite.testsuite_do mail_get_first_header message_address_parse
       sieve_tool_get_username st call).
Proof.
  intros [Hr [Hf [Ho Ha]]].
  destruct call as [m0 | value | value | value | value];
    [apply set_data_pointers | | | | ];
    unfold Testsuite.pointers_in_buffers; cbn;
    (split; [first [reflexivity | exact Hr] |]);
    (split; [first [reflexivity | exact Hf] |]);
    (split; [first [left; reflexivity | right; reflexivity | exact Ho]
            | first [left; reflexivity | exact Ha]]).
Qed.

(** X20.  Once a mail is set, whatever calls follow, the message data
    keeps pointing into the buffers of the file: the sender at
    envelope_from, the final recipient at envelope_to, the original
    recipient at envelope_to or envelope_orig_to, and the user at
    envelope_auth unless it is still the user name of the tool.  None of
    them is NULL and none points at a string handed in by a caller. *)
Theorem envelope_pointers_stay_in_buffers
    (st : Testsuite.testsuite_state) (m : mail)
    (calls : list (Testsuite.testsuite_call mail)) :
  let step := Testsuite.testsuite_do mail_get_first_header
                message_address_parse sieve_tool_get_username in
  let st1 := fold_left step calls
               (Testsuite.testsuite_message_set_data mail mail_get_first_header
                  message_address_parse sieve_tool_get_username st m) in
  let msgdata := Testsuite.testsuite_msgdata st1 in
  Testsuite.pointers_in_buffers sieve_tool_get_username st1
  /\ Testsuite.return_path msgdata <> Testsuite.NULL
  /\ Testsuite.final_envelope_to msgdata <> Testsuite.NULL
  /\ Testsuite.orig_envelope_to msgdata <> Testsuite.NULL
  /\ Testsuite.auth_user msgdata <> Testsuite.NULL.
Proof.
  cbv zeta.
  assert (Hinv : Testsuite.pointers_in_buffers sieve_tool_get_username
                   (fold_left
                      (Testsuite.testsuite_do mail_get_first_header
                         message_address_parse sieve_tool_get_username)
                      calls
                      (Testsuite.testsuite_message_set_data mail
                         mail_get_first_header message_address_parse
                         sieve_tool_get_username st m))).
  { generalize (set_data_pointers st m).
    generalize (Testsuite.testsuite_message_set_data mail mail_get_first_header
                  message_address_parse sieve_tool_get_username st m).
    induction calls as [|call calls IH]; intros s Hs; [exact Hs|].
    cbn [fold_left]. apply IH. apply testsuite_do_pointers. exact Hs. }
  split; [exact Hinv|].
  destruct Hinv as [Hr [Hf [Ho Ha]]].
  rewrite Hr, Hf.
  split; [discriminate|]. split; [discriminate|].
  split; [destruct Ho as [Ho|Ho] | destruct Ha as [Ha|Ha]];
    rewrite ?Ho, ?Ha; discriminate.
Qed.

(** X22.  In a state whose pointers are in the buffers of the file
    ([pointers_in_buffers]), an envelope setter changes what its own member of the message data
    reads and nothing that the other members read:
    [testsuite_envelope_set_sender] the sender,
    [testsuite_envelope_set_auth_user] the user,
    [testsuite_envelope_set_orig_recipient] the original recipient, and
    [testsuite_envelope_set_recipient] both recipients. *)
Theorem envelope_setters_do_not_interfere
    (st : Testsuite.testsuite_state) (value : option string) :
  Testsuite.pointers_in_buffers sieve_tool_get_username st ->
  let shown := match value with Some s => s | None => EmptyString end in
  let sender := fun s =>
    Testsuite.text s (Testsuite.return_path (Testsuite.testsuite_msgdata s)) in
  let user := fun s =>
    Testsuite.text s (Testsuite.auth_user (Testsuite.testsuite_msgdata s)) in
  let orig := fun s =>
    Testsuite.text s (Testsuite.orig_envelope_to (Testsuite.testsuite_msgdata s)) in
  let final := fun s =>
    Testsuite.text s (Testsuite.final_envelope_to (Testsuite.testsuite_msgdata s)) in
  let st1 := Testsuite.testsuite_envelope_set_sender st value in
  let st2 := Testsuite.testsuite_envelope_set_auth_user st value in
  let st3 := Testsuite.testsuite_envelope_set_orig_recipient st value in
  let st4 := Testsuite.testsuite_envelope_set_recipient st value in
  (sender st1 = Some shown /\ user st1 = user st
   /\ orig st1 = orig st /\ final st1 = final st)
  /\ (user st2 = Some shown /\ sender st2 = sender st
      /\ orig st2 = orig st /\ final st2 = final st)
  /\ (orig st3 = Some shown /\ sender st3 = sender st
      /\ user st3 = user st /\ final st3 = final st)
  /\ (orig st4 = Some shown /\ final st4 = Some shown
      /\ sender st4 = sender st /\ user st4 = user st).
Proof.
  intros [Hr [Hf [Ho Ha]]]. cbv zeta.
  unfold Testsuite.testsuite_envelope_set_sender,
    Testsuite.testsuite_envelope_set_auth_user,
    Testsuite.testsuite_envelope_set_orig_recipient,
    Testsuite.testsuite_envelope_set_recipient.
  cbn. rewrite Hr, Hf.
  destruct Ho as [Ho|Ho]; destruct Ha as [Ha|Ha]; rewrite Ho, Ha; cbn;
    repeat split.
Qed.

End TestsuiteFacts.

(** * Instances of the theorems with hypotheses *)

Lemma emit_integer_read_integer_witness :
  0 <= 300 < 2 ^ NUMBER_BITS 4
  /\ 300 < 2 ^ (7 * (4 + 1))
  /\ exists gs l,
       sieve_binary_emit_integer 4 unit (mk_block unit [7] []) 300
       = Some (with_data unit (mk_block unit [7] [])
                 ([7] ++ map (fun x => Z.lor x 0x80) gs ++ [l]), 1)
       /\ groups_value 0 (gs ++ [l]) = 300.
Proof.
  assert (H1 : 0 <= 300 < 2 ^ NUMBER_BITS 4)
    by (vm_compute; split; [discriminate | reflexivity]).
  assert (H2 : 300 < 2 ^ (7 * (4 + 1))) by (vm_compute; reflexivity).
  split; [exact H1|]. split; [exact H2|].
  destruct (emit_integer_read_integer 4 64 (filled 0) unit
              (mk_block unit [7] []) 300 H1 H2)
    as [gs [l [He [_ [_ [Hv _]]]]]].
  exists gs, l. split; assumption.
Defined.

Lemma program_jump_candidate_witness :
  let sbin := mk_block unit [0; 0; 0; 8; 0; 0; 0; 0] [] in
  let interp := mk_interp unit unit 0 false false None None 0 [] in
  sieve_binary_get_code_size unit sbin + 2 ^ 31 < 2 ^ 64
  /\ 0 <= pc interp <= sieve_binary_get_code_size unit sbin
  /\ sieve_interpreter_program_jump 64 (filled 0) unit unit unit sbin interp true
     = (true, mk_interp unit unit 8 false false None None 0 []).
Proof.
  intros sbin interp.
  assert (H1 : sieve_binary_get_code_size unit sbin + 2 ^ 31 < 2 ^ 64)
    by (vm_compute; reflexivity).
  assert (H2 : 0 <= pc interp <= sieve_binary_get_code_size unit sbin)
    by (vm_compute; split; discriminate).
  split; [exact H1|]. split; [exact H2|].
  pose proof (program_jump_candidate 64 (filled 0) unit unit unit
                sbin interp true H1 H2) as H.
  assert (E : sieve_interpreter_read_offset_operand 64 (filled 0) unit unit unit
                sbin interp
              = (Some 8, mk_interp unit unit 4 false false None None 0 []))
    by (vm_compute; reflexivity).
  rewrite E in H. destruct H as [_ [_ [H _]]].
  rewrite H; [reflexivity|].
  vm_compute. split; [reflexivity | discriminate].
Defined.

Lemma resolve_offset_read_offset_witness :
  let sblock := mk_block unit [9] [] in
  3 + 4 <= INT_MAX
  /\ 8 < 2 ^ 64
  /\ sieve_binary_read_offset 64 (filled 0) unit
       (sieve_binary_resolve_offset 64 unit
          (_sieve_binary_emit_data unit
             (fst (sieve_binary_emit_offset unit sblock 0)) [1; 2; 3]) 1)
       (mk_cursor 1 [])
     = (Some 7, mk_cursor 5 []).
Proof.
  intros sblock.
  assert (H1 : 3 + 4 <= INT_MAX) by (vm_compute; discriminate).
  assert (H2 : 8 < 2 ^ 64) by (vm_compute; reflexivity).
  split; [exact H1|]. split; [exact H2|].
  pose proof (resolve_offset_read_offset 64 (filled 0) unit sblock 0 [1; 2; 3] [])
    as H.
  cbv zeta in H. unfold sieve_binary_emit_offset in H. cbv zeta in H.
  destruct (H H1 H2) as [_ [_ [_ Hr]]]. exact Hr.
Defined.

Lemma emit_string_read_string_witness :
  Forall (fun b => 0 <= b < 256) [65; 66]
  /\ 2 < 2 ^ NUMBER_BITS 4
  /\ 2 < 2 ^ (7 * (4 + 1))
  /\ 2 <= UINT_MAX
  /\ exists prefix,
       sieve_binary_emit_string 4 unit (mk_block unit [9] []) [65; 66]
       = Some (with_data unit (mk_block unit [9] [])
                 ([9] ++ prefix ++ [65; 66] ++ [0]), 1).
Proof.
  assert (H0 : Forall (fun b => 0 <= b < 256) [65; 66])
    by (repeat constructor; discriminate).
  assert (H1 : Z.of_nat (length [65; 66]) < 2 ^ NUMBER_BITS 4)
    by (vm_compute; reflexivity).
  assert (H2 : Z.of_nat (length [65; 66]) < 2 ^ (7 * (4 + 1)))
    by (vm_compute; reflexivity).
  assert (H3 : Z.of_nat (length [65; 66]) <= UINT_MAX)
    by (vm_compute; discriminate).
  split; [exact H0|]. split; [exact H1|]. split; [exact H2|]. split; [exact H3|].
  destruct (emit_string_read_string 4 64 (filled 0) unit
              (mk_block unit [9] []) [65; 66] H0 H1 H2 H3) as [prefix [He _]].
  exists prefix. exact He.
Defined.

Lemma read_extension_below_offset_witness :
  1 < 2 ^ 64
  /\ 0 <= 0 < 1
  /\ sieve_binary_read_extension 64 (filled 0) unit (mk_block unit [3] [tt])
       10 None (mk_cursor 0 [])
     = (true, 3, None, mk_cursor 1 []).
Proof.
  assert (H1 : Z.of_nat (length [3]) < 2 ^ 64) by (vm_compute; reflexivity).
  assert (H2 : 0 <= address (mk_cursor 0 []) < Z.of_nat (length [3]))
    by (vm_compute; split; [discriminate | reflexivity]).
  split; [exact H1|]. split; [exact H2|].
  destruct (read_extension_below_offset 64 (filled 0) unit [3] [tt]
              (mk_cursor 0 []) 10 None H1 H2) as [H _].
  apply H. vm_compute. reflexivity.
Defined.

Lemma run_reports_witness :
  let sbin := mk_block unit [1; 1] [] in
  let operations :=
    fun tag : Z => if tag =? 1 then Some (stop_operation unit unit) else None in
  let interp0 := mk_interp unit unit 0 false false None None 0 [] in
  let start := set_env unit unit (sieve_interpreter_reset unit unit interp0)
                       (Some tt) (Some []) in
  _code_size unit sbin < 2 ^ 64
  /\ hooks_keep_pc_in_code unit unit unit sbin operations
  /\ exists n last,
       run_turns 64 (filled 0) unit unit unit sbin operations n start last
       /\ stopped last = true
       /\ pc last = 1
       /\ pc last <> sieve_binary_get_code_size unit sbin.
Proof.
  intros sbin operations interp0 start.
  assert (H1 : _code_size unit sbin < 2 ^ 64) by (vm_compute; reflexivity).
  assert (H2 : hooks_keep_pc_in_code unit unit unit sbin operations).
  { intros tag op e interp Hop He Hpc. unfold operations in Hop.
    destruct (tag =? 1); [|discriminate].
    injection Hop as <-. injection He as <-. exact Hpc. }
  split; [exact H1|]. split; [exact H2|].
  destruct (run_reports 64 (filled 0) unit unit unit sbin operations interp0
              tt []) as [Htrue [_ [_ [Hexit _]]]].
  destruct (proj1 (Htrue (mk_interp unit unit 1 true false None None 0 [])
                         (Some [])))
    as [n [last [Ht [Hc [Hout _]]]]].
  - exists 2%nat. vm_compute. reflexivity.
  - assert (Hpc : pc last = 1).
    { change (pc last) with (pc (set_env unit unit last None None)).
      rewrite <- Hout. reflexivity. }
    exists n, last. split; [exact Ht|].
    destruct (proj1 (Hexit H1 H2 n last Ht) Hc) as [Hs|He].
    + split; [exact Hs|]. split; [exact Hpc|].
      rewrite Hpc. vm_compute. discriminate.
    + rewrite Hpc in He. vm_compute in He. discriminate.
Defined.

Lemma keep_program_run_witness :
  let accept := fun (_ : sieve_result unit) (_ : keep_call unit) => 0 in
  let line_of := fun address : Z => address + 1 in
  let no_operands :=
    fun interp : sieve_interpreter unit unit => (1, @nil unit, interp) in
  let dumper := fun interp : sieve_interpreter unit unit => (true, interp) in
  let keep := cmd_keep_operation unit unit accept line_of no_operands 6 dumper in
  let operations := fun tag : Z => if tag =? 6 then Some keep else None in
  let interp0 := mk_interp unit unit 0 false false None None 0 [] in
  0 <= 6 < 128
  /\ 1 < 2 ^ 64
  /\ operations 6 = Some keep
  /\ 0 <= accept [] (mk_keep_call unit [] 1)
  /\ exists final,
       sieve_interpreter_run 64 (filled 0) unit unit unit
         (fst (sieve_binary_emit_byte unit (mk_block unit [] []) 6))
         operations 2 interp0 tt []
       = Some (true, final, Some [mk_keep_call unit [] 1])
       /\ pc final = 1.
Proof.
  intros accept line_of no_operands dumper keep operations interp0.
  assert (H1 : 0 <= 6 < 128) by (split; [discriminate | reflexivity]).
  assert (H2 : 1 < 2 ^ 64) by (vm_compute; reflexivity).
  assert (H3 : operations 6 = Some keep) by reflexivity.
  assert (H4 : forall interp : sieve_interpreter unit unit,
             pc interp
             = sieve_binary_get_code_size unit
                 (fst (sieve_binary_emit_byte unit (mk_block unit [] []) 6)) ->
             no_operands interp = (1, [], interp))
    by (intros; reflexivity).
  assert (H5 : 0 <= accept [] (mk_keep_call unit [] (line_of (oprtn_address interp0))))
    by (vm_compute; discriminate).
  split; [exact H1|]. split; [exact H2|]. split; [exact H3|]. split; [exact H5|].
  destruct (keep_program_run 64 (filled 0) unit unit unit accept []
              operations line_of no_operands 6 dumper interp0 tt
              H1 H2 H3 H4 H5) as [Hrun _].
  destruct (Hrun 2%nat (le_n 2)) as [final [Hr [Hpc _]]].
  exists final. split; [exact Hr | exact Hpc].
Defined.

(** ** Instances of the further properties *)

Lemma emit_offset_read_offset_witness :
  let sblock := mk_block unit [7] [] in
  - 2 ^ 31 <= -2 <= INT_MAX
  /\ Z.of_nat (length (data sblock)) + 4 + Z.of_nat (length [9]) < 2 ^ 64
  /\ sieve_binary_read_offset 64 (filled 0) unit
       (_sieve_binary_emit_data unit
          (fst (sieve_binary_emit_offset unit sblock (-2))) [9])
       (mk_cursor 1 [])
     = (Some (-2), mk_cursor 5 []).
Proof.
  intros sblock.
  assert (H1 : - 2 ^ 31 <= -2 <= INT_MAX) by (vm_compute; split; discriminate).
  assert (H2 : Z.of_nat (length (data sblock)) + 4 + Z.of_nat (length [9])
               < 2 ^ 64) by (vm_compute; reflexivity).
  split; [exact H1|]. split; [exact H2|].
  destruct (emit_offset_read_offset 64 (filled 0) unit sblock (-2) [9] [] H1 H2)
    as [_ [_ [_ H]]].
  exact H.
Defined.

Lemma emit_byte_read_byte_witness :
  let sblock := mk_block unit [7] [] in
  Z.of_nat (length (data sblock)) + 1 + Z.of_nat (length [9]) < 2 ^ 64
  /\ sieve_binary_read_byte 64 (filled 0) unit
       (_sieve_binary_emit_data unit
          (fst (sieve_binary_emit_byte unit sblock 300)) [9])
       (Some 0) (mk_cursor 1 [])
     = (Some (true, Some 44), mk_cursor 2 [])
  /\ sieve_binary_read_code 64 (filled 0) unit
       (_sieve_binary_emit_data unit
          (fst (sieve_binary_emit_byte unit sblock 300)) [9])
       None (mk_cursor 1 [])
     = (Some (true, None), mk_cursor 2 []).
Proof.
  intros sblock.
  assert (H1 : Z.of_nat (length (data sblock)) + 1 + Z.of_nat (length [9])
               < 2 ^ 64) by (vm_compute; reflexivity).
  split; [exact H1|].
  destruct (emit_byte_read_byte 64 (filled 0) unit sblock 300 [9] [] (Some 0) H1)
    as [_ [_ [Hb _]]].
  destruct (emit_byte_read_byte 64 (filled 0) unit sblock 300 [9] [] None H1)
    as [_ [_ [_ Hc]]].
  split; [exact Hb | exact Hc].
Defined.

Lemma emit_integer_outcome_witness :
  let sblock := mk_block unit [7] [] in
  0 <= 4
  /\ 0 <= 300
  /\ sieve_binary_emit_integer 4 unit sblock 300
     = Some (mk_block unit [7; 130; 44] [], 1)
  /\ exists bytes,
       [7; 130; 44] = [7] ++ bytes
       /\ 1 <= Z.of_nat (length bytes) <= 4 + 1
       /\ (300 < 128 <-> length bytes = 1%nat).
Proof.
  intros sblock.
  assert (H1 : 0 <= 4) by discriminate.
  assert (H2 : 0 <= 300) by discriminate.
  assert (E : sieve_binary_emit_integer 4 unit sblock 300
              = Some (mk_block unit [7; 130; 44] [], 1))
    by (vm_compute; reflexivity).
  split; [exact H1|]. split; [exact H2|]. split; [exact E|].
  destruct (emit_integer_outcome 4 unit sblock 300 H1 H2) as [_ H].
  destruct (H _ _ E) as [_ [_ Hbytes]].
  exact Hbytes.
Defined.

Lemma read_integer_decodes_modulo_witness :
  let sblock := mk_block unit [255; 255; 255; 255; 255; 127] [] in
  let gs := [127; 127; 127; 127; 127] in
  1 <= 4
  /\ _code_size unit sblock < 2 ^ 64
  /\ Forall (fun x => 0 <= x < 128) gs
  /\ 7 * Z.of_nat (length gs) < NUMBER_BITS 4 + 7
  /\ sieve_binary_read_integer 4 64 (filled 0) unit sblock (mk_cursor 0 [])
     = (true, 4294967295, mk_cursor 6 []).
Proof.
  intros sblock gs.
  assert (H1 : 1 <= 4) by discriminate.
  assert (H2 : _code_size unit sblock < 2 ^ 64) by (vm_compute; reflexivity).
  assert (H3 : data sblock
               = [] ++ map (fun x => Z.lor x 0x80) gs ++ 127 :: [])
    by (vm_compute; reflexivity).
  assert (H4 : address (mk_cursor 0 []) = Z.of_nat (length (@nil Z)))
    by reflexivity.
  assert (H5 : Forall (fun x => 0 <= x < 128) gs)
    by (repeat constructor; discriminate).
  assert (H6 : 0 <= 127 < 128) by (split; [discriminate | reflexivity]).
  assert (H7 : 7 * Z.of_nat (length gs) < NUMBER_BITS 4 + 7)
    by (vm_compute; reflexivity).
  split; [exact H1|]. split; [exact H2|]. split; [exact H5|]. split; [exact H7|].
  exact (read_integer_decodes_modulo 4 64 (filled 0) unit sblock [] gs 127 []
           (mk_cursor 0 []) H1 H2 H3 H4 H5 H6 H7).
Defined.

Lemma read_integer_refuses_long_witness :
  let sblock := mk_block unit [255; 255; 255; 255; 255; 255; 0] [] in
  let gs := [127; 127; 127; 127; 127; 127] in
  0 <= 4
  /\ _code_size unit sblock < 2 ^ 64
  /\ Forall (fun x => 0 <= x < 128) gs
  /\ NUMBER_BITS 4 + 7 <= 7 * Z.of_nat (length gs)
  /\ exists k,
       fst (fst (sieve_binary_read_integer 4 64 (filled 0) unit sblock
                   (mk_cursor 0 []))) = false
       /\ snd (sieve_binary_read_integer 4 64 (filled 0) unit sblock
                 (mk_cursor 0 []))
          = mk_cursor (0 + k) []
       /\ NUMBER_BITS 4 <= 7 * k < NUMBER_BITS 4 + 7.
Proof.
  intros sblock gs.
  assert (H1 : 0 <= 4) by discriminate.
  assert (H2 : _code_size unit sblock < 2 ^ 64) by (vm_compute; reflexivity).
  assert (H3 : data sblock = [] ++ map (fun x => Z.lor x 0x80) gs ++ [0])
    by (vm_compute; reflexivity).
  assert (H4 : address (mk_cursor 0 []) = Z.of_nat (length (@nil Z)))
    by reflexivity.
  assert (H5 : Forall (fun x => 0 <= x < 128) gs)
    by (repeat constructor; discriminate).
  assert (H6 : NUMBER_BITS 4 + 7 <= 7 * Z.of_nat (length gs))
    by (vm_compute; discriminate).
  split; [exact H1|]. split; [exact H2|]. split; [exact H5|]. split; [exact H6|].
  exact (read_integer_refuses_long 4 64 (filled 0) unit sblock [] gs [0]
           (mk_cursor 0 []) H1 H2 H3 H4 H5 H6).
Defined.

Lemma read_string_refuses_long_length_witness :
  let sblock := mk_block unit [5; 65; 66] [] in
  _code_size unit sblock < 2 ^ 64
  /\ 0 <= 5 < 2 ^ NUMBER_BITS 4
  /\ 5 < 2 ^ (7 * (4 + 1))
  /\ 5 <= UINT_MAX
  /\ Z.of_nat (length [65; 66]) < 5
  /\ sieve_binary_read_string 4 64 (filled 0) unit sblock (mk_cursor 0 [])
     = (None, mk_cursor 1 []).
Proof.
  intros sblock.
  assert (H1 : _code_size unit sblock < 2 ^ 64) by (vm_compute; reflexivity).
  assert (H2 : data sblock = [] ++ emitted_integer 4 5 ++ [65; 66])
    by (vm_compute; reflexivity).
  assert (H3 : address (mk_cursor 0 []) = Z.of_nat (length (@nil Z)))
    by reflexivity.
  assert (H4 : 0 <= 5 < 2 ^ NUMBER_BITS 4)
    by (vm_compute; split; [discriminate | reflexivity]).
  assert (H5 : 5 < 2 ^ (7 * (4 + 1))) by (vm_compute; reflexivity).
  assert (H6 : 5 <= UINT_MAX) by (vm_compute; discriminate).
  assert (H7 : Z.of_nat (length [65; 66]) < 5) by (vm_compute; reflexivity).
  split; [exact H1|]. split; [exact H4|]. split; [exact H5|].
  split; [exact H6|]. split; [exact H7|].
  exact (read_string_refuses_long_length 4 64 (filled 0) unit sblock []
           [65; 66] 5 (mk_cursor 0 []) H1 H2 H3 H4 H5 H6 H7).
Defined.

Lemma emit_cstring_read_string_witness :
  let sblock := mk_block unit [7] [] in
  Forall (fun b => 0 < b < 256) [104; 105]
  /\ Z.of_nat (length [104; 105]) < 2 ^ NUMBER_BITS 4
  /\ Z.of_nat (length [104; 105]) < 2 ^ (7 * (4 + 1))
  /\ Z.of_nat (length [104; 105]) <= UINT_MAX
  /\ sieve_binary_emit_cstring 4 unit sblock ([104; 105] ++ 0 :: [120; 0; 121])
     = Some (mk_block unit [7; 2; 104; 105; 0] [], 1)
  /\ sieve_binary_read_string 4 64 (filled 0) unit
       (mk_block unit [7; 2; 104; 105; 0; 9] []) (mk_cursor 1 [])
     = (Some [104; 105], mk_cursor 5 []).
Proof.
  intros sblock.
  assert (H0 : Forall (fun b => 0 < b < 256) [104; 105])
    by (repeat constructor).
  assert (H1 : Z.of_nat (length [104; 105]) < 2 ^ NUMBER_BITS 4)
    by (vm_compute; reflexivity).
  assert (H2 : Z.of_nat (length [104; 105]) < 2 ^ (7 * (4 + 1)))
    by (vm_compute; reflexivity).
  assert (H3 : Z.of_nat (length [104; 105]) <= UINT_MAX)
    by (vm_compute; discriminate).
  split; [exact H0|]. split; [exact H1|]. split; [exact H2|]. split; [exact H3|].
  destruct (emit_cstring_read_string 4 64 (filled 0) unit sblock [104; 105]
              [120; 0; 121] H0) as [_ H].
  destruct (H H1 H2 H3) as [sblock1 [A [E [_ Hread]]]].
  assert (E' : sieve_binary_emit_cstring 4 unit sblock
                 ([104; 105] ++ 0 :: [120; 0; 121])
               = Some (mk_block unit [7; 2; 104; 105; 0] [], 1))
    by (vm_compute; reflexivity).
  split; [exact E'|].
  rewrite E' in E. injection E as <- <-.
  assert (H4 : Z.of_nat (length (data (mk_block unit [7; 2; 104; 105; 0] [])
                                   ++ [9])) < 2 ^ 64)
    by (vm_compute; reflexivity).
  exact (Hread [9] [] H4).
Defined.

Lemma extension_object_round_trip_witness :
  let sblock := mk_block unit [7] [] in
  let objs := [10; 20; 30]%nat in
  0 <= 2 < Z.of_nat (length objs)
  /\ 2 < 256
  /\ Z.of_nat (length (data sblock)) + 1 + Z.of_nat (length [9]) < 2 ^ 64
  /\ sieve_binary_read_extension_object 64 (filled 0) unit
       (_sieve_binary_emit_data unit
          (sieve_binary_emit_extension_object unit sblock objs 2) [9])
       objs (mk_cursor 1 [])
     = (Some 30%nat, mk_cursor 2 []).
Proof.
  intros sblock objs.
  assert (H1 : 0 <= 2 < Z.of_nat (length objs))
    by (vm_compute; split; [discriminate | reflexivity]).
  assert (H2 : 2 < 256) by reflexivity.
  assert (H3 : Z.of_nat (length (data sblock)) + 1 + Z.of_nat (length [9])
               < 2 ^ 64) by (vm_compute; reflexivity).
  split; [exact H1|]. split; [exact H2|]. split; [exact H3|].
  destruct (extension_object_round_trip 64 (filled 0) unit sblock objs 2 [9] []
              H1 H2 H3) as [_ H].
  exact H.
Defined.

Lemma read_extension_object_refuses_witness :
  let sblock := mk_block unit [5; 1] [] in
  let objs := [10; 20; 30]%nat in
  _code_size unit sblock < 2 ^ 64
  /\ 0 <= address (mk_cursor 0 []) <= _code_size unit sblock
  /\ (2 <= length objs)%nat
  /\ Z.of_nat (length objs)
     <= to_uchar (nth (Z.to_nat (address (mk_cursor 0 []))) (data sblock) 0)
  /\ sieve_binary_read_extension_object 64 (filled 0) unit sblock objs
       (mk_cursor 0 [])
     = (None, mk_cursor 1 [])
  /\ sieve_binary_read_extension_object 64 (filled 0) unit sblock objs
       (mk_cursor 2 [])
     = (None, mk_cursor 2 [])
  /\ sieve_binary_read_extension_object 64 (filled 0) unit sblock (@nil nat)
       (mk_cursor 0 [])
     = (None, mk_cursor 0 []).
Proof.
  intros sblock objs.
  assert (H1 : _code_size unit sblock < 2 ^ 64) by (vm_compute; reflexivity).
  assert (H2 : 0 <= address (mk_cursor 0 []) <= _code_size unit sblock)
    by (vm_compute; split; discriminate).
  assert (H3 : (2 <= length objs)%nat) by (simpl; lia).
  assert (H4 : address (mk_cursor 0 []) < _code_size unit sblock)
    by (vm_compute; reflexivity).
  assert (H5 : Z.of_nat (length objs)
               <= to_uchar (nth (Z.to_nat (address (mk_cursor 0 [])))
                                (data sblock) 0))
    by (vm_compute; discriminate).
  assert (H6 : 0 <= address (mk_cursor 2 []) <= _code_size unit sblock)
    by (vm_compute; split; discriminate).
  assert (H7 : address (mk_cursor 2 []) = _code_size unit sblock)
    by reflexivity.
  split; [exact H1|]. split; [exact H2|]. split; [exact H3|]. split; [exact H5|].
  destruct (read_extension_object_refuses 64 (filled 0) unit sblock objs
              (mk_cursor 0 []) H1 H2) as [_ [_ Hsel]].
  destruct (read_extension_object_refuses 64 (filled 0) unit sblock objs
              (mk_cursor 2 []) H1 H6) as [_ [Hend _]].
  destruct (read_extension_object_refuses 64 (filled 0) unit sblock (@nil nat)
              (mk_cursor 0 []) H1 H2) as [Hnone _].
  split; [exact (Hsel H3 H4 H5)|].
  split; [exact (Hend H3 H7) | exact (Hnone eq_refl)].
Defined.

Lemma variable_reads_fail_at_end_witness :
  let sblock := mk_block unit [5] [] in
  let c := mk_cursor 1 [] in
  let objs := [10; 20]%nat in
  _code_size unit sblock < 2 ^ 64
  /\ address c = _code_size unit sblock
  /\ length objs <> 1%nat
  /\ sieve_binary_read_integer 4 64 (filled 0) unit sblock c = (false, 0, c)
  /\ sieve_binary_read_string 4 64 (filled 0) unit sblock c = (None, c)
  /\ sieve_binary_read_extension 64 (filled 0) unit sblock 3 None c
     = (false, 3, None, c)
  /\ sieve_binary_read_extension_object 64 (filled 0) unit sblock objs c
     = (None, c).
Proof.
  intros sblock c objs.
  assert (H1 : _code_size unit sblock < 2 ^ 64) by (vm_compute; reflexivity).
  assert (H2 : address c = _code_size unit sblock) by reflexivity.
  assert (H3 : length objs <> 1%nat) by (simpl; discriminate).
  split; [exact H1|]. split; [exact H2|]. split; [exact H3|].
  destruct (variable_reads_fail_at_end 4 64 (filled 0) unit sblock c 3 None
              objs H1 H2) as [Hi [Hs [He Ho]]].
  split; [exact Hi|]. split; [exact Hs|]. split; [exact He | exact (Ho H3)].
Defined.

Lemma read_byte_beyond_end_witness :
  let sblock := mk_block unit [5] [] in
  _code_size unit sblock < address (mk_cursor 3 []) < 2 ^ 64
  /\ sieve_binary_read_byte 64 (filled 7) unit sblock (Some 0) (mk_cursor 3 [])
     = (Some (true, Some 7), mk_cursor 4 [3])
  /\ sieve_binary_read_byte 64 (filled 7) unit sblock None (mk_cursor 3 [])
     = (Some (true, None), mk_cursor 4 []).
Proof.
  intros sblock.
  assert (H1 : _code_size unit sblock < address (mk_cursor 3 []) < 2 ^ 64)
    by (vm_compute; split; reflexivity).
  split; [exact H1|].
  exact (read_byte_beyond_end 64 (filled 7) unit sblock (mk_cursor 3 []) 0 H1).
Defined.

Lemma fixed_width_reads_checked_witness :
  let sblock := mk_block unit [1; 2; 3] [] in
  _code_size unit sblock < 2 ^ 64
  /\ 0 <= address (mk_cursor 1 []) <= _code_size unit sblock
  /\ _code_size unit sblock - address (mk_cursor 1 []) < 4
  /\ 0 <= address (mk_cursor 3 []) <= _code_size unit sblock
  /\ _code_size unit sblock - address (mk_cursor 3 []) < 1
  /\ sieve_binary_read_offset 64 (filled 0) unit sblock (mk_cursor 1 [])
     = (None, mk_cursor 1 [])
  /\ sieve_binary_read_byte 64 (filled 0) unit sblock (Some 9) (mk_cursor 3 [])
     = (Some (false, Some 0), mk_cursor 3 [])
  /\ sieve_binary_read_code 64 (filled 0) unit sblock (Some 9) (mk_cursor 3 [])
     = (Some (false, Some 0), mk_cursor 3 [])
  /\ sieve_binary_read_byte 64 (filled 0) unit sblock None (mk_cursor 3 [])
     = (None, mk_cursor 3 [])
  /\ sieve_binary_read_code 64 (filled 0) unit sblock None (mk_cursor 3 [])
     = (None, mk_cursor 3 []).
Proof.
  intros sblock.
  assert (H1 : _code_size unit sblock < 2 ^ 64) by (vm_compute; reflexivity).
  assert (H2 : 0 <= address (mk_cursor 1 []) <= _code_size unit sblock)
    by (vm_compute; split; discriminate).
  assert (H3 : _code_size unit sblock - address (mk_cursor 1 []) < 4)
    by (vm_compute; reflexivity).
  assert (H4 : 0 <= address (mk_cursor 3 []) <= _code_size unit sblock)
    by (vm_compute; split; discriminate).
  assert (H5 : _code_size unit sblock - address (mk_cursor 3 []) < 1)
    by (vm_compute; reflexivity).
  split; [exact H1|]. split; [exact H2|]. split; [exact H3|].
  split; [exact H4|]. split; [exact H5|].
  destruct (fixed_width_reads_checked 64 (filled 0) unit sblock
              (mk_cursor 1 []) (Some 9) H1 H2) as [_ [_ [_ [_ Hoff]]]].
  destruct (fixed_width_reads_checked 64 (filled 0) unit sblock
              (mk_cursor 3 []) (Some 9) H1 H4) as [_ [_ [_ [Hsome _]]]].
  destruct (fixed_width_reads_checked 64 (filled 0) unit sblock
              (mk_cursor 3 []) None H1 H4) as [_ [_ [_ [Hnull _]]]].
  destruct (Hsome H5) as [Hs _]. destruct (Hs 9 eq_refl) as [Hsb Hsc].
  destruct (Hnull H5) as [_ Hn]. destruct (Hn eq_refl) as [Hnb Hnc].
  split; [exact (Hoff H3)|]. split; [exact Hsb|]. split; [exact Hsc|].
  split; [exact Hnb | exact Hnc].
Defined.

Lemma resolved_jump_lands_witness :
  let sblock := mk_block unit [1] [] in
  let interp := mk_interp unit unit 1 false false None None 0 [] in
  Z.of_nat (length [2; 3]) + 4 <= INT_MAX
  /\ Z.of_nat (length (data sblock)) + 4 + Z.of_nat (length [2; 3])
       + Z.of_nat (length [4]) < 2 ^ 64
  /\ pc interp = snd (sieve_binary_emit_offset unit sblock 0)
  /\ sieve_interpreter_program_jump 64 (filled 0) unit unit unit
       (mk_block unit [1; 0; 0; 0; 6; 2; 3; 4] []) interp true
     = (true, mk_interp unit unit 7 false false None None 0 []).
Proof.
  intros sblock interp.
  assert (H1 : Z.of_nat (length [2; 3]) + 4 <= INT_MAX)
    by (vm_compute; discriminate).
  assert (H2 : Z.of_nat (length (data sblock)) + 4 + Z.of_nat (length [2; 3])
               + Z.of_nat (length [4]) < 2 ^ 64) by (vm_compute; reflexivity).
  assert (H3 : pc interp = snd (sieve_binary_emit_offset unit sblock 0))
    by reflexivity.
  split; [exact H1|]. split; [exact H2|]. split; [exact H3|].
  destruct (resolved_jump_lands 64 (filled 0) unit unit unit sblock 0 [2; 3]
              [4] interp true H1 H2 H3) as [H _].
  exact H.
Defined.

Lemma run_forward_terminates_witness :
  let sbin := mk_block unit [1] [] in
  let operations :=
    fun tag : Z => if tag =? 1 then Some (stop_operation unit unit) else None in
  let interp0 := mk_interp unit unit 0 false false None None 0 [] in
  _code_size unit sbin < 2 ^ 64
  /\ (forall tag op e interp,
        operations tag = Some op -> execute unit unit op = Some e ->
        pc interp <= pc (snd (e interp)))
  /\ exists r,
       sieve_interpreter_run 64 (filled 0) unit unit unit sbin operations
         2%nat interp0 tt []
       = Some r.
Proof.
  intros sbin operations interp0.
  assert (H1 : _code_size unit sbin < 2 ^ 64) by (vm_compute; reflexivity).
  assert (H2 : forall tag op e interp,
             operations tag = Some op -> execute unit unit op = Some e ->
             pc interp <= pc (snd (e interp))).
  { intros tag op e interp Hop He. unfold operations in Hop.
    destruct (tag =? 1); [|discriminate].
    injection Hop as <-. injection He as <-. apply Z.le_refl. }
  split; [exact H1|]. split; [exact H2|].
  destruct (run_forward_terminates 64 (filled 0) unit unit unit sbin operations
              interp0 tt [] H1 H2) as [r Hr].
  exists r. apply Hr. apply le_n.
Defined.

Lemma dump_code_forward_terminates_witness :
  let sbin := mk_block unit [1; 2] [] in
  let named := mk_operation unit unit (Some "NAMED"%string) 2 None None in
  let operations :=
    fun tag : Z =>
      if tag =? 1
      then Some (mk_operation unit unit None 1
                   (Some (fun interp => (true, interp))) None)
      else if tag =? 2 then Some named else None in
  let interp0 := mk_interp unit unit 0 false false None None 0 [] in
  let interp1 := mk_interp unit unit 1 false false None None 0 [] in
  _code_size unit sbin < 2 ^ 64
  /\ (forall tag op d interp,
        operations tag = Some op -> dump unit unit op = Some d ->
        pc interp <= pc (snd (d interp)))
  /\ 0 <= pc interp1 < sieve_binary_get_code_size unit sbin
  /\ fst (sieve_operation_read 64 (filled 0) unit unit unit sbin operations
            interp1) = Some named
  /\ dump unit unit named = None
  /\ (exists r,
        sieve_interpreter_dump_code 64 (filled 0) unit unit unit sbin operations
          3%nat interp0
        = Some r)
  /\ sieve_interpreter_dump_operation 64 (filled 0) unit unit unit sbin
       operations interp1
     = (true, mk_interp unit unit 2 false false None None 0 []).
Proof.
  intros sbin named operations interp0 interp1.
  assert (H1 : _code_size unit sbin < 2 ^ 64) by (vm_compute; reflexivity).
  assert (H2 : forall tag op d interp,
             operations tag = Some op -> dump unit unit op = Some d ->
             pc interp <= pc (snd (d interp))).
  { intros tag op d interp Hop Hd. unfold operations in Hop.
    destruct (tag =? 1).
    - injection Hop as <-. injection Hd as <-. apply Z.le_refl.
    - destruct (tag =? 2); [|discriminate].
      injection Hop as <-. discriminate. }
  assert (H3 : 0 <= pc interp1 < sieve_binary_get_code_size unit sbin)
    by (vm_compute; split; [discriminate | reflexivity]).
  assert (H4 : fst (sieve_operation_read 64 (filled 0) unit unit unit sbin
                      operations interp1) = Some named)
    by (vm_compute; reflexivity).
  assert (H5 : dump unit unit named = None) by reflexivity.
  split; [exact H1|]. split; [exact H2|]. split; [exact H3|].
  split; [exact H4|]. split; [exact H5|].
  destruct (dump_code_forward_terminates 64 (filled 0) unit unit unit sbin
              operations interp0 H1 H2) as [[r Hr] Hop].
  split.
  - exists r. apply Hr. apply le_n.
  - exact (Hop interp1 named H3 H4 H5).
Defined.

Lemma emit_extension_read_extension_witness :
  let sblock := mk_block nat [7] [5; 6]%nat in
  0 <= 10
  /\ 10 + Z.of_nat (length (sbin_extensions sblock)) < 256
  /\ Z.of_nat (length (data sblock)) + 1 + Z.of_nat (length [9]) < 2 ^ 64
  /\ exists index,
       extension_index nat Nat.eq_dec
         (sbin_extensions
            (fst (sieve_binary_emit_extension nat Nat.eq_dec sblock 6%nat 10)))
         6%nat
       = Some index
       /\ sieve_binary_read_extension 64 (filled 0) nat
            (_sieve_binary_emit_data nat
               (fst (sieve_binary_emit_extension nat Nat.eq_dec sblock 6%nat 10))
               [9])
            10 None (mk_cursor 1 [])
          = (true, 10 + Z.of_nat index, Some 6%nat, mk_cursor 2 []).
Proof.
  intros sblock.
  assert (H1 : 0 <= 10) by discriminate.
  assert (H2 : 10 + Z.of_nat (length (sbin_extensions sblock)) < 256)
    by (vm_compute; reflexivity).
  assert (H3 : Z.of_nat (length (data sblock)) + 1 + Z.of_nat (length [9])
               < 2 ^ 64) by (vm_compute; reflexivity).
  split; [exact H1|]. split; [exact H2|]. split; [exact H3|].
  destruct (emit_extension_read_extension 64 (filled 0) nat Nat.eq_dec sblock
              6%nat 10 [9] [] None H1 H2 H3) as [index [Hi [_ [Hr _]]]].
  exists index. split; [exact Hi | exact Hr].
Defined.

Lemma extension_context_set_get_witness :
  let ext_contexts := [Some 1%nat] in
  let ext_contexts1 :=
    sieve_interpreter_extension_set_context ext_contexts 3 (Some 9%nat) in
  0 <= 3 < INT_MAX
  /\ Z.of_nat (length ext_contexts) <= INT_MAX
  /\ sieve_interpreter_extension_get_context ext_contexts1 3 = Some 9%nat
  /\ sieve_interpreter_extension_get_context ext_contexts1 2
     = sieve_interpreter_extension_get_context ext_contexts 2
  /\ Z.of_nat (length ext_contexts1) = 4.
Proof.
  intros ext_contexts ext_contexts1.
  assert (H1 : 0 <= 3 < INT_MAX)
    by (vm_compute; split; [discriminate | reflexivity]).
  assert (H2 : Z.of_nat (length ext_contexts) <= INT_MAX)
    by (vm_compute; discriminate).
  assert (H3 : 2 <> 3) by discriminate.
  split; [exact H1|]. split; [exact H2|].
  destruct (extension_context_set_get ext_contexts 3 (Some 9%nat) H1 H2)
    as [Hget [Hother Hlen]].
  split; [exact Hget|]. split; [exact (Hother 2 H3) | exact Hlen].
Defined.

Lemma envelope_setters_do_not_interfere_witness :
  let st0 :=
    Testsuite.mk_state (fun _ => EmptyString)
      (Testsuite.mk_msgdata Testsuite.NULL Testsuite.NULL Testsuite.NULL
         Testsuite.NULL Testsuite.NULL) in
  let st :=
    Testsuite.testsuite_message_set_data unit
      (fun _ _ => (0, EmptyString)) (fun _ => None) "tester"%string st0 tt in
  let st1 := Testsuite.testsuite_envelope_set_sender st (Some "a@b"%string) in
  Testsuite.pointers_in_buffers "tester"%string st
  /\ Testsuite.text st1
       (Testsuite.return_path (Testsuite.testsuite_msgdata st1))
     = Some "a@b"%string
  /\ Testsuite.text st1
       (Testsuite.final_envelope_to (Testsuite.testsuite_msgdata st1))
     = Some "recipient@example.com"%string.
Proof.
  intros st0 st st1.
  assert (H1 : Testsuite.pointers_in_buffers "tester"%string st).
  { unfold Testsuite.pointers_in_buffers. cbn.
    split; [reflexivity|]. split; [reflexivity|]. split; right; reflexivity. }
  split; [exact H1|].
  destruct (envelope_setters_do_not_interfere "tester"%string st
              (Some "a@b"%string) H1) as [[Hs [_ [_ Hf]]] _].
  split; [exact Hs | exact Hf].
Defined.

Lemma emit_extension_truncates_witness :
  let sblock := mk_block nat [7] (seq 0 7) in
  0 <= 250 < 256
  /\ snd (sieve_binary_extension_register nat Nat.eq_dec sblock 6%nat) < 256
  /\ 256 <= 250 + snd (sieve_binary_extension_register nat Nat.eq_dec sblock 6%nat)
  /\ Z.of_nat (length (data sblock)) + 1 + Z.of_nat (length [9]) < 2 ^ 64
  /\ sieve_binary_read_extension 64 (filled 0) nat
       (_sieve_binary_emit_data nat
          (fst (sieve_binary_emit_extension nat Nat.eq_dec sblock 6%nat 250))
          [9])
       250 None (mk_cursor 1 [])
     = (true, 0, None, mk_cursor 2 []).
Proof.
  intros sblock.
  assert (H1 : 0 <= 250 < 256) by (split; [discriminate | reflexivity]).
  assert (H2 : snd (sieve_binary_extension_register nat Nat.eq_dec sblock 6%nat)
               < 256) by (vm_compute; reflexivity).
  assert (H3 : 256 <= 250 + snd (sieve_binary_extension_register nat Nat.eq_dec
                                   sblock 6%nat))
    by (vm_compute; discriminate).
  assert (H4 : Z.of_nat (length (data sblock)) + 1 + Z.of_nat (length [9])
               < 2 ^ 64) by (vm_compute; reflexivity).
  split; [exact H1|]. split; [exact H2|]. split; [exact H3|]. split; [exact H4|].
  destruct (emit_extension_truncates 64 (filled 0) nat Nat.eq_dec sblock 6%nat
              250 [9] [] None H1 H2 H3 H4) as [_ H].
  exact H.
Defined.
